(** * The GDB remote-serial-protocol stub of Vita3K (vita3k/gdbstub/src/gdb.cpp)

    A shallow embedding of the stub: the hex and checksum codec, the packet
    framer, the handlers of the dispatch table, and the session step
    [server_next], followed by the properties of the natural-language
    specification that were checked against it.

    Conventions.  A C++ [char] is an [ascii]; a [std::string], a [char*]
    buffer and a [std::vector<char>] are [list ascii].  Fixed-width integers
    are [Z] with the wrap-around written out.  [size_t] and [unsigned long]
    are 64 bits wide (the LP64 targets of the emulator). *)

From Stdlib Require Import ZArith Ascii String List Lia Bool.
Import ListNotations.
Open Scope Z_scope.

(** ** Characters and strings *)

Definition bytes := list ascii.

Definition lit (s : string) : bytes := list_ascii_of_string s.

(** The value of a character as [unsigned char]. *)
Definition uchar (c : ascii) : Z := Z.of_N (N_of_ascii c).

(** The value of a plain [char] after integer promotion: plain [char] is
    signed on x86-64 and unsigned on the AArch64 Linux ABI. *)
Definition char_promote (char_is_signed : bool) (c : ascii) : Z :=
  if char_is_signed && (128 <=? uchar c) then uchar c - 256 else uchar c.

Definition size_t (x : Z) : Z := x mod 2 ^ 64.
Definition uint32_t (x : Z) : Z := x mod 2 ^ 32.
Definition uint8_t (x : Z) : Z := x mod 2 ^ 8.
Definition int32_t (x : Z) : Z := (x + 2 ^ 31) mod 2 ^ 32 - 2 ^ 31.

Definition npos : Z := 2 ^ 64 - 1.
Definition ULONG_MAX : Z := 2 ^ 64 - 1.

(** ** Hexes *)

Module Codec.

Definition hex_digit (d : Z) : ascii :=
  nth (Z.to_nat d) (lit "0123456789abcdef") "0"%char.

(** The digits fmt writes for the presentation type [x]: the shortest
    lowercase hexadecimal numeral of [v], at least one digit. *)
Fixpoint hex_digits (fuel : nat) (v : Z) (acc : bytes) : bytes :=
  match fuel with
  | O => acc
  | S fuel' =>
      let acc' := hex_digit (v mod 16) :: acc in
      if v / 16 =? 0 then acc' else hex_digits fuel' (v / 16) acc'
  end.

Definition fmt_x (v : Z) : bytes := hex_digits 16 v [].

(** Fill and align of the format spec [{:F>W}]. *)
Definition pad_left (width : nat) (fill : ascii) (s : bytes) : bytes :=
  repeat fill (width - length s) ++ s.

(** [fmt::format("{:0>8x}", value)] on a [uint32_t]. *)
Definition to_hex (value : Z) : bytes := pad_left 8 "0"%char (fmt_x value).

(** [fmt::format("{:0>8x}", value)] on a [SceUID] (a signed 32-bit integer):
    fmt writes the sign and the digits of the magnitude, and the fill goes to
    the left of both. *)
Definition to_hex_uid (value : Z) : bytes :=
  pad_left 8 "0"%char (if value <? 0 then "-"%char :: fmt_x (- value) else fmt_x value).

(** [fmt::format("{:0>2x}", checksum)] and ["{:02x}"] on a [uint8_t]. *)
Definition hex2 (value : Z) : bytes := pad_left 2 "0"%char (fmt_x value).

(** [htonl] on a little-endian host: the four bytes of the value, as they lie
    in memory, are read back most significant first. *)
Definition htonl (value : Z) : Z :=
  let b0 := value mod 256 in
  let b1 := (value / 2 ^ 8) mod 256 in
  let b2 := (value / 2 ^ 16) mod 256 in
  let b3 := (value / 2 ^ 24) mod 256 in
  ((b0 * 256 + b1) * 256 + b2) * 256 + b3.

Definition be_hex (value : Z) : bytes := to_hex (htonl value).

(** The byte swap of the specification, with shifts and masks. *)
Definition byteswap32 (v : Z) : Z :=
  Z.lor (Z.shiftl (Z.land v 255) 24)
    (Z.lor (Z.shiftl (Z.land v 65280) 8)
       (Z.lor (Z.land (Z.shiftr v 8) 65280)
          (Z.land (Z.shiftr v 24) 255))).

(** *** [strtoul(s, nullptr, 16)] *)

Definition isspace (c : ascii) : bool :=
  let n := uchar c in (n =? 32) || ((9 <=? n) && (n <=? 13)).

Definition digit_of (c : ascii) : option Z :=
  let n := uchar c in
  if (48 <=? n) && (n <=? 57) then Some (n - 48)
  else if (97 <=? n) && (n <=? 122) then Some (n - 87)
  else if (65 <=? n) && (n <=? 90) then Some (n - 55)
  else None.

Fixpoint skip_space (s : bytes) : bytes :=
  match s with
  | c :: rest => if isspace c then skip_space rest else s
  | [] => []
  end.

(** The digit loop: stops at the first character that is not a digit of the
    base (the terminating NUL of the C string is one); remembers overflow. *)
Fixpoint accumulate (base : Z) (s : bytes) (acc : Z) (overflow : bool) : Z * bool :=
  match s with
  | c :: rest =>
      match digit_of c with
      | Some d =>
          if d <? base then
            let acc' := acc * base + d in
            if ULONG_MAX <? acc' then accumulate base rest acc true
            else accumulate base rest acc' overflow
          else (acc, overflow)
      | None => (acc, overflow)
      end
  | [] => (acc, overflow)
  end.

Definition strip_sign (s : bytes) : bool * bytes :=
  match s with
  | c :: rest =>
      if Ascii.eqb c "-" then (true, rest)
      else if Ascii.eqb c "+" then (false, rest)
      else (false, s)
  | [] => (false, s)
  end.

Definition strip_0x (s : bytes) : bytes :=
  match s with
  | c0 :: c1 :: rest =>
      if Ascii.eqb c0 "0" && (Ascii.eqb c1 "x" || Ascii.eqb c1 "X") then rest else s
  | _ => s
  end.

Definition strtoul16 (s : bytes) : Z :=
  let (negative, s1) := strip_sign (skip_space s) in
  let (v, overflow) := accumulate 16 (strip_0x s1) 0 false in
  if overflow then ULONG_MAX
  else if negative then (- v) mod 2 ^ 64 else v.

Definition parse_hex (hex : bytes) : Z := uint32_t (strtoul16 hex).

(** *** Checksum *)

(** The loop of [make_checksum]: [sum += data[a]] for the first [n]
    characters, [sum] being a [size_t]. *)
Fixpoint sum_chars (char_is_signed : bool) (data : bytes) (n : nat) (sum : Z) : Z :=
  match n, data with
  | S n', c :: rest =>
      sum_chars char_is_signed rest n' (size_t (sum + char_promote char_is_signed c))
  | _, _ => sum
  end.

Definition make_checksum_as (char_is_signed : bool) (data : bytes) (length : Z) : Z :=
  uint8_t (sum_chars char_is_signed data (Z.to_nat length) 0 mod 256).

Definition make_checksum : bytes -> Z -> Z := make_checksum_as true.

End Codec.

(** ** Outcomes of a call

    A call returns, or it leaves the function by a C++ exception or by
    undefined behaviour ([Fault]), or it does not return within the fuel that
    bounds the blocking waits and the unbounded loops ([Hang]). *)

Inductive fault : Type :=
| std_out_of_range      (* std::string::substr with pos > size() *)
| std_length_error      (* std::string(ptr, n) with n > max_size() *)
| std_invalid_argument  (* std::stol without a digit *)
| null_dereference      (* access through a null pointer *)
| past_the_end.         (* dereference of an end() iterator *)

Inductive outcome (A : Type) : Type :=
| Ok (a : A)
| Fault (f : fault)
| Hang.

Arguments Ok {A} a.
Arguments Fault {A} f.
Arguments Hang {A}.

Definition bind {A B : Type} (c : outcome A) (k : A -> outcome B) : outcome B :=
  match c with
  | Ok a => k a
  | Fault f => Fault f
  | Hang => Hang
  end.

Declare Scope outcome_scope.
Delimit Scope outcome_scope with outcome.
Notation "x <- c ;; k" := (bind c (fun x => k))
  (at level 61, c at next level, right associativity) : outcome_scope.
Notation "' p <- c ;; k" := (bind c (fun x => let 'p := x in k))
  (at level 61, p pattern, c at next level, right associativity) : outcome_scope.
Open Scope outcome_scope.

(** ** [std::string] *)

Module Str.

Definition size (s : bytes) : Z := Z.of_nat (List.length s).

Definition NUL : ascii := Ascii.zero.

(** [s[i]]: the character at [i], the terminating NUL at [i = size()]. *)
Definition at_ (s : bytes) (i : Z) : ascii := nth (Z.to_nat i) s NUL.

Fixpoint find_from (s : bytes) (ch : ascii) (i : Z) : Z :=
  match s with
  | [] => npos
  | c :: rest => if Ascii.eqb c ch then i else find_from rest ch (i + 1)
  end.

(** [s.find(ch, pos)] *)
Definition find (s : bytes) (ch : ascii) (pos : Z) : Z :=
  if pos <? size s then find_from (skipn (Z.to_nat pos) s) ch pos else npos.

(** [s.substr(pos, count)], both arguments of type [size_t]. *)
Definition substr (s : bytes) (pos count : Z) : outcome bytes :=
  if size s <? pos then Fault std_out_of_range
  else Ok (firstn (Z.to_nat (Z.min count (size s - pos))) (skipn (Z.to_nat pos) s)).

(** [strlen] *)
Fixpoint strlen (text : bytes) : Z :=
  match text with
  | [] => 0
  | c :: rest => if Ascii.eqb c NUL then 0 else 1 + strlen rest
  end.

Fixpoint starts_with (s small : bytes) : bool :=
  match small, s with
  | [], _ => true
  | c :: small', d :: s' => Ascii.eqb c d && starts_with s' small'
  | _ :: _, [] => false
  end.

End Str.

(** ** The packet framer *)

Module Packet.

(** [PacketCommand].  The pointers [content_start] and [checksum_start] are
    offsets into [data]; [None] is the null pointer. *)
Record PacketCommand : Type := {
  data : bytes;
  length : Z;
  begin_index : Z;
  end_index : Z;
  content_length : Z;
  content_start : option Z;
  checksum_start : option Z;
  checksum : Z;
  is_valid : bool
}.

(** The scan of [parse_command] for the last '#' among the first [n]
    characters. *)
Fixpoint scan_hash (data : bytes) (n : nat) (a : Z) (end_index : Z) : Z :=
  match n, data with
  | S n', c :: rest => scan_hash rest n' (a + 1) (if Ascii.eqb c "#" then a else end_index)
  | _, _ => end_index
  end.

Definition parse_command (data : bytes) (length : Z) : PacketCommand :=
  let begin_index := if 1 <? length then 1 else -1 in
  let end_index := scan_hash data (Z.to_nat length) 0 (-1) in
  let is_valid :=
    negb (begin_index =? -1) && negb (end_index =? -1)
    && (begin_index <? end_index) && (end_index + 2 <? length) in
  if negb is_valid then
    {| data := data; length := length; begin_index := begin_index;
       end_index := end_index; content_length := -1; content_start := None;
       checksum_start := None; checksum := 0; is_valid := false |}
  else
    let content_length := end_index - begin_index in
    let checksum :=
      uint8_t (Codec.parse_hex (firstn 2 (skipn (Z.to_nat (end_index + 1)) data))) in
    {| data := data; length := length; begin_index := begin_index;
       end_index := end_index; content_length := content_length;
       content_start := Some begin_index;
       checksum_start := Some (end_index + 1); checksum := checksum;
       is_valid :=
         Codec.make_checksum (skipn (Z.to_nat begin_index) data) content_length
         =? checksum |}.

(** [std::string(ptr, n)] with [n] converted to [unsigned long]: a negative
    [n] becomes a length above [max_size()]. *)
Definition string_of (data : bytes) (start : option Z) (n : Z) : outcome bytes :=
  match start with
  | None => Fault null_dereference
  | Some off =>
      if n <? 0 then Fault std_length_error
      else Ok (firstn (Z.to_nat n) (skipn (Z.to_nat off) data))
  end.

Definition content_string (command : PacketCommand) : outcome bytes :=
  string_of (data command) (content_start command) (content_length command).

(** What [server_reply(state, data, length)] sends:
    [fmt::format("${}#{:0>2x}", std::string(data, length), checksum)]. *)
Definition server_reply (data : bytes) (length : Z) : bytes :=
  ("$"%char :: firstn (Z.to_nat length) data)
    ++ "#"%char :: Codec.hex2 (Codec.make_checksum data length).

(** What [server_reply(state, text)] sends: the length is [strlen(text)]. *)
Definition server_reply_text (text : bytes) : bytes :=
  server_reply text (Str.strlen text).

(** What [server_ack(state, ack)] sends. *)
Definition server_ack (ack : ascii) : bytes := [ack].

End Packet.

(** ** The emulator state the stub works on *)

(** *** CPU (cpu/functions.h) *)

Inductive cpu_reg : Type :=
| GPR (n : Z)      (* read_reg / write_reg *)
| SP | LR | PC
| FLOAT (n : Z)    (* read_float_reg / write_float_reg, as the raw 32 bits *)
| FPSCR | CPSR.

Definition cpu_reg_eqb (a b : cpu_reg) : bool :=
  match a, b with
  | GPR n, GPR m => n =? m
  | FLOAT n, FLOAT m => n =? m
  | SP, SP | LR, LR | PC, PC | FPSCR, FPSCR | CPSR, CPSR => true
  | _, _ => false
  end.

Inductive cpu_access : Type :=
| Rd (r : cpu_reg)
| Wr (r : cpu_reg) (v : Z).

(** Modelled from the spec: the CPU view of a guest thread (registers r0-r12,
    sp, lr, pc, eight float registers, fpscr, cpsr, and the [hit_breakpoint]
    predicate); cpu/functions.h is not part of the sources.  [journal]
    records every access made through the register primitives, oldest
    first. *)
Record CPUState : Type := {
  reg_file : cpu_reg -> Z;
  hit_breakpoint : bool;
  journal : list cpu_access
}.

Definition cpu_read (r : cpu_reg) (cpu : CPUState) : Z * CPUState :=
  (reg_file cpu r,
   {| reg_file := reg_file cpu; hit_breakpoint := hit_breakpoint cpu;
      journal := journal cpu ++ [Rd r] |}).

Definition cpu_write (r : cpu_reg) (v : Z) (cpu : CPUState) : CPUState :=
  {| reg_file := fun r' => if cpu_reg_eqb r' r then v else reg_file cpu r';
     hit_breakpoint := hit_breakpoint cpu;
     journal := journal cpu ++ [Wr r v] |}.

(** *** Kernel threads (kernel/state.h) *)

Inductive ThreadStatus : Type := run | suspend | dormant.

Definition ThreadStatus_eqb (a b : ThreadStatus) : bool :=
  match a, b with
  | run, run | suspend, suspend | dormant, dormant => true
  | _, _ => false
  end.

(** Modelled from the spec: a guest thread has a status and a CPU view;
    [to_do] stands for whatever else [resume] and [suspend] leave in the
    thread object for the guest side to act on. *)
Record ThreadState : Type := {
  status : ThreadStatus;
  cpu : CPUState;
  to_do : Z
}.

Definition SceUID := Z.

(** Modelled from the spec: the thread table, keyed by thread id, in its
    iteration order (keys are unique); the debugger keeps the installed
    breakpoints as pairs of an address and the Thumb flag. *)
Record KernelState : Type := {
  threads : list (SceUID * ThreadState);
  debugger : list (Z * bool)
}.

(** *** Guest memory (mem/state.h, mem/ptr.h) *)

(** Modelled from the spec: validity is per page ([page_valid] on page
    numbers).  Host memory is [host], indexed by the offset from
    [mem.memory]; [page_table] gives the host offset of each 4 KiB page. *)
Record MemState : Type := {
  page_size : Z;
  page_valid : Z -> bool;
  use_page_table : bool;
  page_table : Z -> Z;
  host : Z -> Z;
  elf_base : Z
}.

(** *** The stub's own state (gdbstub/state.h) *)

Record GDBState : Type := {
  server_die : bool;
  last_reply : bytes;
  current_thread : SceUID;
  inferior_thread : SceUID;
  thread_info_index : Z;
  recv_buffer : bytes          (* the static buffer of [server_next] *)
}.

Record EmuEnvState : Type := {
  gdb : GDBState;
  kernel : KernelState;
  mem : MemState
}.

Definition with_gdb (st : EmuEnvState) (g : GDBState) : EmuEnvState :=
  {| gdb := g; kernel := kernel st; mem := mem st |}.

Definition with_kernel (st : EmuEnvState) (k : KernelState) : EmuEnvState :=
  {| gdb := gdb st; kernel := k; mem := mem st |}.

Definition with_mem (st : EmuEnvState) (m : MemState) : EmuEnvState :=
  {| gdb := gdb st; kernel := kernel st; mem := m |}.

Definition set_server_die (g : GDBState) (b : bool) : GDBState :=
  {| server_die := b; last_reply := last_reply g;
     current_thread := current_thread g; inferior_thread := inferior_thread g;
     thread_info_index := thread_info_index g; recv_buffer := recv_buffer g |}.

Definition set_last_reply (g : GDBState) (r : bytes) : GDBState :=
  {| server_die := server_die g; last_reply := r;
     current_thread := current_thread g; inferior_thread := inferior_thread g;
     thread_info_index := thread_info_index g; recv_buffer := recv_buffer g |}.

Definition set_current_thread (g : GDBState) (t : SceUID) : GDBState :=
  {| server_die := server_die g; last_reply := last_reply g;
     current_thread := t; inferior_thread := inferior_thread g;
     thread_info_index := thread_info_index g; recv_buffer := recv_buffer g |}.

Definition set_inferior_thread (g : GDBState) (t : SceUID) : GDBState :=
  {| server_die := server_die g; last_reply := last_reply g;
     current_thread := current_thread g; inferior_thread := t;
     thread_info_index := thread_info_index g; recv_buffer := recv_buffer g |}.

Definition set_thread_info_index (g : GDBState) (i : Z) : GDBState :=
  {| server_die := server_die g; last_reply := last_reply g;
     current_thread := current_thread g; inferior_thread := inferior_thread g;
     thread_info_index := i; recv_buffer := recv_buffer g |}.

Definition set_recv_buffer (g : GDBState) (b : bytes) : GDBState :=
  {| server_die := server_die g; last_reply := last_reply g;
     current_thread := current_thread g; inferior_thread := inferior_thread g;
     thread_info_index := thread_info_index g; recv_buffer := b |}.

(** *** The thread table as a [std::map] *)

Module ThreadMap.

Definition keys (m : list (SceUID * ThreadState)) : list SceUID := map fst m.

Fixpoint get (m : list (SceUID * ThreadState)) (id : SceUID) : option ThreadState :=
  match m with
  | [] => None
  | (k, t) :: rest => if k =? id then Some t else get rest id
  end.

Definition contains (m : list (SceUID * ThreadState)) (id : SceUID) : bool :=
  match get m id with Some _ => true | None => false end.

Fixpoint put (m : list (SceUID * ThreadState)) (id : SceUID) (t : ThreadState)
  : list (SceUID * ThreadState) :=
  match m with
  | [] => []
  | (k, t0) :: rest => if k =? id then (k, t) :: rest else (k, t0) :: put rest id t
  end.

Definition size (m : list (SceUID * ThreadState)) : Z := Z.of_nat (List.length m).

(** [m.begin()->first] *)
Definition first_key (m : list (SceUID * ThreadState)) : outcome SceUID :=
  match m with
  | [] => Fault past_the_end
  | (k, _) :: _ => Ok k
  end.

(** [std::advance(iter, n); iter->first] from [m.begin()]. *)
Definition key_at (m : list (SceUID * ThreadState)) (n : Z) : outcome SceUID :=
  if n <? 0 then Fault past_the_end
  else match nth_error m (Z.to_nat n) with
       | Some (k, _) => Ok k
       | None => Fault past_the_end
       end.

(** [*m[id]]: the thread object behind the pointer [operator[]] gives; for an
    absent key the pointer is null. *)
Definition deref (m : list (SceUID * ThreadState)) (id : SceUID) : outcome ThreadState :=
  match get m id with
  | Some t => Ok t
  | None => Fault null_dereference
  end.

End ThreadMap.

Definition set_threads (k : KernelState) (m : list (SceUID * ThreadState)) : KernelState :=
  {| threads := m; debugger := debugger k |}.

Definition set_cpu (t : ThreadState) (c : CPUState) : ThreadState :=
  {| status := status t; cpu := c; to_do := to_do t |}.

(** Writes the thread object [t] back under [id]. *)
Definition store_thread (st : EmuEnvState) (id : SceUID) (t : ThreadState) : EmuEnvState :=
  with_kernel st (set_threads (kernel st) (ThreadMap.put (threads (kernel st)) id t)).

(** *** What the stub takes from the rest of the emulator

    The functions below are declared in headers that are not part of the
    sources (mem/functions.h, kernel/thread/thread_state.h); the stub is
    modelled over any implementation of them.  [guest_run] is one quantum of
    what the guest threads and the emulator do while the server thread waits
    or sleeps: it returns the new kernel state and whether the emulator has
    asked the server to shut down during that quantum. *)
Record Collaborators : Type := {
  is_valid_guest_addr_range : MemState -> Z -> Z -> bool;
  is_valid_guest_addr : MemState -> Z -> bool;
  thread_resume : bool -> ThreadState -> ThreadState;
  thread_suspend : ThreadState -> ThreadState;
  guest_run : KernelState -> KernelState * bool
}.

(** ** Memory access *)

(** Modelled from the spec: [is_valid_addr] (mem/functions.h) tells whether
    the page of an address is valid. *)
Definition is_valid_addr (m : MemState) (addr : Z) : bool :=
  page_valid m (addr / page_size m).

(** [Ptr<uint8_t>(addr).get(mem)]: a host location, [None] for [nullptr]. *)
Definition Ptr_get (m : MemState) (addr : Z) : option Z :=
  if addr =? 0 then None
  else if use_page_table m then Some (page_table m (addr / 4096) + addr mod 4096)
  else Some addr.

(** [Ptr<uint8_t>(addr).get_guest(mem)] *)
Definition Ptr_get_guest (m : MemState) (addr : Z) : option Z :=
  if addr =? 0 then None
  else
    let relative_host_addr := uint32_t (addr - elf_base m) in
    if negb (is_valid_addr m relative_host_addr) then None
    else Some relative_host_addr.

Definition host_store (m : MemState) (p : Z) (v : Z) : MemState :=
  {| page_size := page_size m; page_valid := page_valid m;
     use_page_table := use_page_table m; page_table := page_table m;
     host := fun q => if q =? p then v else host m q;
     elf_base := elf_base m |}.

(** ** [std::stol] *)

Definition stol (s : bytes) : outcome Z :=
  let (negative, s1) := Codec.strip_sign (Codec.skip_space s) in
  let has_digit :=
    match s1 with
    | c :: _ => match Codec.digit_of c with Some d => d <? 10 | None => false end
    | [] => false
    end in
  if negb has_digit then Fault std_invalid_argument
  else
    let (v, overflow) := Codec.accumulate 10 s1 0 false in
    if overflow || (2 ^ 63 - (if negative then 0 else 1) <? v) then Fault std_out_of_range
    else Ok (if negative then - v else v).

(** ** The packet handlers *)

Section Handlers.

Variable C : Collaborators.

Definition reply := (bytes * EmuEnvState)%type.

Definition PacketFunction := nat -> EmuEnvState -> Packet.PacketCommand -> outcome reply.

Definition cmd_supported : PacketFunction := fun _ state _ =>
  Ok (lit "multiprocess-;swbreak+;hwbreak-;qRelocInsn-;fork-events-;vfork-events-;exec-events-;vContSupported+;QThreadEvents-;no-resumed-;xmlRegisters=arm",
      state).

Definition cmd_reply_empty : PacketFunction := fun _ state _ => Ok ([], state).

Definition select_thread (state : EmuEnvState) (thread_id : Z) : outcome SceUID :=
  if thread_id =? 0 then
    match threads (kernel state) with
    | [] => Ok (-1)
    | _ => ThreadMap.first_key (threads (kernel state))
    end
  else Ok thread_id.

Definition cmd_set_current_thread : PacketFunction := fun _ state command =>
  text <- Packet.string_of (Packet.data command)
            (option_map (fun p => p + 2) (Packet.content_start command))
            (Packet.content_length command - 2) ;;
  let thread_id := int32_t (Codec.parse_hex text) in
  op <- match Packet.content_start command with
        | Some p => Ok (Str.at_ (Packet.data command) (p + 1))
        | None => Fault null_dereference
        end ;;
  if Ascii.eqb op "c" then Ok (lit "OK", state)
  else if Ascii.eqb op "g" then
    t <- select_thread state thread_id ;;
    Ok (lit "OK", with_gdb state (set_current_thread (gdb state) t))
  else Ok (lit "OK", state).

Definition cmd_get_current_thread : PacketFunction := fun _ state _ =>
  Ok (lit "QC" ++ Codec.to_hex_uid (current_thread (gdb state)), state).

Definition fetch_reg (state : CPUState) (reg : Z) : Z * CPUState :=
  if reg <=? 12 then cpu_read (GPR reg) state
  else if reg =? 13 then cpu_read SP state
  else if reg =? 14 then cpu_read LR state
  else if reg =? 15 then cpu_read PC state
  else if reg <=? 23 then cpu_read (FLOAT (reg - 16)) state
  else if reg =? 24 then cpu_read FPSCR state
  else if reg =? 25 then cpu_read CPSR state
  else (0, state).

Definition modify_reg (state : CPUState) (reg : Z) (value : Z) : CPUState :=
  if reg <=? 12 then cpu_write (GPR reg) value state
  else if reg =? 13 then cpu_write SP value state
  else if reg =? 14 then cpu_write LR value state
  else if reg =? 15 then cpu_write PC value state
  else if reg <=? 23 then cpu_write (FLOAT (reg - 16)) value state
  else if reg =? 24 then cpu_write FPSCR value state
  else if reg =? 25 then cpu_write CPSR value state
  else state.

(** The guard shared by the register handlers. *)
Definition no_current_thread (state : EmuEnvState) : bool :=
  (current_thread (gdb state) =? -1)
  || negb (ThreadMap.contains (threads (kernel state)) (current_thread (gdb state))).

(** The loop [for (a = 0; a < 16; a++) str += be_hex(fetch_reg(cpu, a))],
    [n] iterations from [a] on. *)
Fixpoint read_registers_loop (n : nat) (a : Z) (cpu : CPUState) (str : bytes)
  : bytes * CPUState :=
  match n with
  | O => (str, cpu)
  | S n' =>
      let (v, cpu') := fetch_reg cpu a in
      read_registers_loop n' (a + 1) cpu' (str ++ Codec.be_hex v)
  end.

Definition cmd_read_registers : PacketFunction := fun _ state _ =>
  if no_current_thread state then Ok (lit "E00", state)
  else
    thread <- ThreadMap.deref (threads (kernel state)) (current_thread (gdb state)) ;;
    let (str, cpu') := read_registers_loop 16 0 (cpu thread) [] in
    Ok (str, store_thread state (current_thread (gdb state)) (set_cpu thread cpu')).

Fixpoint write_registers_loop (n : nat) (a : Z) (content : bytes) (cpu : CPUState)
  : outcome CPUState :=
  match n with
  | O => Ok cpu
  | S n' =>
      text <- Str.substr content (uint32_t (a * 8)) 8 ;;
      write_registers_loop n' (a + 1) content (modify_reg cpu a (Codec.parse_hex text))
  end.

Definition cmd_write_registers : PacketFunction := fun _ state command =>
  if no_current_thread state then Ok (lit "E00", state)
  else
    thread <- ThreadMap.deref (threads (kernel state)) (current_thread (gdb state)) ;;
    whole <- Packet.content_string command ;;
    content <- Str.substr whole 1 npos ;;
    cpu' <- write_registers_loop (Z.to_nat (Str.size content / 8)) 0 content
              (cpu thread) ;;
    Ok (lit "OK", store_thread state (current_thread (gdb state)) (set_cpu thread cpu')).

Definition cmd_read_register : PacketFunction := fun _ state command =>
  if no_current_thread state then Ok (lit "E00", state)
  else
    thread <- ThreadMap.deref (threads (kernel state)) (current_thread (gdb state)) ;;
    content <- Packet.content_string command ;;
    text <- Str.substr content 1 (size_t (Str.size content - 1)) ;;
    let (v, cpu') := fetch_reg (cpu thread) (Codec.parse_hex text) in
    Ok (Codec.be_hex v,
        store_thread state (current_thread (gdb state)) (set_cpu thread cpu')).

Definition cmd_write_register : PacketFunction := fun _ state command =>
  if no_current_thread state then Ok (lit "E00", state)
  else
    thread <- ThreadMap.deref (threads (kernel state)) (current_thread (gdb state)) ;;
    content <- Packet.content_string command ;;
    let equal_index := Str.find content "=" 0 in
    reg_text <- Str.substr content 1 (size_t (equal_index - 1)) ;;
    value_text <- Str.substr content (size_t (equal_index + 1)) npos ;;
    let cpu' := modify_reg (cpu thread) (Codec.parse_hex reg_text) (Codec.parse_hex value_text) in
    Ok (lit "OK", store_thread state (current_thread (gdb state)) (set_cpu thread cpu')).

(** The loop of [check_memory_region]; [it] is an [Address] (32 bits). *)
Fixpoint check_memory_loop (fuel : nat) (m : MemState) (it end_ : Z) : outcome bool :=
  match fuel with
  | O => Hang
  | S fuel' =>
      if it <? end_ then
        if negb (is_valid_addr m it) then Ok false
        else check_memory_loop fuel' m (uint32_t (it + page_size m)) end_
      else Ok true
  end.

Definition check_memory_region (fuel : nat) (address len : Z) (m : MemState) : outcome bool :=
  if address =? 0 then Ok false
  else check_memory_loop fuel m address (uint32_t (address + len)).

(** The loop [for (a = 0; a < length; a++)] of [cmd_read_memory], [n]
    iterations from [a] on. *)
Fixpoint read_memory_loop (n : nat) (m : MemState) (address a : Z) (str : bytes)
  : outcome bytes :=
  match n with
  | O => Ok str
  | S n' =>
      match Ptr_get m (uint32_t (address + a)) with
      | None => Fault null_dereference
      | Some p => read_memory_loop n' m address (a + 1) (str ++ Codec.hex2 (uint8_t (host m p)))
      end
  end.

Definition cmd_read_memory : PacketFunction := fun fuel state command =>
  content <- Packet.content_string command ;;
  let pos := Str.find content "," 0 in
  first <- Str.substr content 1 (size_t (pos - 1)) ;;
  second <- Str.substr content (size_t (pos + 1)) npos ;;
  let address := Codec.parse_hex first in
  let len := Codec.parse_hex second in
  let guest_end := uint32_t (address + len) in
  if negb (is_valid_guest_addr_range C (mem state) address guest_end) then
    Ok (lit "EAA", state)
  else
    valid <- check_memory_region fuel address len (mem state) ;;
    if negb valid then Ok (lit "EAA", state)
    else
      str <- read_memory_loop (Z.to_nat len) (mem state) address 0 [] ;;
      Ok (str, state).

Fixpoint write_memory_loop (n : nat) (m : MemState) (address a : Z) (hex_data : bytes)
  : outcome MemState :=
  match n with
  | O => Ok m
  | S n' =>
      text <- Str.substr hex_data (uint32_t (a * 2)) 2 ;;
      match Ptr_get_guest m (uint32_t (address + a)) with
      | None => Fault null_dereference
      | Some p =>
          write_memory_loop n' (host_store m p (uint8_t (Codec.parse_hex text)))
            address (a + 1) hex_data
      end
  end.

Definition cmd_write_memory : PacketFunction := fun fuel state command =>
  content <- Packet.content_string command ;;
  let pos_first := Str.find content "," 0 in
  let pos_second := Str.find content ":" 0 in
  first <- Str.substr content 1 (size_t (pos_first - 1)) ;;
  second <- Str.substr content (size_t (pos_first + 1)) (size_t (pos_second - pos_first)) ;;
  let address := Codec.parse_hex first in
  let len := Codec.parse_hex second in
  hex_data <- Str.substr content (size_t (pos_second + 1)) npos ;;
  valid <- check_memory_region fuel address len (mem state) ;;
  if negb valid then Ok (lit "EAA", state)
  else
    m' <- write_memory_loop (Z.to_nat len) (mem state) address 0 hex_data ;;
    Ok (lit "OK", with_mem state m').

Definition cmd_detach : PacketFunction := fun _ state _ => Ok (lit "OK", state).

(** *** The execution controller *)

(** One quantum of the rest of the emulator, seen from the server thread:
    the kernel state moves on and [server_die] may be raised. *)
Definition env_quantum (state : EmuEnvState) : EmuEnvState :=
  let (k, die) := guest_run C (kernel state) in
  {| gdb := set_server_die (gdb state) (server_die (gdb state) || die);
     kernel := k; mem := mem state |}.

(** [status_cond.wait(lock, pred)]: returns at once when [pred] holds,
    otherwise lets the rest of the emulator run and looks again. *)
Fixpoint cond_wait (fuel : nat) (pred : EmuEnvState -> bool) (state : EmuEnvState)
  : outcome EmuEnvState :=
  if pred state then Ok state
  else match fuel with
       | O => Hang
       | S fuel' => cond_wait fuel' pred (env_quantum state)
       end.

(** The predicates of the waits read [thread->status] of the thread [id]. *)
Definition status_of (state : EmuEnvState) (id : SceUID) : option ThreadStatus :=
  option_map status (ThreadMap.get (threads (kernel state)) id).

Definition status_in (id : SceUID) (allowed : ThreadStatus -> bool) (state : EmuEnvState)
  : bool :=
  match status_of state id with
  | Some s => allowed s
  | None => false
  end.

Definition is_suspend (s : ThreadStatus) : bool := ThreadStatus_eqb s suspend.
Definition not_suspend (s : ThreadStatus) : bool := negb (ThreadStatus_eqb s suspend).
Definition suspend_or_dormant (s : ThreadStatus) : bool :=
  ThreadStatus_eqb s suspend || ThreadStatus_eqb s dormant.

(** "resume the world": the loop over the thread table, here over the keys
    it had when the loop started; a thread that has left the table by its
    turn is a dangling reference.  [thread->resume()] is [resume(false)]. *)
Fixpoint resume_world (fuel : nat) (ids : list SceUID) (state : EmuEnvState)
  : outcome EmuEnvState :=
  match ids with
  | [] => Ok state
  | id :: ids' =>
      thread <- ThreadMap.deref (threads (kernel state)) id ;;
      if ThreadStatus_eqb (status thread) suspend then
        state' <- cond_wait fuel (status_in id not_suspend)
                    (store_thread state id (thread_resume C false thread)) ;;
        resume_world fuel ids' state'
      else resume_world fuel ids' state
  end.

(** The scan of "wait until some threads trigger breakpoint". *)
Fixpoint find_break (m : list (SceUID * ThreadState)) : option SceUID :=
  match m with
  | [] => None
  | (id, thread) :: rest =>
      if ThreadStatus_eqb (status thread) suspend && hit_breakpoint (cpu thread)
      then Some id else find_break rest
  end.

(** The loop [while (!did_break)].  The flag of the result tells whether a
    thread broke ([true]) or the loop was left by the return of the
    empty reply on [server_die] ([false]). *)
Fixpoint wait_break (fuel : nat) (state : EmuEnvState) : outcome (bool * EmuEnvState) :=
  if server_die (gdb state) then Ok (false, state)
  else
    match find_break (threads (kernel state)) with
    | Some id =>
        Ok (true, env_quantum (with_gdb state (set_inferior_thread (gdb state) id)))
    | None =>
        match fuel with
        | O => Hang
        | S fuel' => wait_break fuel' (env_quantum state)
        end
    end.

(** "stop the world" *)
Fixpoint stop_world (fuel : nat) (ids : list SceUID) (state : EmuEnvState)
  : outcome EmuEnvState :=
  match ids with
  | [] => Ok state
  | id :: ids' =>
      thread <- ThreadMap.deref (threads (kernel state)) id ;;
      if ThreadStatus_eqb (status thread) run then
        state' <- cond_wait fuel (status_in id suspend_or_dormant)
                    (store_thread state id (thread_suspend C thread)) ;;
        stop_world fuel ids' state'
      else stop_world fuel ids' state
  end.

(** The log lines after a break read pc and lr of the inferior thread. *)
Definition log_break (state : EmuEnvState) : outcome EmuEnvState :=
  thread <- ThreadMap.deref (threads (kernel state)) (inferior_thread (gdb state)) ;;
  let (_, cpu1) := cpu_read PC (cpu thread) in
  let (_, cpu2) := cpu_read LR cpu1 in
  Ok (store_thread state (inferior_thread (gdb state)) (set_cpu thread cpu2)).

Definition is_step (cmd : ascii) : bool := Ascii.eqb cmd "s" || Ascii.eqb cmd "S".

Definition is_vcont_action (cmd : ascii) : bool :=
  Ascii.eqb cmd "c" || Ascii.eqb cmd "C" || Ascii.eqb cmd "s" || Ascii.eqb cmd "S".

(** The body of [case 'c': case 'C': case 's': case 'S':]. *)
Definition vcont_action (fuel : nat) (state : EmuEnvState) (cmd : ascii) : outcome reply :=
  let step := is_step cmd in
  state1 <-
    (if inferior_thread (gdb state) =? 0 then Ok state
     else
       thread <- ThreadMap.deref (threads (kernel state)) (inferior_thread (gdb state)) ;;
       let state' :=
         store_thread state (inferior_thread (gdb state)) (thread_resume C step thread) in
       if step then cond_wait fuel (status_in (inferior_thread (gdb state)) is_suspend) state'
       else Ok state') ;;
  if step then
    Ok (lit "S05",
        with_gdb state1 (set_current_thread (gdb state1) (inferior_thread (gdb state1))))
  else
    state2 <- resume_world fuel (ThreadMap.keys (threads (kernel state1))) state1 ;;
'(did_break, state3) <- wait_break fuel state2 ;;
    if negb did_break then Ok ([], state3)
    else
      state4 <- log_break state3 ;;
      state5 <- stop_world fuel (ThreadMap.keys (threads (kernel state4))) state4 ;;
      Ok (lit "S05",
          with_gdb state5 (set_current_thread (gdb state5) (inferior_thread (gdb state5)))).

(** The [do ... while (next != npos)] loop of [cmd_continue]; [gas] bounds
    the number of iterations, which the length of [content] does. *)
Fixpoint vcont_loop (gas : nat) (fuel : nat) (state : EmuEnvState) (content : bytes)
  (index : Z) : outcome reply :=
  match gas with
  | O => Hang
  | S gas' =>
      let next := Str.find content ";" (size_t (index + 1)) in
      text <- Str.substr content (size_t (index + 1)) (size_t (next - index - 1)) ;;
      let cmd := Str.at_ text 0 in
      if is_vcont_action cmd then vcont_action fuel state cmd
      else if next =? npos then Ok ([], state)
      else vcont_loop gas' fuel state content next
  end.

Definition cmd_continue : PacketFunction := fun fuel state command =>
  content <- Packet.content_string command ;;
  vcont_loop (S (List.length content)) fuel state content 5.

Definition cmd_continue_supported : PacketFunction := fun _ state _ =>
  Ok (lit "vCont;c;C;s;S;t;r", state).

Definition cmd_thread_alive : PacketFunction := fun _ state command =>
  content <- Packet.content_string command ;;
  text <- Str.substr content 1 npos ;;
  let thread_id := int32_t (Codec.parse_hex text) in
  if ThreadMap.contains (threads (kernel state)) thread_id then Ok (lit "OK", state)
  else Ok (lit "E00", state).

Definition cmd_kill : PacketFunction := fun _ state _ => Ok (lit "OK", state).

Definition cmd_die : PacketFunction := fun _ state _ =>
  Ok ([], with_gdb state (set_server_die (gdb state) true)).

Definition cmd_attached : PacketFunction := fun _ state _ => Ok (lit "1", state).

Definition cmd_thread_status : PacketFunction := fun _ state _ => Ok (lit "T0", state).

Definition cmd_reason : PacketFunction := fun _ state _ => Ok (lit "S05", state).

Definition cmd_get_first_thread : PacketFunction := fun _ state _ =>
  let state' := with_gdb state (set_thread_info_index (gdb state) 0) in
  first <- ThreadMap.first_key (threads (kernel state')) ;;
  Ok ("m"%char :: Codec.to_hex_uid first, state').

Definition cmd_get_next_thread : PacketFunction := fun _ state _ =>
  let index := thread_info_index (gdb state) + 1 in
  let state' := with_gdb state (set_thread_info_index (gdb state) index) in
  if index =? ThreadMap.size (threads (kernel state')) then Ok (lit "l", state')
  else
    key <- ThreadMap.key_at (threads (kernel state')) index ;;
    Ok ("m"%char :: Codec.to_hex_uid key, state').

(** Modelled from the spec: [debugger.add_breakpoint] and
    [debugger.remove_breakpoint] (kernel/debugger.h) install and remove a
    breakpoint at an address; only the set of installed breakpoints is
    kept. *)
Definition add_breakpoint (k : KernelState) (address : Z) (thumb : bool) : KernelState :=
  {| threads := threads k; debugger := debugger k ++ [(address, thumb)] |}.

Definition remove_breakpoint (k : KernelState) (address : Z) : KernelState :=
  {| threads := threads k;
     debugger := filter (fun b => negb (fst b =? address)) (debugger k) |}.

(** The three fields [type,addr,kind] of a [Z] or [z] packet. *)
Definition breakpoint_fields (content : bytes) : outcome (Z * Z * Z) :=
  let first := Str.find content "," 0 in
  let second := Str.find content "," (size_t (first + 1)) in
  type_text <- Str.substr content 1 (size_t (first - 1)) ;;
  type <- stol type_text ;;
  address_text <- Str.substr content (size_t (first + 1)) (size_t (second - 1 - first)) ;;
  let address := Codec.parse_hex address_text in
  kind_text <- Str.substr content (size_t (second + 1))
                 (size_t (Str.size content - second - 1)) ;;
  kind <- stol kind_text ;;
  Ok (uint32_t type, address, uint32_t kind).

Definition cmd_add_breakpoint : PacketFunction := fun _ state command =>
  content <- Packet.content_string command ;;
  '(_, address, kind) <- breakpoint_fields content ;;
  if negb (is_valid_guest_addr C (mem state) address) then Ok (lit "EAA", state)
  else Ok (lit "OK", with_kernel state (add_breakpoint (kernel state) address (kind =? 2))).

Definition cmd_remove_breakpoint : PacketFunction := fun _ state command =>
  content <- Packet.content_string command ;;
  '(_, address, _) <- breakpoint_fields content ;;
  if negb (is_valid_guest_addr C (mem state) address) then Ok (lit "EAA", state)
  else Ok (lit "OK", with_kernel state (remove_breakpoint (kernel state) address)).

Definition cmd_deprecated : PacketFunction := fun _ state _ => Ok ([], state).

Definition cmd_unimplemented : PacketFunction := fun _ state _ => Ok ([], state).

Record PacketFunctionBundle : Type := {
  name : bytes;
  function : PacketFunction
}.

Definition bundle (n : string) (f : PacketFunction) : PacketFunctionBundle :=
  {| name := lit n; function := f |}.

Definition functions : list PacketFunctionBundle := [
  (* General *)
  bundle "!" cmd_unimplemented;
  bundle "?" cmd_reason;
  bundle "H" cmd_set_current_thread;
  bundle "T" cmd_thread_alive;
  bundle "i" cmd_unimplemented;
  bundle "I" cmd_unimplemented;
  bundle "A" cmd_unimplemented;
  bundle "bc" cmd_unimplemented;
  bundle "bs" cmd_unimplemented;
  bundle "t" cmd_unimplemented;
  (* Read/Write *)
  bundle "p" cmd_read_register;
  bundle "P" cmd_write_register;
  bundle "g" cmd_read_registers;
  bundle "G" cmd_write_registers;
  bundle "m" cmd_read_memory;
  bundle "M" cmd_write_memory;
  bundle "X" cmd_unimplemented;
  (* Query Packets *)
  bundle "qfThreadInfo" cmd_get_first_thread;
  bundle "qsThreadInfo" cmd_get_next_thread;
  bundle "qSupported" cmd_supported;
  bundle "qAttached" cmd_attached;
  bundle "qTStatus" cmd_thread_status;
  bundle "qC" cmd_get_current_thread;
  bundle "q" cmd_unimplemented;
  bundle "Q" cmd_unimplemented;
  (* Shutdown *)
  bundle "d" cmd_unimplemented;
  bundle "r" cmd_unimplemented;
  bundle "R" cmd_unimplemented;
  bundle "k" cmd_die;
  (* Control Packets *)
  bundle "vCont?" cmd_continue_supported;
  bundle "vCont" cmd_continue;
  bundle "vKill" cmd_kill;
  bundle "vMustReplyEmpty" cmd_reply_empty;
  bundle "v" cmd_unimplemented;
  (* Breakpoints *)
  bundle "z" cmd_remove_breakpoint;
  bundle "Z" cmd_add_breakpoint;
  (* Deprecated *)
  bundle "b" cmd_deprecated;
  bundle "B" cmd_deprecated;
  bundle "c" cmd_deprecated;
  bundle "C" cmd_deprecated;
  bundle "s" cmd_deprecated;
  bundle "S" cmd_deprecated
].

(** ** The session *)

(** What the server sends on the client socket: one element per [send]. *)
Definition transcript := list bytes.

Definition emit {A : Type} (packet : bytes) (r : transcript * outcome A)
  : transcript * outcome A :=
  (packet :: fst r, snd r).

Definition emits {A : Type} (packets : transcript) (r : transcript * outcome A)
  : transcript * outcome A :=
  (packets ++ fst r, snd r).

Definition command_begins_with (command : Packet.PacketCommand) (small_str : bytes) : bool :=
  if size_t (Packet.content_length command) <? Str.size small_str then false
  else
    match Packet.content_start command with
    | Some p => Str.starts_with (skipn (Z.to_nat p) (Packet.data command)) small_str
    | None => false
    end.

(** The loop [for (const auto &function : functions)] of [server_next] and
    the [if (!found_command)] after it. *)
Fixpoint dispatch (fs : list PacketFunctionBundle) (fuel : nat) (state : EmuEnvState)
  (command : Packet.PacketCommand) : transcript * outcome EmuEnvState :=
  match fs with
  | [] =>
      ([Packet.server_reply_text []], Ok (with_gdb state (set_last_reply (gdb state) [])))
  | f :: rest =>
      if command_begins_with command (name f) then
        match function f fuel state command with
        | Ok (r, state') =>
            let state'' := with_gdb state' (set_last_reply (gdb state') r) in
            if server_die (gdb state'') then ([], Ok state'')
            else ([Packet.server_reply_text r], Ok state'')
        | Fault e => ([], Fault e)
        | Hang => ([], Hang)
        end
      else dispatch rest fuel state command
  end.

(** The search for the '#' that ends the packet:
    [for (i = pos + 1; i + 2 < recv_buffer.size(); i++)]. *)
Fixpoint find_hash_from (s : bytes) (i size : Z) : option Z :=
  match s with
  | [] => None
  | c :: rest =>
      if i + 2 <? size then
        if Ascii.eqb c "#" then Some i else find_hash_from rest (i + 1) size
      else None
  end.

Definition find_hash (recv_buffer : bytes) (pos : Z) : option Z :=
  find_hash_from (skipn (Z.to_nat (pos + 1)) recv_buffer) (pos + 1) (Str.size recv_buffer).

(** The loop [while (pos < recv_buffer.size())] of [server_next]; every
    iteration moves [pos] forward, so [gas] beyond the size of the buffer is
    never used up. *)
Fixpoint server_loop (gas : nat) (fuel : nat) (state : EmuEnvState) (recv_buffer : bytes)
  (pos : Z) : transcript * outcome (EmuEnvState * Z) :=
  match gas with
  | O => ([], Hang)
  | S gas' =>
      if pos <? Str.size recv_buffer then
        let c := Str.at_ recv_buffer pos in
        if Ascii.eqb c "+" then server_loop gas' fuel state recv_buffer (pos + 1)
        else if Ascii.eqb c "-" then
          emit (Packet.server_reply_text (last_reply (gdb state)))
            (server_loop gas' fuel state recv_buffer (pos + 1))
        else if Ascii.eqb c "$" then
          match find_hash recv_buffer pos with
          | None => ([], Ok (state, pos))
          | Some hash_index =>
              if Str.size recv_buffer <=? hash_index + 2 then ([], Ok (state, pos))
              else
                emit (Packet.server_ack "+")
                  (let packet_len := (hash_index + 3) - pos in
                   let command :=
                     Packet.parse_command (skipn (Z.to_nat pos) recv_buffer) packet_len in
                   if Packet.is_valid command then
                     match dispatch functions fuel state command with
                     | (sent, Ok state') =>
                         emits sent
                           (server_loop gas' fuel state' recv_buffer (pos + packet_len))
                     | (sent, Fault e) => (sent, Fault e)
                     | (sent, Hang) => (sent, Hang)
                     end
                   else
                     emit (Packet.server_ack "-")
                       (server_loop gas' fuel state recv_buffer (pos + packet_len)))
          end
        else server_loop gas' fuel state recv_buffer (pos + 1)
      else ([], Ok (state, pos))
  end.

(** [server_next], from the return of [select] on: [length] and [temp] are
    what [recv] gives.  The result is the value returned. *)
Definition server_next (fuel : nat) (state : EmuEnvState) (len : Z) (temp : bytes)
  : transcript * outcome (Z * EmuEnvState) :=
  if server_die (gdb state) then ([], Ok (-1, state))
  else if len <=? 0 then ([], Ok (-1, state))
  else
    let buffer := recv_buffer (gdb state) ++ firstn (Z.to_nat len) temp in
    match server_loop (S (List.length buffer)) fuel state buffer 0 with
    | (sent, Ok (state', pos)) =>
        (sent,
         Ok (len, with_gdb state'
                    (set_recv_buffer (gdb state') (skipn (Z.to_nat pos) buffer))))
    | (sent, Fault e) => (sent, Fault e)
    | (sent, Hang) => (sent, Hang)
    end.

(** [server_close]: the sockets are closed and [server_die] is set. *)
Definition server_close (state : EmuEnvState) : EmuEnvState :=
  with_gdb state (set_server_die (gdb state) true).

(** The loop of [server_listen] over what [recv] gives on successive calls;
    after the last chunk the peer has closed the connection. *)
Fixpoint server_listen (fuel : nat) (state : EmuEnvState) (inputs : list bytes)
  : transcript * outcome EmuEnvState :=
  match inputs with
  | [] => ([], Ok (server_close state))
  | temp :: rest =>
      match server_next fuel state (Str.size temp) temp with
      | (sent, Ok (status, state')) =>
          if (0 <=? status) && negb (server_die (gdb state')) then
            emits sent (server_listen fuel state' rest)
          else (sent, Ok (server_close state'))
      | (sent, Fault e) => (sent, Fault e)
      | (sent, Hang) => (sent, Hang)
      end
  end.

End Handlers.

(** ** Reference notions of the specification *)

(** The sum of the bytes of a string, each taken as an unsigned value. *)
Fixpoint byte_sum (b : bytes) : Z :=
  match b with
  | [] => 0
  | c :: rest => uchar c + byte_sum rest
  end.

(** A character that [fmt] writes for a hexadecimal digit. *)
Definition hexchar (c : ascii) : Prop := exists d, 0 <= d < 16 /\ c = Codec.hex_digit d.

(** The frame [$ body #CC] a client puts on the wire for the body [b]. *)
Definition wire_frame (b : bytes) : bytes :=
  "$"%char :: b ++ "#"%char :: Codec.hex2 (Codec.make_checksum b (Str.size b)).

(** The string [b] does not contain the character [ch]. *)
Definition no_char (ch : ascii) (b : bytes) : Prop := Forall (fun c => Ascii.eqb c ch = false) b.


(** The reply that reports the thread id [tid] in a thread-info page. *)
Definition thread_page (tid : SceUID) : bytes := "m"%char :: Codec.to_hex_uid tid.

(** Reads back what [to_hex_uid] wrote: the digits after the sign, if there
    is one, else all the digits. *)
Fixpoint uid_of_hex (s : bytes) : Z :=
  match s with
  | [] => 0
  | c :: rest =>
      if Ascii.eqb c "-" then - fst (Codec.accumulate 16 rest 0 false)
      else if Ascii.eqb c "0" then uid_of_hex rest
      else fst (Codec.accumulate 16 s 0 false)
  end.

(** [n] successive [qsThreadInfo] packets, with the replies in order. *)
Fixpoint next_threads (n : nat) (fuel : nat) (state : EmuEnvState)
  (command : Packet.PacketCommand) : outcome (list bytes * EmuEnvState) :=
  match n with
  | O => Ok ([], state)
  | S n' =>
      '(r, state1) <- cmd_get_next_thread fuel state command ;;
      '(rs, state2) <- next_threads n' fuel state1 command ;;
      Ok (r :: rs, state2)
  end.

(** [qfThreadInfo] followed by [n] times [qsThreadInfo]. *)
Definition enumerate_threads (n : nat) (fuel : nat) (state : EmuEnvState)
  (first next : Packet.PacketCommand) : outcome (list bytes * EmuEnvState) :=
  '(r, state1) <- cmd_get_first_thread fuel state first ;;
  '(rs, state2) <- next_threads n fuel state1 next ;;
  Ok (r :: rs, state2).

(** The registers r0-r12, sp, lr, pc, in the order of their RSP indices. *)
Definition core_registers : list cpu_reg :=
  [GPR 0; GPR 1; GPR 2; GPR 3; GPR 4; GPR 5; GPR 6; GPR 7; GPR 8; GPR 9; GPR 10;
   GPR 11; GPR 12; SP; LR; PC].

(** The CPU after the registers [rs] were read, in this order. *)
Definition cpu_after_reads (rs : list cpu_reg) (c : CPUState) : CPUState :=
  {| reg_file := reg_file c; hit_breakpoint := hit_breakpoint c;
     journal := journal c ++ map Rd rs |}.

(** The float and status registers of the register view (indices 16-25). *)
Definition is_float_or_status (r : cpu_reg) : bool :=
  match r with
  | FLOAT _ | FPSCR | CPSR => true
  | _ => false
  end.

(** The entry of the dispatch table that handles a command: the first one
    whose name the content begins with. *)
Definition lookup_function (C : Collaborators) (command : Packet.PacketCommand)
  : option PacketFunctionBundle :=
  find (fun f => command_begins_with command (name f)) (functions C).

(** The range [[a, a+len)] is valid: every page it touches, that is the page
    of each of its addresses, is valid. *)
Definition range_valid (m : MemState) (a len : Z) : Prop :=
  forall x, a <= x < a + len -> is_valid_addr m x = true.

(** The addresses [check_memory_region] looks at: [it], [it + page_size],
    ... below [end_]. *)
Definition probes_valid (m : MemState) (it end_ : Z) : Prop :=
  forall k, 0 <= k -> it + k * page_size m < end_ ->
            is_valid_addr m (it + k * page_size m) = true.

(** Every page the range [[a, a+len)] touches holds one of the addresses
    [a], [a + page_size], [a + 2 * page_size], ... below [a + len]. *)
Definition probes_cover (m : MemState) (a len : Z) : Prop :=
  forall x, a <= x < a + len ->
  exists k, 0 <= k /\ a + k * page_size m < a + len
            /\ (a + k * page_size m) / page_size m = x / page_size m.

(** The byte a debugger reads at the guest address [x]. *)
Definition byte_at (m : MemState) (x : Z) : Z :=
  match Ptr_get m x with
  | Some p => uint8_t (host m p)
  | None => 0
  end.

(** The hex dump of the [n] bytes from the guest address [a] on. *)
Definition hex_bytes (m : MemState) (a : Z) (n : nat) : bytes :=
  concat (map (fun i => Codec.hex2 (byte_at m (a + Z.of_nat i))) (seq 0 n)).

(** The pieces of [s] between the separators [sep]. *)
Fixpoint split_on (sep : ascii) (s : bytes) : list bytes :=
  match s with
  | [] => [[]]
  | c :: rest =>
      if Ascii.eqb c sep then [] :: split_on sep rest
      else match split_on sep rest with
           | [] => [[c]]
           | piece :: pieces => (c :: piece) :: pieces
           end
  end.

(** The actions of a [vCont] body: what follows [vCont;], split at ';'. *)
Definition vcont_actions (content : bytes) : list bytes :=
  split_on ";" (skipn 6 content).

(** The letter of an action; NUL for the empty action. *)
Definition action_letter (action : bytes) : ascii := Str.at_ action 0.

(** The letter of the first action that is a step or a continue. *)
Definition honored_action (content : bytes) : option ascii :=
  find is_vcont_action (map action_letter (vcont_actions content)).

(** The state after [n] quanta of the rest of the emulator. *)
Fixpoint quanta (C : Collaborators) (n : nat) (state : EmuEnvState) : EmuEnvState :=
  match n with
  | O => state
  | S n' => quanta C n' (env_quantum C state)
  end.

Definition thread_ids (state : EmuEnvState) : list SceUID :=
  ThreadMap.keys (threads (kernel state)).

(** The thread [id] comes to the end of a step: once [resume(true)] has been
    called on it, it is in [suspend] at some time. *)
Definition step_ends (C : Collaborators) (state : EmuEnvState) (id : SceUID) : Prop :=
  forall thread, ThreadMap.get (threads (kernel state)) id = Some thread ->
  exists n,
    status_in id is_suspend
      (quanta C n (store_thread state id (thread_resume C true thread))) = true.

(** Guest threads that respond to the controller: the thread table keeps its
    keys; a suspended thread on which [resume()] has been called is out of
    [suspend] at some time; a running thread on which [suspend()] has been
    called is in [suspend] or [dormant] at some time; and the wait for a
    break ends, by a suspended thread that has hit a breakpoint or by
    [server_die]. *)
Record Responsive (C : Collaborators) : Prop := {
  keeps_threads :
    forall k, ThreadMap.keys (threads (fst (guest_run C k))) = ThreadMap.keys (threads k);
  resumed_leaves_suspend :
    forall state id thread,
    ThreadMap.get (threads (kernel state)) id = Some thread -> status thread = suspend ->
    exists n,
      status_in id not_suspend
        (quanta C n (store_thread state id (thread_resume C false thread))) = true;
  suspended_settles :
    forall state id thread,
    ThreadMap.get (threads (kernel state)) id = Some thread -> status thread = run ->
    exists n,
      status_in id suspend_or_dormant
        (quanta C n (store_thread state id (thread_suspend C thread))) = true;
  breaks_or_dies :
    forall state,
    exists n, server_die (gdb (quanta C n state)) = true
              \/ find_break (threads (kernel (quanta C n state))) <> None
}.

(** The call [run], given fuel, returns [a] whenever the fuel is enough. *)
Definition returns {A : Type} (run : nat -> outcome A) (a : A) : Prop :=
  exists fuel0, forall fuel, (fuel0 <= fuel)%nat -> run fuel = Ok a.

(** ** A small emulator state to run the stub on *)

Module Fixture.

Definition cpu0 : CPUState :=
  {| reg_file := fun r => match r with GPR n => n + 1 | PC => 4096 | _ => 7 end;
     hit_breakpoint := false; journal := [] |}.

Definition thread0 (s : ThreadStatus) : ThreadState :=
  {| status := s; cpu := cpu0; to_do := 0 |}.

(** Pages 16 to 31 are valid. *)
Definition mem0 : MemState :=
  {| page_size := 4096; page_valid := fun p => (16 <=? p) && (p <? 32);
     use_page_table := false; page_table := fun p => p * 4096;
     host := fun q => q mod 251; elf_base := 0 |}.

Definition gdb0 : GDBState :=
  {| server_die := false; last_reply := []; current_thread := -1;
     inferior_thread := 0; thread_info_index := 0; recv_buffer := [] |}.

Definition kernel0 : KernelState :=
  {| threads := [(42, thread0 suspend); (43, thread0 suspend)]; debugger := [] |}.

Definition state0 : EmuEnvState := {| gdb := gdb0; kernel := kernel0; mem := mem0 |}.

(** The state after [Hg0]: the current thread is the first thread. *)
Definition state1 : EmuEnvState := with_gdb state0 (set_current_thread gdb0 42).

(** Collaborators that accept every range, and guest threads that stand
    still. *)
Definition idle : Collaborators :=
  {| is_valid_guest_addr_range := fun _ _ _ => true;
     is_valid_guest_addr := is_valid_addr;
     thread_resume := fun _ t => t;
     thread_suspend := fun t => t;
     guest_run := fun k => (k, false) |}.

Definition no_command : Packet.PacketCommand := Packet.parse_command [] 0.

End Fixture.

Module Lively.

(** A guest thread that changes its status with every quantum and has then
    hit a breakpoint. *)
Definition wake (t : ThreadState) : ThreadState :=
  {| status := match status t with
               | run => suspend
               | suspend => run
               | dormant => run
               end;
     cpu := {| reg_file := reg_file (cpu t); hit_breakpoint := true;
               journal := journal (cpu t) |};
     to_do := to_do t |}.

Definition wake_all (k : KernelState) : KernelState :=
  {| threads := map (fun p => (fst p, wake (snd p))) (threads k);
     debugger := debugger k |}.

(** Every guest thread wakes; with no thread left the emulator shuts the
    server down. *)
Definition lively : Collaborators :=
  {| is_valid_guest_addr_range := fun _ _ _ => true;
     is_valid_guest_addr := is_valid_addr;
     thread_resume := fun _ t => t;
     thread_suspend := fun t => t;
     guest_run := fun k => (wake_all k, match threads k with [] => true | _ => false end) |}.

End Lively.

Module Handshake.

(** [resume] and [suspend] as they have left the thread object when they
    return: the status is set, and a step is noted for the guest side. *)
Definition resume (step : bool) (t : ThreadState) : ThreadState :=
  {| status := run; cpu := cpu t; to_do := if step then 1 else 0 |}.

Definition stop (t : ThreadState) : ThreadState :=
  {| status := suspend; cpu := cpu t; to_do := to_do t |}.

(** Guest threads that follow [resume] and [suspend] and, left alone, wake
    and run into breakpoints as those of [Lively] do. *)
Definition guest : Collaborators :=
  {| is_valid_guest_addr_range := fun _ _ _ => true;
     is_valid_guest_addr := is_valid_addr;
     thread_resume := resume;
     thread_suspend := stop;
     guest_run := guest_run Lively.lively |}.

(** A running thread that has a step to do has done it after a quantum. *)
Definition settle (t : ThreadState) : ThreadState :=
  if ThreadStatus_eqb (status t) run && (to_do t =? 1)
  then {| status := suspend; cpu := cpu t; to_do := 0 |}
  else t.

(** Guest threads that follow [resume] and [suspend], end a step within a
    quantum, and never meet a breakpoint. *)
Definition quiet : Collaborators :=
  {| is_valid_guest_addr_range := fun _ _ _ => true;
     is_valid_guest_addr := is_valid_addr;
     thread_resume := resume;
     thread_suspend := stop;
     guest_run := fun k =>
       ({| threads := map (fun p => (fst p, settle (snd p))) (threads k);
           debugger := debugger k |}, false) |}.

End Handshake.

(** The command a valid frame with the content [s] is parsed to. *)
Definition command_of (s : string) : Packet.PacketCommand :=
  Packet.parse_command (wire_frame (lit s)) (Str.size (wire_frame (lit s))).

(** The state after the [k] packet: [server_die] is set. *)
Definition state_dying : EmuEnvState :=
  with_gdb Fixture.state0 (set_server_die Fixture.gdb0 true).

(** The state in which the thread 42 is the one the debugger steps. *)
Definition state_stopped : EmuEnvState :=
  with_gdb Fixture.state0 (set_inferior_thread Fixture.gdb0 42).

(** What the server sends when the characters [wire] arrive in one piece. *)
Definition session (C : Collaborators) (fuel : nat) (state : EmuEnvState) (wire : string)
  : list string :=
  map string_of_list_ascii (fst (server_next C fuel state (Str.size (lit wire)) (lit wire))).

(** ** Notions for the properties beyond the specification *)

(** A character at which [strtoul] in base 16 stops, wherever it stands: no
    space, no sign, no digit of the base, and not the x of a prefix. *)
Definition stops_hex (c : ascii) : bool :=
  negb (Codec.isspace c) && negb (Ascii.eqb c "-") && negb (Ascii.eqb c "+")
  && negb (Ascii.eqb c "x") && negb (Ascii.eqb c "X")
  && match Codec.digit_of c with
     | Some d => 16 <=? d
     | None => true
     end.

(** The first [len] characters of [data] are a frame with the content
    [content] and the checksum characters [h1], [h2]: one leading character,
    the content, which is not empty, a '#', and at least two characters
    after it, none of which is a '#'. *)
Definition framed (data : bytes) (len : Z) (content : bytes) (h1 h2 : ascii) : Prop :=
  exists c0 tail beyond,
    data = c0 :: content ++ "#"%char :: h1 :: h2 :: tail ++ beyond
    /\ len = Str.size content + 4 + Str.size tail
    /\ content <> []
    /\ no_char "#" (h1 :: h2 :: tail).

(** No name of the list begins with a name that stands before it. *)
Fixpoint unshadowed (names : list bytes) : bool :=
  match names with
  | [] => true
  | n :: later => forallb (fun m => negb (Str.starts_with m n)) later && unshadowed later
  end.

(** The first characters of the names of the dispatch table. *)
Definition initials (C : Collaborators) : bytes :=
  map (fun f => hd Str.NUL (name f)) (functions C).

(** What [server_next] leaves in the receive buffer for the next call:
    nothing, or a '$' and characters after it among which no '#' is
    followed by two characters. *)
Definition incomplete_frame (b : bytes) : Prop :=
  b = []
  \/ exists rest,
       b = "$"%char :: rest
       /\ forall body c1 c2 more, rest <> body ++ "#"%char :: c1 :: c2 :: more.

(** The command [command] points at the content [content]: [content_start]
    is where it begins in [data], [content_length] is its length. *)
Definition carries (command : Packet.PacketCommand) (content : bytes) : Prop :=
  exists p rest,
    Packet.content_start command = Some p /\ 0 <= p
    /\ Packet.content_length command = Str.size content
    /\ skipn (Z.to_nat p) (Packet.data command) = content ++ rest.

(** The hex text of a list of byte values, two digits each. *)
Definition hex_of (bs : list Z) : bytes := concat (map Codec.hex2 bs).

(** The emulator state of the fixture with the ELF image based at 4096. *)
Definition state_based : EmuEnvState :=
  with_mem Fixture.state0
    {| page_size := 4096; page_valid := fun p => (16 <=? p) && (p <? 32);
       use_page_table := false; page_table := fun p => p * 4096;
       host := fun q => q mod 251; elf_base := 4096 |}.

(** A character that can stand in a reply as it is: not one of the
    delimiters of a frame, and not the NUL at which [strlen] stops. *)
Definition plain_char (c : ascii) : bool :=
  negb (Ascii.eqb c "#") && negb (Ascii.eqb c "$") && negb (Ascii.eqb c Str.NUL).

Definition plain (r : bytes) : Prop := Forall (fun c => plain_char c = true) r.

(** The state with the receive buffer of [server_next] replaced. *)
Definition with_buffer (state : EmuEnvState) (b : bytes) : EmuEnvState :=
  with_gdb state (set_recv_buffer (gdb state) b).

Definition outcome_map {A B : Type} (f : A -> B) (o : outcome A) : outcome B :=
  match o with
  | Ok a => Ok (f a)
  | Fault e => Fault e
  | Hang => Hang
  end.

Definition reply_with_buffer (b : bytes) : outcome reply -> outcome reply :=
  outcome_map (fun rs : reply => (fst rs, with_buffer (snd rs) b)).

Definition state_with_buffer (b : bytes) : outcome EmuEnvState -> outcome EmuEnvState :=
  outcome_map (fun s : EmuEnvState => with_buffer s b).

(** The command with characters appended to the buffer it points into. *)
Definition extend (command : Packet.PacketCommand) (ext : bytes) : Packet.PacketCommand :=
  {| Packet.data := Packet.data command ++ ext;
     Packet.length := Packet.length command;
     Packet.begin_index := Packet.begin_index command;
     Packet.end_index := Packet.end_index command;
     Packet.content_length := Packet.content_length command;
     Packet.content_start := Packet.content_start command;
     Packet.checksum_start := Packet.checksum_start command;
     Packet.checksum := Packet.checksum command;
     Packet.is_valid := Packet.is_valid command |}.

(** The content of the command lies inside its buffer and is not empty. *)
Definition within (command : Packet.PacketCommand) : Prop :=
  exists p,
    Packet.content_start command = Some p /\ 0 <= p
    /\ 1 <= Packet.content_length command
    /\ p + Packet.content_length command < Str.size (Packet.data command).

(** What the loop of [server_next] gives when the buffer has [k] more
    characters before it: the positions move by [k]. *)
Definition loop_shift (k : Z) (r : transcript * outcome (EmuEnvState * Z))
  : transcript * outcome (EmuEnvState * Z) :=
  (fst r, outcome_map (fun sp : EmuEnvState * Z => (fst sp, snd sp + k)) (snd r)).

Definition loop_with_buffer (b : bytes) (r : transcript * outcome (EmuEnvState * Z))
  : transcript * outcome (EmuEnvState * Z) :=
  (fst r, outcome_map (fun sp : EmuEnvState * Z => (with_buffer (fst sp) b, snd sp)) (snd r)).

(** The value of a call of [server_next] with the number of characters
    received replaced. *)
Definition with_status (status : Z) (o : outcome (Z * EmuEnvState)) : outcome (Z * EmuEnvState) :=
  outcome_map (fun r : Z * EmuEnvState => (status, snd r)) o.

(** * Properties *)

Example to_hex_ex : Codec.to_hex 42 = lit "0000002a". Proof. reflexivity. Qed.
Example to_hex_uid_ex : Codec.to_hex_uid (-1) = lit "000000-1". Proof. reflexivity. Qed.
Example be_hex_ex : Codec.be_hex 305419896 = lit "78563412". Proof. reflexivity. Qed.
Example parse_hex_ex : Codec.parse_hex (lit "0x1F,4") = 31. Proof. reflexivity. Qed.
Example checksum_ex : Codec.make_checksum (lit "OK") 2 = 154. Proof. reflexivity. Qed.

Example parse_command_ex :
  let c := Packet.parse_command (lit "$qC#b4") 6 in
  (Packet.is_valid c, Packet.content_string c) = (true, Ok (lit "qC")).
Proof. reflexivity. Qed.
Example reply_ex : Packet.server_reply_text (lit "OK") = lit "$OK#9a". Proof. reflexivity. Qed.

Ltac digit_cases d H :=
  assert (d = 0 \/ d = 1 \/ d = 2 \/ d = 3 \/ d = 4 \/ d = 5 \/ d = 6 \/ d = 7 \/
          d = 8 \/ d = 9 \/ d = 10 \/ d = 11 \/ d = 12 \/ d = 13 \/ d = 14 \/ d = 15)
    as H by lia;
  repeat (destruct H as [H | H]; [subst d | ]); [.. | subst d].


(** ** The checksum *)

Lemma uchar_range (c : ascii) : 0 <= uchar c < 256.
Proof.
  unfold uchar. destruct c as [[] [] [] [] [] [] [] []]; vm_compute; split; congruence.
Qed.

Lemma char_promote_mod_256 (signed : bool) (c : ascii) :
  char_promote signed c mod 256 = uchar c.
Proof.
  pose proof (uchar_range c) as Hc. unfold char_promote.
  destruct (signed && (128 <=? uchar c)) eqn:E.
  - replace (uchar c - 256) with (uchar c + (-1) * 256) by lia.
    rewrite Z.mod_add by lia. apply Z.mod_small. lia.
  - apply Z.mod_small. lia.
Qed.

Lemma size_t_mod_256 (x : Z) : size_t x mod 256 = x mod 256.
Proof.
  unfold size_t. apply Z.mod_mod_divide. exists (2 ^ 56). reflexivity.
Qed.

Lemma sum_chars_mod_256 (signed : bool) (b : bytes) :
  forall sum, Codec.sum_chars signed b (List.length b) sum mod 256 = (sum + byte_sum b) mod 256.
Proof.
  induction b as [| c rest IH]; intros sum; simpl.
  - f_equal. lia.
  - rewrite IH. rewrite <- Z.add_mod_idemp_l by lia. rewrite size_t_mod_256.
    rewrite <- (Z.add_mod_idemp_r sum) by lia. rewrite char_promote_mod_256.
    rewrite Z.add_mod_idemp_l by lia. f_equal. lia.
Qed.

(** C8. For every byte string [b], the checksum of [b] is the sum of its
    bytes, taken as unsigned values, modulo 256; this holds whether plain
    [char] is signed ([make_checksum] as compiled for x86-64) or unsigned. *)
Theorem make_checksum_is_byte_sum_mod_256 (char_is_signed : bool) (b : bytes) :
  Codec.make_checksum_as char_is_signed b (Str.size b) = byte_sum b mod 256.
Proof.
  unfold Codec.make_checksum_as, Str.size, uint8_t. rewrite Nat2Z.id.
  rewrite sum_chars_mod_256. simpl (0 + _).
  change (2 ^ 8) with 256. apply Z.mod_mod. lia.
Qed.

(** ** The hex codec *)

Lemma digit_of_hex_digit (d : Z) : 0 <= d < 16 -> Codec.digit_of (Codec.hex_digit d) = Some d.
Proof. intros Hd. digit_cases d H; reflexivity. Qed.

Lemma hexchar_plain (c : ascii) :
  hexchar c ->
  Codec.isspace c = false /\ Ascii.eqb c "-" = false /\ Ascii.eqb c "+" = false
  /\ Ascii.eqb c "x" = false /\ Ascii.eqb c "X" = false /\ Ascii.eqb c "#" = false
  /\ Ascii.eqb c "$" = false /\ Ascii.eqb c "," = false.
Proof.
  intros (d & Hd & ->). digit_cases d H; vm_compute; repeat split.
Qed.

Lemma hexchar_mod (v : Z) : hexchar (Codec.hex_digit (v mod 16)).
Proof. exists (v mod 16). split; [apply Z.mod_pos_bound; lia | reflexivity]. Qed.

Lemma hex_digits_hexchar (fuel : nat) :
  forall v acc, Forall hexchar acc -> Forall hexchar (Codec.hex_digits fuel v acc).
Proof.
  induction fuel as [| fuel IH]; intros v acc Hacc; simpl; [exact Hacc |].
  destruct (v / 16 =? 0).
  - constructor; [apply hexchar_mod | exact Hacc].
  - apply IH. constructor; [apply hexchar_mod | exact Hacc].
Qed.

Lemma accumulate_step (d : Z) (rest : bytes) (a : Z) :
  0 <= d < 16 -> a * 16 + d <= ULONG_MAX ->
  Codec.accumulate 16 (Codec.hex_digit d :: rest) a false = Codec.accumulate 16 rest (a * 16 + d) false.
Proof.
  intros Hd Ha. simpl. rewrite digit_of_hex_digit by exact Hd.
  replace (d <? 16) with true by (symmetry; apply Z.ltb_lt; lia).
  replace (ULONG_MAX <? a * 16 + d) with false by (symmetry; apply Z.ltb_ge; lia).
  reflexivity.
Qed.

Lemma accumulate_hex_digits (fuel : nat) :
  forall v acc, 0 <= v < 16 ^ Z.of_nat fuel -> v <= ULONG_MAX ->
  Codec.accumulate 16 (Codec.hex_digits fuel v acc) 0 false = Codec.accumulate 16 acc v false.
Proof.
  induction fuel as [| fuel IH]; intros v acc Hv Hmax.
  - simpl in *. replace v with 0 by lia. reflexivity.
  - simpl Codec.hex_digits.
    pose proof (Z.mod_pos_bound v 16 ltac:(lia)) as Hm.
    pose proof (Z.div_mod v 16 ltac:(lia)) as Hdm.
    destruct (v / 16 =? 0) eqn:E.
    + apply Z.eqb_eq in E. rewrite accumulate_step by lia. f_equal. lia.
    + apply Z.eqb_neq in E.
      assert (0 <= v / 16 < 16 ^ Z.of_nat fuel) as Hq.
      { split; [apply Z.div_pos; lia |].
        apply Z.div_lt_upper_bound; [lia |].
        rewrite Nat2Z.inj_succ, Z.pow_succ_r in Hv by lia. lia. }
      rewrite IH by lia. rewrite accumulate_step by lia. f_equal. lia.
Qed.

Lemma accumulate_zeros (k : nat) (s : bytes) :
  Codec.accumulate 16 (repeat "0"%char k ++ s) 0 false = Codec.accumulate 16 s 0 false.
Proof.
  induction k as [| k IH]; [reflexivity |].
  change (repeat "0"%char (S k) ++ s) with (Codec.hex_digit 0 :: (repeat "0"%char k ++ s)).
  rewrite accumulate_step by (unfold ULONG_MAX; lia). exact IH.
Qed.

Lemma strtoul16_hexchars (s : bytes) :
  Forall hexchar s ->
  Codec.strtoul16 s =
  (let (v, overflow) := Codec.accumulate 16 s 0 false in if overflow then ULONG_MAX else v).
Proof.
  intros Hs. unfold Codec.strtoul16.
  destruct s as [| c0 s]; [reflexivity |].
  inversion Hs as [| ? ? H0 Hs']; subst.
  destruct (hexchar_plain c0 H0) as (Hsp & Hm & Hp & _).
  simpl Codec.skip_space. rewrite Hsp. unfold Codec.strip_sign. rewrite Hm, Hp.
  assert (Codec.strip_0x (c0 :: s) = c0 :: s) as ->.
  { destruct s as [| c1 s]; [reflexivity |].
    inversion Hs' as [| ? ? H1 _]; subst.
    destruct (hexchar_plain c1 H1) as (_ & _ & _ & Hx & HX & _).
    simpl. rewrite Hx, HX. rewrite andb_false_r. reflexivity. }
  destruct (Codec.accumulate 16 (c0 :: s) 0 false) as [v [|]]; reflexivity.
Qed.

Lemma repeat_zero_hexchar (k : nat) : Forall hexchar (repeat "0"%char k).
Proof.
  apply Forall_forall. intros c Hc. apply repeat_spec in Hc. subst c.
  exists 0. split; [lia | reflexivity].
Qed.

Lemma pad_fmt_hexchar (w : nat) (v : Z) : Forall hexchar (Codec.pad_left w "0" (Codec.fmt_x v)).
Proof.
  unfold Codec.pad_left. apply Forall_app. split.
  - apply repeat_zero_hexchar.
  - apply hex_digits_hexchar. constructor.
Qed.

(** Parsing what [fmt] wrote, whatever the width of the zero fill. *)
Lemma parse_hex_pad_fmt (w : nat) (v : Z) :
  0 <= v < 2 ^ 32 -> Codec.parse_hex (Codec.pad_left w "0" (Codec.fmt_x v)) = v.
Proof.
  intros Hv. unfold Codec.parse_hex.
  rewrite strtoul16_hexchars by apply pad_fmt_hexchar.
  unfold Codec.pad_left. rewrite accumulate_zeros. unfold Codec.fmt_x.
  rewrite accumulate_hex_digits.
  - simpl. unfold uint32_t. apply Z.mod_small. exact Hv.
  - change (16 ^ Z.of_nat 16) with (2 ^ 64). lia.
  - unfold ULONG_MAX. lia.
Qed.

Lemma lor_shiftl_add (hi lo k : Z) :
  0 <= k -> 0 <= lo < 2 ^ k -> Z.lor (Z.shiftl hi k) lo = hi * 2 ^ k + lo.
Proof.
  intros Hk Hlo. pose proof (Z.add_lor_land (Z.shiftl hi k) lo) as Hadd.
  rewrite Z.shiftl_mul_pow2 in * by exact Hk.
  assert (Z.land (hi * 2 ^ k) lo = 0) as Hz; [| lia].
  clear Hadd. apply Z.bits_inj'. intros n Hn. rewrite Z.land_spec, Z.bits_0.
  destruct (Z.lt_ge_cases n k) as [Hlt | Hge].
  - rewrite Z.mul_pow2_bits_low by exact Hlt. reflexivity.
  - rewrite <- (Z.mod_small lo (2 ^ k)) by exact Hlo.
    rewrite Z.mod_pow2_bits_high by lia. apply andb_false_r.
Qed.

Lemma land_shifted_ones (v n k : Z) :
  0 <= n -> 0 <= k ->
  Z.land v (Z.shiftl (Z.ones n) k) = Z.shiftl (Z.land (Z.shiftr v k) (Z.ones n)) k.
Proof.
  intros Hn Hk. apply Z.bits_inj'. intros i Hi.
  rewrite Z.land_spec. destruct (Z.lt_ge_cases i k) as [Hlt | Hge].
  - rewrite !Z.shiftl_spec_low by exact Hlt. apply andb_false_r.
  - rewrite !Z.shiftl_spec by exact Hi. rewrite Z.land_spec, Z.shiftr_spec by lia.
    f_equal. f_equal. lia.
Qed.

Lemma htonl_byteswap32 (v : Z) : 0 <= v < 2 ^ 32 -> Codec.htonl v = Codec.byteswap32 v.
Proof.
  intros Hv. unfold Codec.htonl, Codec.byteswap32.
  change 255 with (Z.ones 8). change 65280 with (Z.shiftl (Z.ones 8) 8).
  rewrite !land_shifted_ones by lia. rewrite !Z.land_ones by lia.
  rewrite !Z.shiftr_shiftr by lia. rewrite !Z.shiftr_div_pow2 by lia.
  rewrite Z.shiftl_shiftl by lia. simpl (8 + 8).
  pose proof (Z.mod_pos_bound v (2 ^ 8) ltac:(lia)) as H0.
  pose proof (Z.mod_pos_bound (v / 2 ^ 8) (2 ^ 8) ltac:(lia)) as H1.
  pose proof (Z.mod_pos_bound (v / 2 ^ 16) (2 ^ 8) ltac:(lia)) as H2.
  pose proof (Z.mod_pos_bound (v / 2 ^ 24) (2 ^ 8) ltac:(lia)) as H3.
  change (2 ^ 8) with 256 in *.
  generalize dependent (v mod 256). generalize dependent ((v / 256) mod 256).
  generalize dependent ((v / 2 ^ 16) mod 256). generalize dependent ((v / 2 ^ 24) mod 256).
  intros b3 H3 b2 H2 b1 H1 b0 H0.
  rewrite (lor_shiftl_add b2 b3 8) by (change (2 ^ 8) with 256; lia).
  rewrite (lor_shiftl_add b1 _ 16)
    by (change (2 ^ 8) with 256; change (2 ^ 16) with 65536; lia).
  rewrite (lor_shiftl_add b0 _ 24)
    by (change (2 ^ 8) with 256; change (2 ^ 16) with 65536;
        change (2 ^ 24) with 16777216; lia).
  change (2 ^ 8) with 256; change (2 ^ 16) with 65536; change (2 ^ 24) with 16777216.
  lia.
Qed.

(** C9. For every 32-bit value [v], [parse_hex (to_hex v)] is [v], and
    [be_hex v] is [to_hex] of the byte-swapped value. *)
Theorem hex_codec_round_trip (v : Z) :
  0 <= v < 2 ^ 32 ->
  Codec.parse_hex (Codec.to_hex v) = v /\ Codec.be_hex v = Codec.to_hex (Codec.byteswap32 v).
Proof.
  intros Hv. split.
  - apply parse_hex_pad_fmt. exact Hv.
  - unfold Codec.be_hex. rewrite htonl_byteswap32 by exact Hv. reflexivity.
Qed.

Lemma hex_codec_round_trip_witness :
  Codec.parse_hex (Codec.to_hex 305419896) = 305419896
  /\ Codec.be_hex 305419896 = Codec.to_hex (Codec.byteswap32 305419896).
Proof. apply (hex_codec_round_trip 305419896). split; [lia | reflexivity]. Defined.

(** ** Framing *)

Lemma hex_digits_length (fuel : nat) :
  forall (k : nat) v acc, (1 <= k)%nat -> 0 <= v < 16 ^ Z.of_nat k ->
  (List.length (Codec.hex_digits fuel v acc) <= k + List.length acc)%nat.
Proof.
  induction fuel as [| fuel IH]; intros k v acc Hk Hv; simpl; [lia |].
  destruct (v / 16 =? 0) eqn:E; [simpl; lia |].
  apply Z.eqb_neq in E.
  destruct k as [| k]; [lia |].
  destruct k as [| k].
  - exfalso. apply E. apply Z.div_small. simpl in Hv. lia.
  - assert (0 <= v / 16 < 16 ^ Z.of_nat (S k)) as Hq.
    { split; [apply Z.div_pos; lia |].
      apply Z.div_lt_upper_bound; [lia |].
      rewrite (Nat2Z.inj_succ (S k)), Z.pow_succ_r in Hv by lia. lia. }
    specialize (IH (S k) (v / 16) (Codec.hex_digit (v mod 16) :: acc) ltac:(lia) Hq).
    simpl in IH. lia.
Qed.

Lemma pad_left_length (w : nat) (fill : ascii) (s : bytes) :
  (List.length s <= w)%nat -> List.length (Codec.pad_left w fill s) = w.
Proof.
  intros Hs. unfold Codec.pad_left. rewrite length_app, repeat_length. lia.
Qed.

Lemma hex2_length (v : Z) : 0 <= v < 256 -> List.length (Codec.hex2 v) = 2%nat.
Proof.
  intros Hv. apply pad_left_length.
  pose proof (hex_digits_length 16 2 v [] ltac:(lia) ltac:(simpl; lia)) as H.
  simpl in H. exact H.
Qed.

Lemma hex2_no_hash (v : Z) : no_char "#" (Codec.hex2 v).
Proof.
  eapply Forall_impl; [| apply pad_fmt_hexchar].
  intros c Hc. apply hexchar_plain in Hc. tauto.
Qed.

Lemma make_checksum_range (signed : bool) (data : bytes) (len : Z) :
  0 <= Codec.make_checksum_as signed data len < 256.
Proof.
  unfold Codec.make_checksum_as, uint8_t. change (2 ^ 8) with 256.
  apply Z.mod_pos_bound. lia.
Qed.

Lemma scan_hash_no_hash (s : bytes) :
  no_char "#" s -> forall n a e, Packet.scan_hash s n a e = e.
Proof.
  induction 1 as [| c s Hc _ IH]; intros n a e; destruct n; simpl; try reflexivity.
  rewrite Hc. apply IH.
Qed.

Lemma scan_hash_app (s1 s2 : bytes) :
  forall n a e,
  Packet.scan_hash (s1 ++ s2) (List.length s1 + n) a e
  = Packet.scan_hash s2 n (a + Str.size s1) (Packet.scan_hash s1 (List.length s1) a e).
Proof.
  unfold Str.size. induction s1 as [| c s1 IH]; intros n a e.
  - simpl. rewrite Z.add_0_r. destruct n, s2; reflexivity.
  - simpl List.length. simpl Packet.scan_hash. rewrite IH. f_equal. lia.
Qed.

Lemma sum_chars_app (signed : bool) (s1 s2 : bytes) :
  forall sum, Codec.sum_chars signed (s1 ++ s2) (List.length s1) sum
              = Codec.sum_chars signed s1 (List.length s1) sum.
Proof.
  induction s1 as [| c s1 IH]; intros sum; simpl.
  - destruct s2; reflexivity.
  - apply IH.
Qed.

Lemma make_checksum_app (s1 s2 : bytes) :
  Codec.make_checksum (s1 ++ s2) (Str.size s1) = Codec.make_checksum s1 (Str.size s1).
Proof.
  unfold Codec.make_checksum, Codec.make_checksum_as, Str.size.
  rewrite Nat2Z.id, sum_chars_app. reflexivity.
Qed.

Lemma firstn_size_app (s1 s2 : bytes) : firstn (Z.to_nat (Str.size s1)) (s1 ++ s2) = s1.
Proof.
  unfold Str.size. rewrite Nat2Z.id. rewrite firstn_app, Nat.sub_diag, firstn_all.
  simpl. apply app_nil_r.
Qed.

Lemma skipn_length_app (s1 s2 : bytes) : skipn (List.length s1) (s1 ++ s2) = s2.
Proof. induction s1 as [| c s1 IH]; [reflexivity | exact IH]. Qed.

Lemma wire_frame_size (b : bytes) : Str.size (wire_frame b) = Str.size b + 4.
Proof.
  unfold wire_frame, Str.size. simpl List.length. rewrite length_app. simpl List.length.
  rewrite hex2_length by apply make_checksum_range. lia.
Qed.

Lemma scan_hash_cons (c : ascii) (s : bytes) (n : nat) (a e : Z) :
  Packet.scan_hash (c :: s) (S n) a e
  = Packet.scan_hash s n (a + 1) (if Ascii.eqb c "#" then a else e).
Proof. reflexivity. Qed.

Lemma wire_frame_end_index (b : bytes) :
  no_char "#" b ->
  Packet.scan_hash (wire_frame b) (Z.to_nat (Str.size (wire_frame b))) 0 (-1) = Str.size b + 1.
Proof.
  intros Hb. rewrite wire_frame_size. unfold wire_frame.
  replace (Z.to_nat (Str.size b + 4)) with (S (List.length b + 3))
    by (unfold Str.size; lia).
  rewrite scan_hash_cons, scan_hash_app.
  rewrite (scan_hash_no_hash b Hb). rewrite scan_hash_cons.
  rewrite scan_hash_no_hash by apply hex2_no_hash.
  change (Ascii.eqb "#" "#") with true. cbv iota. lia.
Qed.

(** The frame of the empty body, [$#00], is rejected: the test
    [end_index > begin_index] of [parse_command] fails. *)
Lemma framing_round_trip_fails_on_empty_body :
  no_char "$" [] /\ no_char "#" []
  /\ Packet.is_valid (Packet.parse_command (wire_frame []) (Str.size (wire_frame []))) = false.
Proof. repeat split; constructor. Qed.

(** C3, amended. For every non-empty byte string [b] containing neither '$'
    nor '#', parsing the frame of [b] yields a valid command whose content
    is [b], and framing [b] for output gives the same bytes. *)
Theorem framing_round_trip (b : bytes) :
  b <> [] -> no_char "$" b -> no_char "#" b ->
  let command := Packet.parse_command (wire_frame b) (Str.size (wire_frame b)) in
  Packet.is_valid command = true
  /\ Packet.content_string command = Ok b
  /\ Packet.server_reply b (Str.size b) = wire_frame b.
Proof.
  intros Hne _ Hhash. cbv zeta.
  assert (0 < Str.size b) as Hpos.
  { unfold Str.size. destruct b; [congruence | simpl; lia]. }
  unfold Packet.parse_command. rewrite wire_frame_end_index by exact Hhash.
  rewrite wire_frame_size.
  replace (1 <? Str.size b + 4) with true by (symmetry; apply Z.ltb_lt; lia).
  replace (negb (1 =? -1) && negb (Str.size b + 1 =? -1) && (1 <? Str.size b + 1)
           && (Str.size b + 1 + 2 <? Str.size b + 4)) with true.
  2:{ symmetry. rewrite !andb_true_iff, !negb_true_iff.
      repeat split; try (apply Z.eqb_neq; lia); apply Z.ltb_lt; lia. }
  cbn [negb].
  assert (skipn (Z.to_nat 1) (wire_frame b)
          = b ++ "#"%char :: Codec.hex2 (Codec.make_checksum b (Str.size b))) as Hskip1
      by reflexivity.
  assert (skipn (Z.to_nat (Str.size b + 1 + 1)) (wire_frame b)
          = Codec.hex2 (Codec.make_checksum b (Str.size b))) as Hskip2.
  { unfold wire_frame.
    replace ("$"%char :: b ++ "#"%char :: Codec.hex2 (Codec.make_checksum b (Str.size b)))
      with (("$"%char :: b ++ ["#"%char]) ++ Codec.hex2 (Codec.make_checksum b (Str.size b)))
      by (simpl; rewrite <- app_assoc; reflexivity).
    replace (Z.to_nat (Str.size b + 1 + 1)) with (List.length ("$"%char :: b ++ ["#"%char])).
    - apply skipn_length_app.
    - simpl List.length. rewrite length_app. unfold Str.size. simpl List.length. lia. }
  split; [| split].
  - cbn [Packet.is_valid]. rewrite Hskip1, Hskip2.
    replace (Str.size b + 1 - 1) with (Str.size b) by lia.
    rewrite make_checksum_app. apply Z.eqb_eq.
    rewrite firstn_all2 by (rewrite hex2_length by apply make_checksum_range; lia).
    unfold Codec.hex2. rewrite parse_hex_pad_fmt.
    + unfold uint8_t. symmetry. apply Z.mod_small. apply make_checksum_range.
    + pose proof (make_checksum_range true b (Str.size b)). unfold Codec.make_checksum. lia.
  - unfold Packet.content_string, Packet.string_of.
    cbn [Packet.data Packet.content_start Packet.content_length].
    replace (Str.size b + 1 - 1) with (Str.size b) by lia.
    replace (Str.size b <? 0) with false.
    + rewrite Hskip1, firstn_size_app. reflexivity.
    + symmetry. apply Z.ltb_ge; lia.
  - unfold Packet.server_reply, wire_frame. f_equal.
    unfold Str.size. rewrite Nat2Z.id, firstn_all. reflexivity.
Qed.

Lemma framing_round_trip_witness :
  let command :=
    Packet.parse_command (wire_frame (lit "qC")) (Str.size (wire_frame (lit "qC"))) in
  Packet.is_valid command = true
  /\ Packet.content_string command = Ok (lit "qC")
  /\ Packet.server_reply (lit "qC") (Str.size (lit "qC")) = wire_frame (lit "qC").
Proof.
  apply (framing_round_trip (lit "qC")).
  - discriminate.
  - repeat constructor.
  - repeat constructor.
Defined.

(** ** Thread enumeration *)

Lemma cmd_get_first_thread_cases (fuel : nat) (state : EmuEnvState)
  (command : Packet.PacketCommand) :
  match threads (kernel state) with
  | [] => cmd_get_first_thread fuel state command = Fault past_the_end
  | (tid, _) :: _ =>
      cmd_get_first_thread fuel state command
      = Ok (thread_page tid, with_gdb state (set_thread_info_index (gdb state) 0))
  end.
Proof.
  unfold cmd_get_first_thread. simpl.
  destruct (threads (kernel state)) as [| [tid t] rest]; reflexivity.
Qed.

(** C10. [cmd_get_first_thread] dereferences [threads.begin()] without a
    test: on the empty thread table this is the dereference of the end
    iterator and no reply is produced; on a non-empty table the access is in
    bounds and the reply reports the first thread id. *)
Theorem first_thread_dereferences_begin (fuel : nat) (state : EmuEnvState)
  (command : Packet.PacketCommand) :
  (threads (kernel state) = [] <->
   cmd_get_first_thread fuel state command = Fault past_the_end)
  /\ (threads (kernel state) <> [] <->
      exists tid, hd_error (ThreadMap.keys (threads (kernel state))) = Some tid
                  /\ cmd_get_first_thread fuel state command
                     = Ok (thread_page tid,
                           with_gdb state (set_thread_info_index (gdb state) 0))).
Proof.
  pose proof (cmd_get_first_thread_cases fuel state command) as H.
  destruct (threads (kernel state)) as [| [tid t] rest].
  - split; split; try congruence; try reflexivity.
    intros (tid & Hhd & _). discriminate.
  - rewrite H. split; split; try discriminate.
    + intros _. exists tid. split; reflexivity.
Qed.

Lemma skipn_nth_error {A : Type} (l : list A) :
  forall i x, nth_error l i = Some x -> skipn i l = x :: skipn (S i) l.
Proof.
  induction l as [| y l IH]; intros [| i] x H; simpl in *; try discriminate.
  - congruence.
  - apply IH. exact H.
Qed.

Lemma key_at_keys (m : list (SceUID * ThreadState)) (i : Z) :
  0 <= i < ThreadMap.size m ->
  exists k, ThreadMap.key_at m i = Ok k /\ nth_error (ThreadMap.keys m) (Z.to_nat i) = Some k.
Proof.
  intros Hi. unfold ThreadMap.key_at, ThreadMap.size, ThreadMap.keys in *.
  replace (i <? 0) with false by (symmetry; apply Z.ltb_ge; lia).
  destruct (nth_error m (Z.to_nat i)) as [[k t] |] eqn:E.
  - exists k. split; [reflexivity |]. rewrite nth_error_map, E. reflexivity.
  - apply nth_error_None in E. lia.
Qed.

Lemma next_threads_from (k : nat) (fuel : nat) (command : Packet.PacketCommand) :
  forall state,
  (1 <= k)%nat ->
  0 <= thread_info_index (gdb state) ->
  thread_info_index (gdb state) + Z.of_nat k = ThreadMap.size (threads (kernel state)) ->
  next_threads k fuel state command
  = Ok (map thread_page
          (skipn (S (Z.to_nat (thread_info_index (gdb state))))
             (ThreadMap.keys (threads (kernel state))))
          ++ [lit "l"],
        with_gdb state
          (set_thread_info_index (gdb state) (ThreadMap.size (threads (kernel state))))).
Proof.
  induction k as [| k IH]; intros state Hk Hi Hsum; [lia |].
  simpl next_threads. unfold cmd_get_next_thread. cbn [gdb kernel with_gdb].
  set (i := thread_info_index (gdb state)) in *.
  destruct (i + 1 =? ThreadMap.size (threads (kernel state))) eqn:E.
  - apply Z.eqb_eq in E. assert (k = O) by lia. subst k.
    cbn [next_threads bind]. rewrite skipn_all2.
    + rewrite E. reflexivity.
    + unfold ThreadMap.keys. rewrite length_map. unfold ThreadMap.size in E. lia.
  - apply Z.eqb_neq in E.
    destruct (key_at_keys (threads (kernel state)) (i + 1) ltac:(lia)) as (key & Hkey & Hnth).
    rewrite Hkey. simpl bind.
    rewrite IH; cbn [gdb kernel with_gdb set_thread_info_index thread_info_index]; try lia.
    simpl bind. f_equal. f_equal.
    + replace (Z.to_nat (i + 1)) with (S (Z.to_nat i)) in * by lia.
      rewrite (skipn_nth_error _ _ _ Hnth). reflexivity.
Qed.

Lemma accumulate_fmt_x (v : Z) :
  0 <= v < 2 ^ 64 -> Codec.accumulate 16 (Codec.fmt_x v) 0 false = (v, false).
Proof.
  intros Hv. unfold Codec.fmt_x. rewrite accumulate_hex_digits.
  - reflexivity.
  - change (16 ^ Z.of_nat 16) with (2 ^ 64). exact Hv.
  - unfold ULONG_MAX. lia.
Qed.

Lemma uid_of_hex_hexchars (s : bytes) :
  Forall hexchar s -> uid_of_hex s = fst (Codec.accumulate 16 s 0 false).
Proof.
  induction 1 as [| c s Hc Hs IH]; [reflexivity |].
  cbn [uid_of_hex]. destruct (hexchar_plain c Hc) as (_ & Hm & _). rewrite Hm.
  destruct (Ascii.eqb c "0") eqn:E; [| reflexivity].
  apply Ascii.eqb_eq in E. subst c. rewrite IH.
  change ("0"%char :: s) with (repeat "0"%char 1 ++ s).
  rewrite accumulate_zeros. reflexivity.
Qed.

Lemma uid_of_hex_zeros (k : nat) (s : bytes) :
  uid_of_hex (repeat "0"%char k ++ s) = uid_of_hex s.
Proof. induction k as [| k IH]; [reflexivity | exact IH]. Qed.

Lemma uid_of_hex_to_hex_uid (v : Z) : - 2 ^ 63 <= v < 2 ^ 63 -> uid_of_hex (Codec.to_hex_uid v) = v.
Proof.
  intros Hv. unfold Codec.to_hex_uid, Codec.pad_left. rewrite uid_of_hex_zeros.
  destruct (v <? 0) eqn:E.
  - apply Z.ltb_lt in E. cbn [uid_of_hex]. change (Ascii.eqb "-" "-") with true. cbv iota.
    rewrite accumulate_fmt_x by lia. simpl. lia.
  - apply Z.ltb_ge in E. rewrite uid_of_hex_hexchars by (apply hex_digits_hexchar; constructor).
    rewrite accumulate_fmt_x by lia. reflexivity.
Qed.

Lemma thread_page_injective (a b : SceUID) :
  - 2 ^ 63 <= a < 2 ^ 63 -> - 2 ^ 63 <= b < 2 ^ 63 -> thread_page a = thread_page b -> a = b.
Proof.
  intros Ha Hb H. unfold thread_page in H. injection H as H.
  rewrite <- (uid_of_hex_to_hex_uid a Ha), <- (uid_of_hex_to_hex_uid b Hb), H. reflexivity.
Qed.

Lemma thread_pages_NoDup (ids : list SceUID) :
  Forall (fun id => - 2 ^ 31 <= id < 2 ^ 31) ids -> NoDup ids -> NoDup (map thread_page ids).
Proof.
  intros Hrange Hnd. induction Hnd as [| id ids Hnot Hnd IH]; [constructor |].
  inversion Hrange as [| ? ? Hid Hids]; subst. cbn [map]. constructor.
  - intros Hin. apply in_map_iff in Hin. destruct Hin as (id' & Heq & Hin').
    rewrite Forall_forall in Hids. specialize (Hids id' Hin').
    apply thread_page_injective in Heq; [subst; contradiction | lia | lia].
  - apply IH. exact Hids.
Qed.

(** C6. For every non-empty thread table, [qfThreadInfo] resets the cursor
    to 0 and reports the first thread id, and together with as many
    [qsThreadInfo] as the table has threads it is answered by the page of
    each thread id, in the iteration order of the table and none twice,
    followed by the reply [l]. *)
Theorem thread_enumeration (fuel : nat) (state : EmuEnvState)
  (first next : Packet.PacketCommand) :
  threads (kernel state) <> [] ->
  NoDup (ThreadMap.keys (threads (kernel state))) ->
  Forall (fun id => - 2 ^ 31 <= id < 2 ^ 31) (ThreadMap.keys (threads (kernel state))) ->
  let ids := ThreadMap.keys (threads (kernel state)) in
  cmd_get_first_thread fuel state first
  = Ok (thread_page (hd 0 ids), with_gdb state (set_thread_info_index (gdb state) 0))
  /\ enumerate_threads (List.length (threads (kernel state))) fuel state first next
     = Ok (map thread_page ids ++ [lit "l"],
           with_gdb state
             (set_thread_info_index (gdb state) (ThreadMap.size (threads (kernel state)))))
  /\ NoDup (map thread_page ids)
  /\ ~ In (lit "l") (map thread_page ids).
Proof.
  intros Hne Hnd Hrange ids. unfold enumerate_threads.
  pose proof (cmd_get_first_thread_cases fuel state first) as Hfirst.
  subst ids.
  destruct (threads (kernel state)) as [| [tid t] rest] eqn:Hthreads; [congruence |].
  rewrite Hfirst. cbn [bind]. split; [reflexivity |]. split; [| split].
  - rewrite next_threads_from;
      cbn [gdb kernel with_gdb set_thread_info_index thread_info_index];
      rewrite ?Hthreads; unfold ThreadMap.size; simpl List.length; try lia.
    cbn [bind]. destruct state as [g k m]. reflexivity.
  - apply thread_pages_NoDup; assumption.
  - intros Hin. apply in_map_iff in Hin. destruct Hin as (id & Heq & _). discriminate.
Qed.

Lemma thread_enumeration_witness :
  enumerate_threads 2 O Fixture.state0 Fixture.no_command Fixture.no_command
  = Ok ([lit "m0000002a"; lit "m0000002b"; lit "l"],
        with_gdb Fixture.state0 (set_thread_info_index Fixture.gdb0 2)).
Proof.
  refine (proj1 (proj2 (thread_enumeration O Fixture.state0 Fixture.no_command
                          Fixture.no_command _ _ _))).
  - discriminate.
  - repeat constructor; simpl; intuition discriminate.
  - repeat constructor; simpl; lia.
Defined.

(** ** Register reads *)

Lemma htonl_range (v : Z) : 0 <= Codec.htonl v < 2 ^ 32.
Proof.
  unfold Codec.htonl.
  pose proof (Z.mod_pos_bound v 256 ltac:(lia)).
  pose proof (Z.mod_pos_bound (v / 2 ^ 8) 256 ltac:(lia)).
  pose proof (Z.mod_pos_bound (v / 2 ^ 16) 256 ltac:(lia)).
  pose proof (Z.mod_pos_bound (v / 2 ^ 24) 256 ltac:(lia)).
  change (2 ^ 32) with 4294967296. lia.
Qed.

Lemma to_hex_length (v : Z) : 0 <= v < 2 ^ 32 -> List.length (Codec.to_hex v) = 8%nat.
Proof.
  intros Hv. apply pad_left_length.
  pose proof (hex_digits_length 16 8 v [] ltac:(lia)
                ltac:(change (16 ^ Z.of_nat 8) with (2 ^ 32); exact Hv)) as H.
  simpl in H. exact H.
Qed.

Lemma be_hex_length (v : Z) : List.length (Codec.be_hex v) = 8%nat.
Proof. apply to_hex_length, htonl_range. Qed.

Lemma fetch_reg_core (c : CPUState) (i : nat) :
  (i < 16)%nat -> fetch_reg c (Z.of_nat i) = cpu_read (nth i core_registers PC) c.
Proof.
  intros Hi. do 16 (destruct i as [| i]; [reflexivity |]). lia.
Qed.

Lemma read_registers_loop_reads (rs : list cpu_reg) :
  forall (a : nat) (c : CPUState) (str : bytes),
  (forall i c', (i < List.length rs)%nat ->
                fetch_reg c' (Z.of_nat (a + i)) = cpu_read (nth i rs PC) c') ->
  read_registers_loop (List.length rs) (Z.of_nat a) c str
  = (str ++ concat (map (fun r => Codec.be_hex (reg_file c r)) rs), cpu_after_reads rs c).
Proof.
  induction rs as [| r rs IH]; intros a c str Hfetch.
  - simpl. rewrite app_nil_r. unfold cpu_after_reads. simpl. rewrite app_nil_r.
    destruct c; reflexivity.
  - simpl List.length. cbn [read_registers_loop].
    pose proof (Hfetch O c ltac:(simpl; lia)) as H0. rewrite Nat.add_0_r in H0.
    rewrite H0. cbn [cpu_read nth].
    replace (Z.of_nat a + 1) with (Z.of_nat (S a)) by lia.
    rewrite IH.
    + cbn [reg_file map concat]. rewrite <- app_assoc. f_equal.
      unfold cpu_after_reads. cbn [reg_file hit_breakpoint journal map].
      rewrite <- app_assoc. reflexivity.
    + intros i c' Hi. specialize (Hfetch (S i) c' ltac:(simpl; lia)).
      replace (S a + i)%nat with (a + S i)%nat by lia. exact Hfetch.
Qed.

Lemma concat_be_hex_length (f : cpu_reg -> Z) (rs : list cpu_reg) :
  List.length (concat (map (fun r => Codec.be_hex (f r)) rs)) = (8 * List.length rs)%nat.
Proof.
  induction rs as [| r rs IH]; [reflexivity |].
  cbn [map concat]. rewrite length_app, be_hex_length, IH. simpl List.length. lia.
Qed.

Lemma concat_hexchar (pieces : list bytes) :
  Forall (Forall hexchar) pieces -> Forall hexchar (concat pieces).
Proof.
  induction 1 as [| piece pieces Hpiece _ IH]; [constructor |].
  cbn [concat]. apply Forall_app. split; assumption.
Qed.

Lemma contains_get (m : list (SceUID * ThreadState)) (id : SceUID) :
  ThreadMap.contains m id = true <-> exists t, ThreadMap.get m id = Some t.
Proof.
  unfold ThreadMap.contains. destruct (ThreadMap.get m id) as [t |].
  - split; [eauto | reflexivity].
  - split; [discriminate | intros [t H]; discriminate].
Qed.

(** C7. The [g] packet is answered by [E00], the state and with it every CPU
    journal untouched, if [current_thread] is -1 or absent from the thread
    table; otherwise the reply is the big-endian hex of the registers r0-r12,
    sp, lr, pc of the current thread, 128 digits, these sixteen reads are all
    that is added to the journal of its CPU, and none of them is a float or
    status register. *)
Theorem read_registers_reply (fuel : nat) (state : EmuEnvState)
  (command : Packet.PacketCommand) :
  (current_thread (gdb state) = -1
   \/ ThreadMap.get (threads (kernel state)) (current_thread (gdb state)) = None ->
   cmd_read_registers fuel state command = Ok (lit "E00", state))
  /\ (forall thread,
      current_thread (gdb state) <> -1 ->
      ThreadMap.get (threads (kernel state)) (current_thread (gdb state)) = Some thread ->
      let str := concat (map (fun r => Codec.be_hex (reg_file (cpu thread) r)) core_registers) in
      cmd_read_registers fuel state command
      = Ok (str,
            store_thread state (current_thread (gdb state))
              (set_cpu thread (cpu_after_reads core_registers (cpu thread))))
      /\ List.length str = 128%nat
      /\ Forall hexchar str
      /\ forallb (fun r => negb (is_float_or_status r)) core_registers = true).
Proof.
  unfold cmd_read_registers, no_current_thread, ThreadMap.contains, ThreadMap.deref.
  split.
  - intros [H | H].
    + rewrite H. reflexivity.
    + rewrite H. rewrite orb_true_r. reflexivity.
  - intros thread Hcur Hget. cbv zeta. rewrite Hget.
    replace (current_thread (gdb state) =? -1) with false
      by (symmetry; apply Z.eqb_neq; exact Hcur).
    cbn [orb negb bind].
    pose proof (read_registers_loop_reads core_registers O (cpu thread) []
                  (fun i c' Hi => fetch_reg_core c' i Hi)) as Hloop.
    change (List.length core_registers) with 16%nat in Hloop.
    change (Z.of_nat 0) with 0 in Hloop. rewrite Hloop.
    split; [reflexivity |]. split; [| split; [| reflexivity]].
    + rewrite concat_be_hex_length. reflexivity.
    + apply concat_hexchar. apply Forall_map, Forall_forall.
      intros r _. apply pad_fmt_hexchar.
Qed.

Lemma read_registers_reply_witness :
  cmd_read_registers O Fixture.state0 Fixture.no_command = Ok (lit "E00", Fixture.state0)
  /\ cmd_read_registers O Fixture.state1 Fixture.no_command
     = Ok (lit "0100000002000000030000000400000005000000060000000700000008000000090000000a0000000b0000000c0000000d000000070000000700000000100000",
           store_thread Fixture.state1 42
             (set_cpu (Fixture.thread0 suspend)
                (cpu_after_reads core_registers Fixture.cpu0))).
Proof.
  split.
  - apply (read_registers_reply O Fixture.state0 Fixture.no_command). left. reflexivity.
  - refine (proj1 (proj2 (read_registers_reply O Fixture.state1 Fixture.no_command)
                     (Fixture.thread0 suspend) _ _)).
    + simpl. lia.
    + reflexivity.
Defined.

(** ** The session step *)

Lemma find_hash_from_body (body : bytes) :
  forall (c1 c2 : ascii) (rest : bytes) (i size : Z),
  no_char "#" body ->
  i + Str.size body + 2 < size ->
  find_hash_from (body ++ "#"%char :: c1 :: c2 :: rest) i size = Some (i + Str.size body).
Proof.
  unfold Str.size. induction body as [| c body IH]; intros c1 c2 rest i size Hno Hsize.
  - simpl in *. replace (i + 2 <? size) with true by (symmetry; apply Z.ltb_lt; lia).
    f_equal. lia.
  - inversion Hno as [| ? ? Hc Hbody]; subst. simpl List.length in *.
    cbn [app find_hash_from].
    replace (i + 2 <? size) with true by (symmetry; apply Z.ltb_lt; lia).
    rewrite Hc. rewrite IH by (assumption || lia). f_equal. lia.
Qed.

Lemma dispatch_lookup (fuel : nat) (state : EmuEnvState)
  (command : Packet.PacketCommand) :
  forall fs,
  dispatch fs fuel state command
  = match find (fun f => command_begins_with command (name f)) fs with
    | None => ([Packet.server_reply_text []], Ok (with_gdb state (set_last_reply (gdb state) [])))
    | Some f =>
        match function f fuel state command with
        | Ok (r, state') =>
            let state'' := with_gdb state' (set_last_reply (gdb state') r) in
            (if server_die (gdb state'') then [] else [Packet.server_reply_text r], Ok state'')
        | Fault e => ([], Fault e)
        | Hang => ([], Hang)
        end
    end.
Proof.
  induction fs as [| f fs IH]; [reflexivity |].
  cbn [dispatch find]. destruct (command_begins_with command (name f)); [| exact IH].
  destruct (function f fuel state command) as [[r state'] | e |]; try reflexivity.
  cbv zeta. destruct (server_die _); reflexivity.
Qed.

Lemma server_next_transcript (C : Collaborators) (fuel : nat) (state : EmuEnvState)
  (temp : bytes) :
  server_die (gdb state) = false -> recv_buffer (gdb state) = [] -> temp <> [] ->
  fst (server_next C fuel state (Str.size temp) temp)
  = fst (server_loop C (S (List.length temp)) fuel state temp 0).
Proof.
  intros Hdie Hbuf Hne. unfold server_next. rewrite Hdie, Hbuf.
  replace (Str.size temp <=? 0) with false.
  - unfold Str.size. rewrite Nat2Z.id, firstn_all. cbn [app].
    destruct (server_loop C (S (List.length temp)) fuel state temp 0) as [sent [[s p] | e |]];
      reflexivity.
  - symmetry. apply Z.leb_gt. unfold Str.size. destruct temp; [congruence | simpl; lia].
Qed.

Lemma server_loop_at_end (C : Collaborators) (gas fuel : nat) (state : EmuEnvState)
  (buffer : bytes) :
  server_loop C (S gas) fuel state buffer (Str.size buffer) = ([], Ok (state, Str.size buffer)).
Proof. cbn [server_loop]. rewrite Z.ltb_irrefl. reflexivity. Qed.

Lemma skipn_size_app (pre s : bytes) : skipn (Z.to_nat (Str.size pre)) (pre ++ s) = s.
Proof. unfold Str.size. rewrite Nat2Z.id. apply skipn_length_app. Qed.

Lemma at_size_app (pre : bytes) (c : ascii) (s : bytes) :
  Str.at_ (pre ++ c :: s) (Str.size pre) = c.
Proof.
  unfold Str.at_, Str.size. rewrite Nat2Z.id. rewrite app_nth2 by lia.
  rewrite Nat.sub_diag. reflexivity.
Qed.

(** An iteration of the loop of [server_next] that starts at a complete
    frame, wherever it lies in the buffer. *)
Lemma server_loop_frame_at (C : Collaborators) (gas fuel : nat) (state : EmuEnvState)
  (pre body : bytes) (c1 c2 : ascii) (rest : bytes) :
  no_char "#" body ->
  let frame := "$"%char :: body ++ "#"%char :: c1 :: c2 :: rest in
  let buffer := pre ++ frame in
  let pos := Str.size pre in
  let packet_len := Str.size body + 4 in
  let command := Packet.parse_command frame packet_len in
  server_loop C (S gas) fuel state buffer pos
  = emit ["+"%char]
      (if Packet.is_valid command then
         match dispatch (functions C) fuel state command with
         | (sent, Ok state') =>
             emits sent (server_loop C gas fuel state' buffer (pos + packet_len))
         | (sent, Fault e) => (sent, Fault e)
         | (sent, Hang) => (sent, Hang)
         end
       else emit ["-"%char] (server_loop C gas fuel state buffer (pos + packet_len))).
Proof.
  intros Hno frame buffer pos packet_len command.
  assert (Str.size buffer = pos + Str.size body + 4 + Str.size rest) as Hsize.
  { unfold buffer, frame, pos, Str.size. rewrite length_app. simpl List.length.
    rewrite length_app. simpl List.length. lia. }
  assert (0 <= Str.size rest /\ 0 <= Str.size body /\ 0 <= pos) as (Hrest & Hbody & Hpos)
    by (unfold pos, Str.size; lia).
  cbn [server_loop].
  replace (pos <? Str.size buffer) with true by (symmetry; apply Z.ltb_lt; lia).
  assert (Str.at_ buffer pos = "$"%char) as -> by apply at_size_app.
  assert (skipn (Z.to_nat pos) buffer = frame) as Hskip by apply skipn_size_app.
  change (Ascii.eqb "$" "+") with false. change (Ascii.eqb "$" "-") with false.
  change (Ascii.eqb "$" "$") with true. cbv iota.
  assert (find_hash buffer pos = Some (pos + 1 + Str.size body)) as ->.
  { unfold find_hash.
    replace (skipn (Z.to_nat (pos + 1)) buffer) with (body ++ "#"%char :: c1 :: c2 :: rest).
    - apply find_hash_from_body; [assumption | lia].
    - unfold buffer, frame.
      replace (pre ++ "$"%char :: body ++ "#"%char :: c1 :: c2 :: rest)
        with ((pre ++ ["$"%char]) ++ body ++ "#"%char :: c1 :: c2 :: rest)
        by (rewrite <- app_assoc; reflexivity).
      replace (pos + 1) with (Str.size (pre ++ ["$"%char]))
        by (unfold pos, Str.size; rewrite length_app; simpl List.length; lia).
      symmetry. apply skipn_size_app. }
  replace (Str.size buffer <=? pos + 1 + Str.size body + 2) with false
    by (symmetry; apply Z.leb_gt; lia).
  replace (pos + 1 + Str.size body + 3 - pos) with packet_len by (unfold packet_len; lia).
  rewrite Hskip. reflexivity.
Qed.

(** The packet [$k#6b] is accepted, and nothing follows its acknowledgement. *)
Lemma kill_packet_gets_no_reply :
  Packet.is_valid (Packet.parse_command (lit "$k#6b") 5) = true
  /\ fst (server_next Fixture.idle O Fixture.state0 5 (lit "$k#6b")) = [lit "+"].
Proof. split; reflexivity. Qed.

(** C2, amended. Whenever the loop of [server_next] stands at a complete
    frame (a '$', a body, a '#' and two more characters in the receive
    buffer), the first thing it sends is the acknowledgement [+], whatever
    the checksum and whatever the handler does.  A frame with a bad checksum
    is then answered by [-].  An accepted packet is then answered by the
    framed reply of its handler, which begins with '$', if the handler
    returns and leaves [server_die] unset, and by the empty frame [$#00] if
    no entry of the dispatch table matches; if the handler leaves
    [server_die] set nothing is sent for this packet after the [+], and if
    it does not return nothing is sent at all after it. *)
Theorem ack_before_reply (C : Collaborators) (gas fuel : nat) (state : EmuEnvState)
  (pre body : bytes) (c1 c2 : ascii) (rest : bytes) :
  no_char "#" body ->
  let frame := "$"%char :: body ++ "#"%char :: c1 :: c2 :: rest in
  let buffer := pre ++ frame in
  let next_pos := Str.size pre + (Str.size body + 4) in
  let command := Packet.parse_command frame (Str.size body + 4) in
  exists more,
    fst (server_loop C (S gas) fuel state buffer (Str.size pre)) = lit "+" :: more
    /\ (Packet.is_valid command = false ->
        more = lit "-" :: fst (server_loop C gas fuel state buffer next_pos))
    /\ (Packet.is_valid command = true ->
        match lookup_function C command with
        | None =>
            more = lit "$#00"
                   :: fst (server_loop C gas fuel
                             (with_gdb state (set_last_reply (gdb state) [])) buffer next_pos)
        | Some f =>
            match function f fuel state command with
            | Ok (r, state') =>
                let tail :=
                  fst (server_loop C gas fuel
                         (with_gdb state' (set_last_reply (gdb state') r)) buffer next_pos) in
                if server_die (gdb state') then more = tail
                else more = Packet.server_reply_text r :: tail
                     /\ hd_error (Packet.server_reply_text r) = Some "$"%char
            | Fault _ | Hang => more = []
            end
        end).
Proof.
  intros Hno frame buffer next_pos command.
  pose proof (server_loop_frame_at C gas fuel state pre body c1 c2 rest Hno) as Hstep.
  cbv zeta in Hstep. fold frame in Hstep. fold buffer in Hstep. fold command in Hstep.
  fold next_pos in Hstep. rewrite Hstep. clear Hstep.
  unfold emit at 1. cbn [fst].
  eexists. split; [reflexivity |]. split.
  - intros Hinvalid. rewrite Hinvalid. reflexivity.
  - intros Hvalid. rewrite Hvalid. rewrite dispatch_lookup. unfold lookup_function.
    destruct (find _ (functions C)) as [f |].
    + destruct (function f fuel state command) as [[r state'] | e |]; try reflexivity.
      cbv zeta. cbn [gdb with_gdb set_last_reply server_die].
      destruct (server_die (gdb state')); [reflexivity | split; reflexivity].
    + reflexivity.
Qed.

Lemma ack_before_reply_witness :
  exists more,
    fst (server_loop Fixture.idle 6 O Fixture.state0 (lit "$qC#b4") 0) = lit "+" :: more
    /\ more = [lit "$QC000000-1#12"].
Proof.
  destruct (ack_before_reply Fixture.idle 5 O Fixture.state0 [] (lit "qC") "b" "4" [])
    as (more & Hsent & _ & Hvalid).
  - repeat constructor.
  - exists more. split; [exact Hsent |].
    specialize (Hvalid eq_refl). vm_compute in Hvalid. exact (proj1 Hvalid).
Defined.

(** A single frame arriving on an empty receive buffer: what is sent. *)
Lemma server_next_single_frame (C : Collaborators) (fuel : nat) (state : EmuEnvState)
  (body : bytes) (c1 c2 : ascii) :
  no_char "#" body ->
  server_die (gdb state) = false ->
  recv_buffer (gdb state) = [] ->
  let temp := "$"%char :: body ++ "#"%char :: c1 :: c2 :: [] in
  let command := Packet.parse_command temp (Str.size temp) in
  fst (server_next C fuel state (Str.size temp) temp)
  = lit "+"
    :: (if Packet.is_valid command then
          match lookup_function C command with
          | None => [lit "$#00"]
          | Some f =>
              match function f fuel state command with
              | Ok (r, state') =>
                  if server_die (gdb state') then [] else [Packet.server_reply_text r]
              | Fault _ | Hang => []
              end
          end
        else [lit "-"]).
Proof.
  intros Hno Hdie Hbuf temp command.
  rewrite server_next_transcript by (assumption || discriminate).
  assert (Str.size temp = Str.size body + 4) as Hsize.
  { unfold temp, Str.size. simpl List.length. rewrite length_app. simpl List.length. lia. }
  assert (exists gas, List.length temp = S gas) as [gas Hgas].
  { destruct temp eqn:E; [discriminate | eexists; reflexivity]. }
  pose proof (server_loop_frame_at C (S gas) fuel state [] body c1 c2 [] Hno) as Hframe.
  cbv zeta in Hframe. cbn [app] in Hframe. change (Str.size []) with 0 in Hframe.
  fold temp in Hframe. rewrite Z.add_0_l, <- Hsize in Hframe. fold command in Hframe.
  rewrite Hgas, Hframe. unfold emit. cbn [fst]. f_equal.
  destruct (Packet.is_valid command).
  - rewrite dispatch_lookup. unfold lookup_function.
    destruct (find (fun f => command_begins_with command (name f)) (functions C)) as [f |].
    + destruct (function f fuel state command) as [[r state'] | e |]; try reflexivity.
      cbv zeta. rewrite server_loop_at_end. unfold emits. cbn [fst gdb with_gdb server_die set_last_reply].
      destruct (server_die (gdb state')); reflexivity.
    + rewrite server_loop_at_end. reflexivity.
  - rewrite server_loop_at_end. reflexivity.
Qed.

(** C5. The receive buffer [$k#6b$D#44]: the first packet sets
    [server_die] and gets no reply; the loop of [server_next] goes on to the
    second packet all the same, acknowledges it and answers it with the
    empty frame. *)
Theorem output_after_server_die :
  fst (server_next Fixture.idle O Fixture.state0 5 (lit "$k#6b")) = [lit "+"]
  /\ match snd (server_next Fixture.idle O Fixture.state0 5 (lit "$k#6b")) with
     | Ok (_, state) => server_die (gdb state) = true
     | _ => False
     end
  /\ fst (server_next Fixture.idle O Fixture.state0 10 (lit "$k#6b$D#44"))
     = [lit "+"; lit "+"; lit "$#00"].
Proof. repeat split. Qed.

(** In a state with [server_die] set, any complete frame met by the loop is
    still acknowledged. *)
Lemma server_loop_acknowledges_after_die (C : Collaborators) (gas fuel : nat)
  (state : EmuEnvState) (pre body : bytes) (c1 c2 : ascii) (rest : bytes) :
  no_char "#" body ->
  server_die (gdb state) = true ->
  exists more,
    fst (server_loop C (S gas) fuel state
           (pre ++ "$"%char :: body ++ "#"%char :: c1 :: c2 :: rest) (Str.size pre))
    = lit "+" :: more.
Proof.
  intros Hno _. rewrite server_loop_frame_at by exact Hno. cbv zeta.
  unfold emit at 1. cbn [fst]. eexists. reflexivity.
Qed.

Lemma find_hash_from_bounds (s : bytes) :
  forall i size h, find_hash_from s i size = Some h -> i <= h.
Proof.
  induction s as [| c s IH]; intros i size h H; [discriminate |].
  cbn [find_hash_from] in H. destruct (i + 2 <? size); [| discriminate].
  destruct (Ascii.eqb c "#").
  - injection H as <-. lia.
  - apply IH in H. lia.
Qed.

(** The gas of the loop of [server_next] is never used up: beyond the number
    of characters left in the buffer, more gas changes nothing. *)
Lemma server_loop_gas (C : Collaborators) (fuel : nat) (recv_buffer : bytes) (gas : nat) :
  forall state pos,
  Str.size recv_buffer - pos < Z.of_nat gas -> (1 <= gas)%nat ->
  server_loop C gas fuel state recv_buffer pos
  = server_loop C (S gas) fuel state recv_buffer pos.
Proof.
  induction gas as [| gas IH]; intros state pos Hleft Hgas; [lia |].
  remember (S gas) as gas1 eqn:Hgas1.
  cbn [server_loop]. rewrite Hgas1 at 1. cbn [server_loop].
  destruct (pos <? Str.size recv_buffer) eqn:Hpos; [| reflexivity].
  apply Z.ltb_lt in Hpos.
  assert (forall state' pos', pos < pos' ->
            server_loop C gas fuel state' recv_buffer pos'
            = server_loop C gas1 fuel state' recv_buffer pos') as Hnext.
  { intros state' pos' Hlt. subst gas1. apply IH; lia. }
  destruct (Ascii.eqb (Str.at_ recv_buffer pos) "+"); [apply Hnext; lia |].
  destruct (Ascii.eqb (Str.at_ recv_buffer pos) "-"); [rewrite Hnext by lia; reflexivity |].
  destruct (Ascii.eqb (Str.at_ recv_buffer pos) "$"); [| apply Hnext; lia].
  destruct (find_hash recv_buffer pos) as [h |] eqn:Hh; [| reflexivity].
  apply find_hash_from_bounds in Hh.
  destruct (Str.size recv_buffer <=? h + 2); [reflexivity |].
  f_equal.
  destruct (Packet.is_valid _).
  - destruct (dispatch _ _ _ _) as [sent [state' | e |]]; try reflexivity.
    rewrite Hnext by lia. reflexivity.
  - rewrite Hnext by lia. reflexivity.
Qed.

(** ** Memory reads *)

Lemma find_from_skip (s : bytes) (ch : ascii) :
  forall rest i, no_char ch s ->
  Str.find_from (s ++ ch :: rest) ch i = i + Str.size s.
Proof.
  unfold Str.size. induction s as [| c s IH]; intros rest i Hno.
  - simpl. rewrite Ascii.eqb_refl. lia.
  - inversion Hno as [| ? ? Hc Hs]; subst. cbn [app Str.find_from]. rewrite Hc.
    rewrite IH by exact Hs. simpl List.length. lia.
Qed.

Lemma substr_middle (pre mid post : bytes) (count : Z) :
  Str.size mid <= count ->
  (post = [] \/ count = Str.size mid) ->
  Str.substr (pre ++ mid ++ post) (Str.size pre) count = Ok mid.
Proof.
  intros Hcount Hpost. unfold Str.substr, Str.size in *.
  rewrite !length_app.
  replace (Z.of_nat (List.length pre + (List.length mid + List.length post))
           <? Z.of_nat (List.length pre)) with false by (symmetry; apply Z.ltb_ge; lia).
  rewrite Nat2Z.id, skipn_length_app. f_equal.
  destruct Hpost as [-> | ->].
  - rewrite app_nil_r. apply firstn_all2. simpl List.length. lia.
  - replace (Z.to_nat (Z.min (Z.of_nat (List.length mid)) _)) with (List.length mid) by lia.
    rewrite firstn_app, Nat.sub_diag, firstn_all. simpl. apply app_nil_r.
Qed.

Lemma check_memory_loop_probes (m : MemState) (end_ : Z) (fuel : nat) :
  forall it,
  0 < page_size m -> 0 <= it -> end_ + page_size m <= 2 ^ 32 ->
  end_ - it <= (Z.of_nat fuel - 1) * page_size m -> (1 <= fuel)%nat ->
  exists b, check_memory_loop fuel m it end_ = Ok b /\ (b = true <-> probes_valid m it end_).
Proof.
  induction fuel as [| fuel IH]; intros it Hps Hit Hend Hfuel Hone; [lia |].
  cbn [check_memory_loop]. destruct (it <? end_) eqn:Hlt.
  - apply Z.ltb_lt in Hlt. destruct (is_valid_addr m it) eqn:Hvalid; cbn [negb].
    + assert (uint32_t (it + page_size m) = it + page_size m) as ->
        by (unfold uint32_t; apply Z.mod_small; change (2 ^ 32) with 4294967296 in *; lia).
      destruct fuel as [| fuel]; [nia |].
      destruct (IH (it + page_size m)) as (b & Hb & Hiff); try lia.
      exists b. split; [exact Hb |]. rewrite Hiff. unfold probes_valid. split.
      * intros H k Hk Hlt'. destruct (Z.eq_dec k 0) as [-> | Hk0].
        -- rewrite Z.mul_0_l, Z.add_0_r. exact Hvalid.
        -- specialize (H (k - 1) ltac:(lia)).
           replace (it + page_size m + (k - 1) * page_size m) with (it + k * page_size m) in H
             by lia.
           apply H. exact Hlt'.
      * intros H k Hk Hlt'.
        replace (it + page_size m + k * page_size m) with (it + (k + 1) * page_size m)
          in * by lia.
        apply H; lia.
    + exists false. split; [reflexivity |]. split; [discriminate |].
      intros H. specialize (H 0 ltac:(lia)). rewrite Z.mul_0_l, Z.add_0_r in H.
      rewrite H in Hvalid by exact Hlt. discriminate.
  - apply Z.ltb_ge in Hlt. exists true. split; [reflexivity |]. split; [| reflexivity].
    intros _ k Hk Hlt'. nia.
Qed.

Lemma read_memory_loop_bytes (m : MemState) (address : Z) (n : nat) :
  forall (a : nat) (str : bytes),
  0 < address -> address + Z.of_nat a + Z.of_nat n <= 2 ^ 32 ->
  read_memory_loop n m address (Z.of_nat a) str
  = Ok (str ++ concat (map (fun i => Codec.hex2 (byte_at m (address + Z.of_nat i))) (seq a n))).
Proof.
  induction n as [| n IH]; intros a str Hpos Hend.
  - simpl. rewrite app_nil_r. reflexivity.
  - cbn [read_memory_loop].
    assert (uint32_t (address + Z.of_nat a) = address + Z.of_nat a) as ->
      by (unfold uint32_t; apply Z.mod_small; change (2 ^ 32) with 4294967296 in *; lia).
    cbn [seq map concat]. unfold byte_at at 1.
    destruct (Ptr_get m (address + Z.of_nat a)) as [p |] eqn:Hptr.
    + replace (Z.of_nat a + 1) with (Z.of_nat (S a)) by lia.
      rewrite IH by lia. rewrite <- app_assoc. reflexivity.
    + unfold Ptr_get in Hptr.
      replace (address + Z.of_nat a =? 0) with false in Hptr
        by (symmetry; apply Z.eqb_neq; lia).
      destruct (use_page_table m); discriminate.
Qed.

Lemma byte_at_range (m : MemState) (x : Z) : 0 <= byte_at m x < 256.
Proof.
  unfold byte_at. destruct (Ptr_get m x); [| lia].
  unfold uint8_t. change (2 ^ 8) with 256. apply Z.mod_pos_bound. lia.
Qed.

Lemma hex_dump_length (m : MemState) (a : Z) (n : nat) :
  forall s,
  List.length (concat (map (fun i => Codec.hex2 (byte_at m (a + Z.of_nat i))) (seq s n)))
  = (2 * n)%nat.
Proof.
  induction n as [| n IH]; intros s; [reflexivity |].
  cbn [seq map concat]. rewrite length_app, hex2_length by apply byte_at_range.
  rewrite IH. lia.
Qed.

Lemma hex_bytes_length (m : MemState) (a : Z) (n : nat) :
  List.length (hex_bytes m a n) = (2 * n)%nat.
Proof. apply hex_dump_length. Qed.

Lemma hex_bytes_not_EAA (m : MemState) (a : Z) (n : nat) : hex_bytes m a n <> lit "EAA".
Proof.
  intros H. apply (f_equal (@List.length ascii)) in H. rewrite hex_bytes_length in H.
  simpl in H. lia.
Qed.

(** The two fields of an [m addr,len] packet. *)
Lemma read_memory_fields (first second : bytes) :
  let content := "m"%char :: first ++ ","%char :: second in
  no_char "," first -> Str.size content < 2 ^ 64 ->
  Str.substr content 1 (size_t (Str.find content "," 0 - 1)) = Ok first
  /\ Str.substr content (size_t (Str.find content "," 0 + 1)) npos = Ok second.
Proof.
  intros content Hno Hsize.
  assert (Str.size content = Str.size first + Str.size second + 2) as Hlen.
  { unfold content, Str.size. simpl List.length. rewrite length_app. simpl List.length. lia. }
  assert (0 <= Str.size first /\ 0 <= Str.size second) as [H1 H2]
    by (unfold Str.size; lia).
  assert (Str.find content "," 0 = 1 + Str.size first) as ->.
  { unfold Str.find. replace (0 <? Str.size content) with true
      by (symmetry; apply Z.ltb_lt; lia).
    change (skipn (Z.to_nat 0) content) with content. unfold content.
    cbn [Str.find_from]. change (Ascii.eqb "m" ",") with false. cbv iota.
    rewrite find_from_skip by exact Hno. lia. }
  assert (forall x, 0 <= x < 2 ^ 64 -> size_t x = x) as Hsmall
    by (intros x Hx; unfold size_t; apply Z.mod_small; exact Hx).
  rewrite !Hsmall by lia. split.
  - replace (1 + Str.size first - 1) with (Str.size first) by lia.
    apply (substr_middle ["m"%char] first (","%char :: second)); [lia | right; reflexivity].
  - replace (1 + Str.size first + 1) with (Str.size ("m"%char :: first ++ [","%char])).
    + replace content with (("m"%char :: first ++ [","%char]) ++ second ++ [])
        by (unfold content; simpl; rewrite app_nil_r, <- app_assoc; reflexivity).
      apply substr_middle; [unfold npos; lia | left; reflexivity].
    + unfold Str.size. simpl List.length. rewrite length_app. simpl List.length. lia.
Qed.

(** The packet [m0,0]: the reply is [EAA], though the empty range touches
    no page. *)
Lemma read_memory_refuses_address_zero :
  let command := Packet.parse_command (wire_frame (lit "m0,0")) 8 in
  Packet.content_string command = Ok (lit "m0,0")
  /\ cmd_read_memory Fixture.idle 1%nat Fixture.state0 command = Ok (lit "EAA", Fixture.state0)
  /\ range_valid Fixture.mem0 0 0.
Proof.
  split; [reflexivity |]. split; [reflexivity |]. intros x Hx. lia.
Qed.

(** A page-aligned start: the addresses looked at are the first addresses
    of the pages of the range. *)
Lemma aligned_probes_cover (m : MemState) (a len : Z) :
  0 < page_size m -> a mod page_size m = 0 -> probes_cover m a len.
Proof.
  intros Hps Halign x Hx.
  pose proof (Z.div_mod (x - a) (page_size m) ltac:(lia)) as Hdm.
  pose proof (Z.mod_pos_bound (x - a) (page_size m) Hps) as Hmod.
  assert (0 <= (x - a) / page_size m) as Hk by (apply Z.div_pos; lia).
  exists ((x - a) / page_size m). split; [exact Hk |]. split; [nia |].
  apply Z.div_exact in Halign; [| lia].
  replace x with ((a / page_size m + (x - a) / page_size m) * page_size m
                  + (x - a) mod page_size m) at 2 by nia.
  rewrite Z.div_add_l by lia. rewrite (Z.div_small ((x - a) mod _)) by exact Hmod.
  replace (a + (x - a) / page_size m * page_size m)
    with ((a / page_size m + (x - a) / page_size m) * page_size m) by nia.
  rewrite Z.div_mul by lia. lia.
Qed.

(** A range inside one page: the page is the page of the start. *)
Lemma one_page_probes_cover (m : MemState) (a len : Z) :
  0 < page_size m -> a / page_size m = (a + len - 1) / page_size m -> probes_cover m a len.
Proof.
  intros Hps Hpage x Hx. exists 0. split; [lia |]. split; [lia |].
  rewrite Z.mul_0_l, Z.add_0_r.
  pose proof (Z.div_le_mono a x (page_size m) Hps ltac:(lia)).
  pose proof (Z.div_le_mono x (a + len - 1) (page_size m) Hps ltac:(lia)).
  lia.
Qed.

Lemma range_valid_probes (m : MemState) (a len : Z) :
  0 < page_size m -> range_valid m a len -> probes_valid m a (a + len).
Proof. intros Hps H k Hk Hlt. apply H. nia. Qed.

Lemma probes_valid_cover (m : MemState) (a len : Z) :
  probes_cover m a len -> probes_valid m a (a + len) -> range_valid m a len.
Proof.
  intros Hcover H x Hx. destruct (Hcover x Hx) as (k & Hk & Hlt & Hpage).
  specialize (H k Hk Hlt). unfold is_valid_addr in *. rewrite <- Hpage. exact H.
Qed.

(** The loop of [cmd_read_memory] comes to its end only if it never reaches
    the address 0, that is if the range does not run past 2^32; what it
    has appended then are the bytes from [address] on. *)
Lemma read_memory_loop_ok (m : MemState) (address : Z) (n : nat) :
  forall (a : nat) (str r : bytes),
  0 < address -> address + Z.of_nat a <= 2 ^ 32 ->
  read_memory_loop n m address (Z.of_nat a) str = Ok r ->
  r = str ++ concat (map (fun i => Codec.hex2 (byte_at m (address + Z.of_nat i))) (seq a n)).
Proof.
  induction n as [| n IH]; intros a str r Hpos Hend Hrun.
  - cbn [read_memory_loop] in Hrun. injection Hrun as <-. simpl. rewrite app_nil_r. reflexivity.
  - cbn [read_memory_loop] in Hrun. change (2 ^ 32) with 4294967296 in *.
    destruct (Z.eq_dec (address + Z.of_nat a) 4294967296) as [Htop | Hbelow].
    + rewrite Htop in Hrun. discriminate Hrun.
    + assert (uint32_t (address + Z.of_nat a) = address + Z.of_nat a) as Hsmall
        by (unfold uint32_t; apply Z.mod_small; change (2 ^ 32) with 4294967296; lia).
      rewrite Hsmall in Hrun.
      cbn [seq map concat]. unfold byte_at at 1.
      destruct (Ptr_get m (address + Z.of_nat a)) as [p |]; [| discriminate Hrun].
      replace (Z.of_nat a + 1) with (Z.of_nat (S a)) in Hrun by lia.
      apply IH in Hrun; [| exact Hpos | lia]. rewrite Hrun, <- app_assoc. reflexivity.
Qed.

(** The loop of [check_memory_region] stops at the first invalid page it
    looks at. *)
Lemma check_memory_loop_invalid (m : MemState) (end_ : Z) (k : nat) :
  forall (it : Z) (fuel : nat),
  0 < page_size m -> 0 <= it -> end_ <= 2 ^ 32 ->
  it + Z.of_nat k * page_size m < end_ ->
  is_valid_addr m (it + Z.of_nat k * page_size m) = false ->
  (k < fuel)%nat ->
  check_memory_loop fuel m it end_ = Ok false.
Proof.
  induction k as [| k IH]; intros it fuel Hps Hit Hend Hlt Hinvalid Hfuel;
    (destruct fuel as [| fuel]; [lia |]); cbn [check_memory_loop].
  - rewrite Z.mul_0_l, Z.add_0_r in *.
    replace (it <? end_) with true by (symmetry; apply Z.ltb_lt; exact Hlt).
    rewrite Hinvalid. reflexivity.
  - replace (it <? end_) with true by (symmetry; apply Z.ltb_lt; nia).
    destruct (is_valid_addr m it); cbn [negb]; [| reflexivity].
    assert (uint32_t (it + page_size m) = it + page_size m) as ->
      by (unfold uint32_t; apply Z.mod_small; change (2 ^ 32) with 4294967296 in *; nia).
    replace (it + Z.of_nat (S k) * page_size m)
      with (it + page_size m + Z.of_nat k * page_size m) in * by lia.
    apply IH; [exact Hps | lia | exact Hend | exact Hlt | exact Hinvalid | lia].
Qed.


(** C4, amended. For the packet [m addr,len]: if the address is 0, or
    [is_valid_guest_addr_range] rejects the range, the reply is [EAA].
    Whenever the reply is not [EAA], it is the [2*len] lowercase hex digits
    of the [len] bytes from the address on.  If the address is not 0, the
    range ends below 2^32 and one of the addresses [addr],
    [addr + page_size], ... below [addr + len] lies on an invalid page, the
    reply is [EAA].  If the address is not 0 and the range is empty or ends
    at least a page below 2^32, the handler returns, and it replies [EAA]
    only if the range check rejects the range or some page the range
    touches is invalid; when, besides, every page the range touches holds
    one of the addresses [addr], [addr + page_size], ... below
    [addr + len], as it does for a page-aligned address and for a range
    inside one page, the reply is [EAA] if and only if the range check
    rejects the range or some page the range touches is invalid. *)
Theorem read_memory_reply (C : Collaborators) (state : EmuEnvState)
  (command : Packet.PacketCommand) (first second : bytes) :
  let content := "m"%char :: first ++ ","%char :: second in
  let a := Codec.parse_hex first in
  let len := Codec.parse_hex second in
  let rejected := negb (is_valid_guest_addr_range C (mem state) a (uint32_t (a + len))) in
  Packet.content_string command = Ok content ->
  no_char "," first ->
  Str.size content < 2 ^ 64 ->
  0 < page_size (mem state) ->
  (a = 0 \/ rejected = true ->
   forall fuel, cmd_read_memory C fuel state command = Ok (lit "EAA", state))
  /\ (forall fuel reply state',
      cmd_read_memory C fuel state command = Ok (reply, state') ->
      state' = state
      /\ (reply <> lit "EAA" ->
          reply = hex_bytes (mem state) a (Z.to_nat len)
          /\ Str.size reply = 2 * len /\ Forall hexchar reply))
  /\ (a <> 0 -> a + len < 2 ^ 32 ->
      (exists k, 0 <= k /\ a + k * page_size (mem state) < a + len
                 /\ is_valid_addr (mem state) (a + k * page_size (mem state)) = false) ->
      exists fuel0, forall fuel, (fuel0 <= fuel)%nat ->
      cmd_read_memory C fuel state command = Ok (lit "EAA", state))
  /\ (a <> 0 -> len = 0 \/ a + len + page_size (mem state) <= 2 ^ 32 ->
      exists fuel0, forall fuel, (fuel0 <= fuel)%nat ->
      exists reply,
        cmd_read_memory C fuel state command = Ok (reply, state)
        /\ (reply = lit "EAA" -> rejected = true \/ ~ range_valid (mem state) a len)
        /\ (probes_cover (mem state) a len ->
            (reply = lit "EAA" <-> rejected = true \/ ~ range_valid (mem state) a len)))
  /\ (a mod page_size (mem state) = 0
      \/ a / page_size (mem state) = (a + len - 1) / page_size (mem state) ->
      probes_cover (mem state) a len).
Proof.
  intros content a len rejected Hcontent Hno Hsize Hps.
  destruct (read_memory_fields first second Hno Hsize) as [Hfirst Hsecond].
  fold content in Hfirst, Hsecond.
  assert (0 <= a < 2 ^ 32 /\ 0 <= len < 2 ^ 32) as [Ha Hlen].
  { unfold a, len, Codec.parse_hex, uint32_t. split; apply Z.mod_pos_bound; lia. }
  assert (forall fuel,
            cmd_read_memory C fuel state command
            = if rejected then Ok (lit "EAA", state)
              else
                valid <- check_memory_region fuel a len (mem state) ;;
                if negb valid then Ok (lit "EAA", state)
                else
                  str <- read_memory_loop (Z.to_nat len) (mem state) a 0 [] ;;
                  Ok (str, state)) as Hrun.
  { intros fuel. unfold cmd_read_memory. rewrite Hcontent. cbn [bind]. rewrite Hfirst.
    cbn [bind]. rewrite Hsecond. cbn [bind]. reflexivity. }
  split; [| split; [| split; [| split]]].
  - intros Hguard fuel. rewrite Hrun. destruct rejected; [reflexivity |].
    destruct Hguard as [Ha0 | Hrej]; [| discriminate Hrej].
    rewrite Ha0. unfold check_memory_region. cbn [Z.eqb bind negb]. reflexivity.
  - intros fuel reply state' H. rewrite Hrun in H.
    destruct rejected.
    { injection H as <- <-. split; [reflexivity |]. intros Hne. destruct (Hne eq_refl). }
    unfold check_memory_region in H. destruct (a =? 0) eqn:Hzero.
    { cbn [bind negb] in H. injection H as <- <-. split; [reflexivity |].
      intros Hne. destruct (Hne eq_refl). }
    apply Z.eqb_neq in Hzero.
    destruct (check_memory_loop fuel (mem state) a (uint32_t (a + len))) as [[|] | e |];
      cbn [bind negb] in H; try discriminate H.
    + destruct (read_memory_loop (Z.to_nat len) (mem state) a 0 []) as [str | e |] eqn:Hloop;
        cbn [bind] in H; try discriminate H.
      injection H as <- <-. split; [reflexivity |]. intros _.
      change 0 with (Z.of_nat 0) in Hloop. apply read_memory_loop_ok in Hloop; [| lia | lia].
      cbn [app] in Hloop. fold (hex_bytes (mem state) a (Z.to_nat len)) in Hloop. subst str.
      split; [reflexivity |]. split.
      * unfold Str.size. rewrite hex_bytes_length. lia.
      * apply concat_hexchar. apply Forall_map, Forall_forall.
        intros i _. apply pad_fmt_hexchar.
    + injection H as <- <-. split; [reflexivity |]. intros Hne. destruct (Hne eq_refl).
  - intros Hnz Htop (k & Hk & Hlt & Hinvalid).
    exists (S (Z.to_nat k)). intros fuel Hfuel. rewrite Hrun.
    destruct rejected; [reflexivity |].
    unfold check_memory_region.
    replace (a =? 0) with false by (symmetry; apply Z.eqb_neq; exact Hnz).
    assert (uint32_t (a + len) = a + len) as ->
      by (unfold uint32_t; apply Z.mod_small; change (2 ^ 32) with 4294967296 in *; lia).
    rewrite (check_memory_loop_invalid (mem state) (a + len) (Z.to_nat k) a fuel);
      try rewrite Z2Nat.id by exact Hk; try assumption; try lia.
    reflexivity.
  - intros Hnz Hend.
    assert (uint32_t (a + len) = a + len) as Hwrap
      by (unfold uint32_t; apply Z.mod_small; change (2 ^ 32) with 4294967296 in *; lia).
    exists (Z.to_nat (len / page_size (mem state)) + 2)%nat. intros fuel Hfuel.
    rewrite Hrun. destruct rejected eqn:Hrej.
    { eexists. split; [reflexivity |]. split; [intros _; left; reflexivity |].
      intros _. split; [intros _; left; reflexivity | reflexivity]. }
    unfold check_memory_region.
    replace (a =? 0) with false by (symmetry; apply Z.eqb_neq; exact Hnz).
    rewrite Hwrap.
    assert (exists b, check_memory_loop fuel (mem state) a (a + len) = Ok b
                      /\ (b = true <-> probes_valid (mem state) a (a + len)))
      as (b & Hb & Hiff).
    { destruct Hend as [Hempty | Hend].
      - exists true. rewrite Hempty, Z.add_0_r. destruct fuel as [| fuel]; [lia |].
        cbn [check_memory_loop]. rewrite Z.ltb_irrefl. split; [reflexivity |].
        split; [| reflexivity]. intros _ k Hk Hlt. nia.
      - apply check_memory_loop_probes; try lia.
        pose proof (Z.div_mod len (page_size (mem state)) ltac:(lia)) as Hdm.
        pose proof (Z.mod_pos_bound len (page_size (mem state)) Hps) as Hmod.
        assert (0 <= len / page_size (mem state)) by (apply Z.div_pos; lia).
        assert (len / page_size (mem state) + 1 <= Z.of_nat fuel - 1) by lia.
        nia. }
    rewrite Hb. cbn [bind]. destruct b; cbn [negb].
    + assert (a + len <= 2 ^ 32) as Htop by (change (2 ^ 32) with 4294967296 in *; lia).
      pose proof (read_memory_loop_bytes (mem state) a (Z.to_nat len) O []) as Hread.
      change (Z.of_nat 0) with 0 in Hread. rewrite Hread by lia. cbn [bind app].
      fold (hex_bytes (mem state) a (Z.to_nat len)).
      eexists. split; [reflexivity |].
      assert (hex_bytes (mem state) a (Z.to_nat len) = lit "EAA" -> False) as Hnot
        by apply hex_bytes_not_EAA.
      split; [intros H; destruct (Hnot H) |].
      intros Hcover. split.
      * intros H. destruct (Hnot H).
      * intros [H | H]; [discriminate H |]. exfalso. apply H.
        apply probes_valid_cover; [exact Hcover |]. apply Hiff. reflexivity.
    + eexists. split; [reflexivity |].
      assert (~ range_valid (mem state) a len) as Hinvalid.
      { intros H. apply range_valid_probes in H; [| exact Hps].
        apply Hiff in H. discriminate H. }
      split; [intros _; right; exact Hinvalid |].
      intros _. split; [intros _; right; exact Hinvalid | reflexivity].
  - intros [Halign | Hpage].
    + apply aligned_probes_cover; assumption.
    + apply one_page_probes_cover; assumption.
Qed.

Lemma read_memory_reply_witness :
  let command := Packet.parse_command (wire_frame (lit "m10004,4")) 12 in
  let a := Codec.parse_hex (lit "10004") in
  let len := Codec.parse_hex (lit "4") in
  exists fuel0, forall fuel, (fuel0 <= fuel)%nat ->
  exists reply,
    cmd_read_memory Fixture.idle fuel Fixture.state0 command = Ok (reply, Fixture.state0)
    /\ (reply = lit "EAA"
        <-> negb (is_valid_guest_addr_range Fixture.idle (mem Fixture.state0) a
                    (uint32_t (a + len))) = true
            \/ ~ range_valid (mem Fixture.state0) a len).
Proof.
  intros command a len.
  destruct (read_memory_reply Fixture.idle Fixture.state0 command (lit "10004") (lit "4"))
    as (_ & _ & _ & Hreply & Hcover);
    [reflexivity | repeat constructor | reflexivity | reflexivity |].
  destruct Hreply as [fuel0 Hreply];
    [vm_compute; discriminate | right; vm_compute; discriminate |].
  exists fuel0. intros fuel Hfuel. destruct (Hreply fuel Hfuel) as (reply & Hrun & _ & Hiff).
  exists reply. split; [exact Hrun |]. apply Hiff, Hcover. right. reflexivity.
Defined.

Example read_memory_ex :
  cmd_read_memory Fixture.idle 3%nat Fixture.state0
    (Packet.parse_command (wire_frame (lit "m10000,4")) 12)
  = Ok (lit "191a1b1c", Fixture.state0).
Proof. reflexivity. Qed.

(** A read that does not start at the beginning of a page. *)
Example read_memory_within_page_ex :
  cmd_read_memory Fixture.idle 3%nat Fixture.state0
    (Packet.parse_command (wire_frame (lit "m10004,4")) 12)
  = Ok (lit "1d1e1f20", Fixture.state0).
Proof. reflexivity. Qed.

(** With a range check that accepts everything, a range that starts on the
    last byte of a valid page and runs into an invalid one is read: the loop
    of [check_memory_region] looks at the address 0x1ffff only. *)
Example read_memory_unaligned_ex :
  cmd_read_memory Fixture.idle 3%nat Fixture.state0
    (Packet.parse_command (wire_frame (lit "m1ffff,2")) 12)
  = Ok (lit "3132", Fixture.state0)
  /\ is_valid_addr Fixture.mem0 131072 = false.
Proof. split; reflexivity. Qed.

(** ** The actions of a [vCont] body *)

Lemma split_on_cases (sep : ascii) (s : bytes) :
  (no_char sep s /\ split_on sep s = [s])
  \/ (exists piece rest,
        s = piece ++ sep :: rest /\ no_char sep piece
        /\ split_on sep s = piece :: split_on sep rest).
Proof.
  induction s as [| c s IH].
  - left. split; [constructor | reflexivity].
  - cbn [split_on]. destruct (Ascii.eqb c sep) eqn:E.
    + apply Ascii.eqb_eq in E. subst c. right. exists [], s.
      split; [reflexivity |]. split; [constructor | reflexivity].
    + destruct IH as [[Hno Hs] | (piece & rest & Hs & Hno & Hsplit)].
      * left. rewrite Hs. split; [constructor; assumption | reflexivity].
      * right. exists (c :: piece), rest. rewrite Hsplit. subst s.
        split; [reflexivity |]. split; [constructor; assumption | reflexivity].
Qed.

Lemma find_from_none (s : bytes) (ch : ascii) :
  forall i, no_char ch s -> Str.find_from s ch i = npos.
Proof.
  induction s as [| c s IH]; intros i Hno; [reflexivity |].
  inversion Hno as [| ? ? Hc Hs]; subst. cbn [Str.find_from]. rewrite Hc. apply IH, Hs.
Qed.

Lemma skipn_split (content : bytes) (n : nat) (s : bytes) :
  skipn n content = s -> (n <= List.length content)%nat ->
  content = firstn n content ++ s /\ List.length (firstn n content) = n.
Proof.
  intros Hs Hn. split.
  - rewrite <- Hs. symmetry. apply firstn_skipn.
  - apply firstn_length_le. exact Hn.
Qed.

Lemma substr_suffix (content s : bytes) (pos count : Z) :
  0 <= pos <= Str.size content ->
  skipn (Z.to_nat pos) content = s ->
  Str.substr content pos count = Ok (firstn (Z.to_nat (Z.min count (Str.size s))) s).
Proof.
  intros Hpos Hs. unfold Str.substr.
  replace (Str.size content <? pos) with false by (symmetry; apply Z.ltb_ge; lia).
  rewrite Hs. do 3 f_equal. unfold Str.size in *. rewrite <- Hs, length_skipn. lia.
Qed.

Lemma firstn_app_exact (a b : bytes) : firstn (List.length a) (a ++ b) = a.
Proof.
  rewrite firstn_app, Nat.sub_diag, firstn_all. simpl. apply app_nil_r.
Qed.

Lemma vcont_loop_honors (C : Collaborators) (fuel : nat) (state : EmuEnvState)
  (content : bytes) :
  Str.size content < 2 ^ 64 ->
  forall (gas : nat) (index : Z) (s : bytes),
  0 <= index -> index + 1 <= Str.size content ->
  skipn (Z.to_nat (index + 1)) content = s ->
  (List.length s < gas)%nat ->
  vcont_loop C gas fuel state content index
  = match find is_vcont_action (map action_letter (split_on ";" s)) with
    | Some cmd => vcont_action C fuel state cmd
    | None => Ok ([], state)
    end.
Proof.
  intros Hsize. induction gas as [| gas IH]; intros index s Hindex Hend Hs Hgas; [lia |].
  assert (forall x, 0 <= x < 2 ^ 64 -> size_t x = x) as Hsmall
    by (intros x Hx; unfold size_t; apply Z.mod_small; exact Hx).
  assert (Str.size s = Str.size content - (index + 1)) as Hlen
    by (unfold Str.size in *; rewrite <- Hs, length_skipn; lia).
  cbn [vcont_loop]. rewrite (Hsmall (index + 1)) by lia.
  destruct (split_on_cases ";" s) as [[Hno Hsplit] | (piece & rest & Hpiece & Hno & Hsplit)];
    rewrite Hsplit; cbn [map find].
  - assert (Str.find content ";" (index + 1) = npos) as ->.
    { unfold Str.find. destruct (index + 1 <? Str.size content); [| reflexivity].
      rewrite Hs. apply find_from_none, Hno. }
    rewrite (substr_suffix content s) by (assumption || lia). cbn [bind].
    rewrite Hsmall by (unfold npos; lia).
    replace (Z.to_nat (Z.min (npos - index - 1) (Str.size s))) with (List.length s)
      by (unfold npos, Str.size in *; lia).
    rewrite firstn_all. fold (action_letter s).
    destruct (is_vcont_action (action_letter s)); reflexivity.
  - assert (Str.size s = Str.size piece + 1 + Str.size rest) as Hlen'.
    { rewrite Hpiece. unfold Str.size. rewrite length_app. simpl List.length. lia. }
    assert (0 <= Str.size piece /\ 0 <= Str.size rest) as [Hp Hr] by (unfold Str.size; lia).
    assert (Str.find content ";" (index + 1) = index + 1 + Str.size piece) as ->.
    { unfold Str.find.
      replace (index + 1 <? Str.size content) with true by (symmetry; apply Z.ltb_lt; lia).
      rewrite Hs, Hpiece. apply find_from_skip, Hno. }
    rewrite (substr_suffix content s) by (assumption || lia). cbn [bind].
    rewrite Hsmall by lia.
    replace (Z.to_nat (Z.min (index + 1 + Str.size piece - index - 1) (Str.size s)))
      with (List.length piece) by (unfold Str.size in *; lia).
    assert (firstn (List.length piece) s = piece) as ->
      by (rewrite Hpiece; apply firstn_app_exact).
    fold (action_letter piece).
    destruct (is_vcont_action (action_letter piece)); [reflexivity |].
    replace (index + 1 + Str.size piece =? npos) with false
      by (symmetry; apply Z.eqb_neq; unfold npos; lia).
    apply IH; try lia.
    + replace (Z.to_nat (index + 1 + Str.size piece + 1))
        with (List.length (piece ++ [";"%char]) + Z.to_nat (index + 1))%nat
        by (rewrite length_app; unfold Str.size; simpl List.length; lia).
      rewrite <- skipn_skipn, Hs, Hpiece.
      replace (piece ++ ";"%char :: rest) with ((piece ++ [";"%char]) ++ rest)
        by (rewrite <- app_assoc; reflexivity).
      apply skipn_length_app.
    + unfold Str.size in *. lia.
Qed.

Lemma cmd_continue_honors (C : Collaborators) (fuel : nat) (state : EmuEnvState)
  (command : Packet.PacketCommand) (content : bytes) :
  Packet.content_string command = Ok content ->
  6 <= Str.size content < 2 ^ 64 ->
  cmd_continue C fuel state command
  = match honored_action content with
    | Some cmd => vcont_action C fuel state cmd
    | None => Ok ([], state)
    end.
Proof.
  intros Hcontent Hsize. unfold cmd_continue. rewrite Hcontent. cbn [bind].
  apply (vcont_loop_honors C fuel state content ltac:(lia) _ 5 (skipn 6 content));
    try lia; try reflexivity.
  rewrite length_skipn. lia.
Qed.

(** ** What an honored action returns *)

Lemma bind_Ok {A B : Type} (c : outcome A) (k : A -> outcome B) (b : B) :
  bind c k = Ok b -> exists a, c = Ok a /\ k a = Ok b.
Proof. destruct c as [a | e |]; simpl; intros H; try discriminate. eauto. Qed.

Lemma env_quantum_current (C : Collaborators) (state : EmuEnvState) :
  current_thread (gdb (env_quantum C state)) = current_thread (gdb state).
Proof. unfold env_quantum. destruct (guest_run C (kernel state)). reflexivity. Qed.

Lemma env_quantum_inferior (C : Collaborators) (state : EmuEnvState) :
  inferior_thread (gdb (env_quantum C state)) = inferior_thread (gdb state).
Proof. unfold env_quantum. destruct (guest_run C (kernel state)). reflexivity. Qed.

Lemma cond_wait_current (C : Collaborators) (pred : EmuEnvState -> bool) (fuel : nat) :
  forall state state',
  cond_wait C fuel pred state = Ok state' ->
  current_thread (gdb state') = current_thread (gdb state).
Proof.
  induction fuel as [| fuel IH]; intros state state' H; cbn [cond_wait] in H;
    destruct (pred state); try congruence.
  apply IH in H. rewrite H. apply env_quantum_current.
Qed.

Lemma resume_world_current (C : Collaborators) (fuel : nat) (ids : list SceUID) :
  forall state state',
  resume_world C fuel ids state = Ok state' ->
  current_thread (gdb state') = current_thread (gdb state).
Proof.
  induction ids as [| id ids IH]; intros state state' H; cbn [resume_world] in H.
  - congruence.
  - apply bind_Ok in H. destruct H as (thread & _ & H).
    destruct (ThreadStatus_eqb (status thread) suspend).
    + apply bind_Ok in H. destruct H as (state1 & Hwait & H).
      apply IH in H. apply cond_wait_current in Hwait. rewrite H, Hwait. reflexivity.
    + apply IH in H. exact H.
Qed.

Lemma wait_break_current (C : Collaborators) (fuel : nat) :
  forall state did_break state',
  wait_break C fuel state = Ok (did_break, state') ->
  current_thread (gdb state') = current_thread (gdb state)
  /\ (did_break = false -> server_die (gdb state') = true).
Proof.
  induction fuel as [| fuel IH]; intros state did_break state' H; cbn [wait_break] in H;
    destruct (server_die (gdb state)) eqn:Hdie.
  - injection H as <- <-. split; [reflexivity | intros _; exact Hdie].
  - destruct (find_break (threads (kernel state))); [| discriminate].
    injection H as <- <-. split; [| discriminate]. rewrite env_quantum_current. reflexivity.
  - injection H as <- <-. split; [reflexivity | intros _; exact Hdie].
  - destruct (find_break (threads (kernel state))).
    + injection H as <- <-. split; [| discriminate]. rewrite env_quantum_current. reflexivity.
    + apply IH in H. destruct H as [H1 H2]. split; [| exact H2].
      rewrite H1. apply env_quantum_current.
Qed.

Lemma vcont_action_returned (C : Collaborators) (fuel : nat) (state : EmuEnvState)
  (cmd : ascii) (r : bytes) (state' : EmuEnvState) :
  vcont_action C fuel state cmd = Ok (r, state') ->
  (r = lit "S05" /\ current_thread (gdb state') = inferior_thread (gdb state'))
  \/ (is_step cmd = false /\ r = [] /\ server_die (gdb state') = true
      /\ current_thread (gdb state') = current_thread (gdb state)).
Proof.
  unfold vcont_action. intros H. apply bind_Ok in H. destruct H as (state1 & H1 & H).
  assert (current_thread (gdb state1) = current_thread (gdb state)) as Hcur1.
  { destruct (inferior_thread (gdb state) =? 0); [congruence |].
    apply bind_Ok in H1. destruct H1 as (thread & _ & H1).
    destruct (is_step cmd).
    - apply cond_wait_current in H1. exact H1.
    - injection H1 as <-. reflexivity. }
  destruct (is_step cmd).
  - injection H as <- <-. left. split; reflexivity.
  - apply bind_Ok in H. destruct H as (state2 & H2 & H).
    apply bind_Ok in H. destruct H as ([did_break state3] & H3 & H).
    apply resume_world_current in H2. apply wait_break_current in H3.
    destruct H3 as [Hcur3 Hdie]. destruct did_break; cbn [negb] in H.
    + apply bind_Ok in H. destruct H as (state4 & _ & H).
      apply bind_Ok in H. destruct H as (state5 & _ & H).
      injection H as <- <-. left. split; reflexivity.
    + injection H as <- <-. right. split; [reflexivity |]. split; [reflexivity |].
      split; [apply Hdie; reflexivity | congruence].
Qed.

(** ** An honored action returns *)

Lemma returns_ok {A : Type} (a : A) : returns (fun _ => Ok a) a.
Proof. exists O. reflexivity. Qed.

Lemma returns_ext {A : Type} (f g : nat -> outcome A) (a : A) :
  (forall fuel, f fuel = g fuel) -> returns g a -> returns f a.
Proof.
  intros Hext [fuel0 H]. exists fuel0. intros fuel Hfuel. rewrite Hext. apply H, Hfuel.
Qed.

Lemma returns_bind {A B : Type} (f : nat -> outcome A) (g : nat -> A -> outcome B)
  (a : A) (b : B) :
  returns f a -> returns (fun fuel => g fuel a) b ->
  returns (fun fuel => bind (f fuel) (g fuel)) b.
Proof.
  intros [n1 H1] [n2 H2]. exists (Nat.max n1 n2). intros fuel Hfuel.
  rewrite H1 by lia. cbn [bind]. apply H2. lia.
Qed.

Lemma cond_wait_returns (C : Collaborators) (pred : EmuEnvState -> bool) (n : nat) :
  forall state,
  pred (quanta C n state) = true ->
  exists k, returns (fun fuel => cond_wait C fuel pred state) (quanta C k state).
Proof.
  induction n as [| n IH]; intros state Hn.
  - exists O. exists O. intros fuel _. destruct fuel; cbn [cond_wait quanta] in *;
      rewrite Hn; reflexivity.
  - destruct (pred state) eqn:Hnow.
    + exists O. exists O. intros fuel _. destruct fuel; cbn [cond_wait quanta];
        rewrite Hnow; reflexivity.
    + destruct (IH (env_quantum C state) Hn) as (k & fuel0 & Hk).
      exists (S k). exists (S fuel0). intros fuel Hfuel.
      destruct fuel as [| fuel]; [lia |]. cbn [cond_wait quanta]. rewrite Hnow.
      apply Hk. lia.
Qed.

Lemma keys_put (m : list (SceUID * ThreadState)) (id : SceUID) (t : ThreadState) :
  ThreadMap.keys (ThreadMap.put m id t) = ThreadMap.keys m.
Proof.
  unfold ThreadMap.keys. induction m as [| [k t0] m IH]; [reflexivity |].
  cbn [ThreadMap.put]. destruct (k =? id); cbn [map fst]; [reflexivity |].
  rewrite IH. reflexivity.
Qed.

Lemma get_put_same (m : list (SceUID * ThreadState)) (id : SceUID) (t t' : ThreadState) :
  ThreadMap.get m id = Some t -> ThreadMap.get (ThreadMap.put m id t') id = Some t'.
Proof.
  induction m as [| [k t0] m IH]; [discriminate |].
  cbn [ThreadMap.get ThreadMap.put]. destruct (k =? id) eqn:E.
  - intros _. cbn [ThreadMap.get]. rewrite E. reflexivity.
  - intros H. cbn [ThreadMap.get]. rewrite E. apply IH, H.
Qed.

Lemma in_keys_get (m : list (SceUID * ThreadState)) (id : SceUID) :
  In id (ThreadMap.keys m) -> exists t, ThreadMap.get m id = Some t.
Proof.
  unfold ThreadMap.keys. induction m as [| [k t0] m IH]; [intros [] |].
  cbn [map fst In ThreadMap.get]. intros [-> | Hin].
  - rewrite Z.eqb_refl. eauto.
  - destruct (k =? id); eauto.
Qed.

Lemma store_thread_ids (state : EmuEnvState) (id : SceUID) (t : ThreadState) :
  thread_ids (store_thread state id t) = thread_ids state.
Proof. unfold thread_ids, store_thread. cbn. apply keys_put. Qed.

Lemma ThreadStatus_eqb_eq (a b : ThreadStatus) : ThreadStatus_eqb a b = true -> a = b.
Proof. destruct a, b; (reflexivity || discriminate). Qed.

(** A step returns once the stepped thread is in [suspend]. *)
Lemma step_returns (C : Collaborators) (state : EmuEnvState) (cmd : ascii) :
  is_step cmd = true ->
  inferior_thread (gdb state) = 0
  \/ In (inferior_thread (gdb state)) (thread_ids state)
     /\ step_ends C state (inferior_thread (gdb state)) ->
  exists state', returns (fun fuel => vcont_action C fuel state cmd) (lit "S05", state').
Proof.
  intros Hstep Hinferior. unfold vcont_action. rewrite Hstep.
  destruct (inferior_thread (gdb state) =? 0) eqn:Hzero.
  - eexists. exists O. intros fuel _. cbn [bind]. reflexivity.
  - destruct Hinferior as [H0 | [Hin Hends]]; [rewrite H0 in Hzero; discriminate |].
    destruct (in_keys_get _ _ Hin) as [thread Hget].
    destruct (Hends thread Hget) as [n Hn].
    destruct (cond_wait_returns C _ n _ Hn) as [k Hk].
    eexists.
    unfold ThreadMap.deref. rewrite Hget. cbn [bind].
    eapply returns_bind; [exact Hk |]. cbv beta. apply returns_ok.
Qed.

Section Progress.

Variable C : Collaborators.
Hypothesis live : Responsive C.

Lemma env_quantum_ids (state : EmuEnvState) :
  thread_ids (env_quantum C state) = thread_ids state.
Proof.
  unfold thread_ids, env_quantum.
  pose proof (keeps_threads C live (kernel state)) as H.
  destruct (guest_run C (kernel state)) as [k die]. exact H.
Qed.

Lemma quanta_ids (n : nat) : forall state, thread_ids (quanta C n state) = thread_ids state.
Proof.
  induction n as [| n IH]; intros state; [reflexivity |].
  cbn [quanta]. rewrite IH. apply env_quantum_ids.
Qed.

Lemma quanta_inferior (n : nat) :
  forall state, inferior_thread (gdb (quanta C n state)) = inferior_thread (gdb state).
Proof.
  induction n as [| n IH]; intros state; [reflexivity |].
  cbn [quanta]. rewrite IH. apply env_quantum_inferior.
Qed.

(** One pass of "resume the world" or "stop the world" over the thread ids
    [ids]: every wait is satisfied after finitely many quanta. *)
Lemma resume_world_returns (ids : list SceUID) :
  forall state, incl ids (thread_ids state) ->
  exists state',
    returns (fun fuel => resume_world C fuel ids state) state'
    /\ thread_ids state' = thread_ids state
    /\ inferior_thread (gdb state') = inferior_thread (gdb state).
Proof.
  induction ids as [| id ids IH]; intros state Hincl.
  - exists state. split; [apply returns_ok | split; reflexivity].
  - assert (In id (thread_ids state)) as Hin by (apply Hincl; left; reflexivity).
    assert (incl ids (thread_ids state)) as Hrest
      by (intros x Hx; apply Hincl; right; exact Hx).
    destruct (in_keys_get _ _ Hin) as [thread Hget].
    destruct (ThreadStatus_eqb (status thread) suspend) eqn:Hstatus.
    + set (state1 := store_thread state id (thread_resume C false thread)).
      assert (thread_ids state1 = thread_ids state) as Hids1 by apply store_thread_ids.
      destruct (resumed_leaves_suspend C live state id thread Hget
                  (ThreadStatus_eqb_eq _ _ Hstatus)) as [n Hn].
      destruct (cond_wait_returns C _ n state1 Hn) as [k Hk].
      destruct (IH (quanta C k state1)) as (state' & Hret & Hids & Hinf).
      { rewrite quanta_ids, Hids1. exact Hrest. }
      exists state'. split; [| split].
      * apply (returns_ext _
                 (fun fuel => bind (cond_wait C fuel (status_in id not_suspend) state1)
                                (fun s => resume_world C fuel ids s))).
        -- intros fuel. cbn [resume_world]. unfold ThreadMap.deref. rewrite Hget.
           cbn [bind]. rewrite Hstatus. reflexivity.
        -- eapply returns_bind; [exact Hk | exact Hret].
      * rewrite Hids, quanta_ids. exact Hids1.
      * rewrite Hinf, quanta_inferior. reflexivity.
    + destruct (IH state Hrest) as (state' & Hret & Hids & Hinf).
      exists state'. split; [| split; assumption].
      apply (returns_ext _ (fun fuel => resume_world C fuel ids state)); [| exact Hret].
      intros fuel. cbn [resume_world]. unfold ThreadMap.deref. rewrite Hget.
      cbn [bind]. rewrite Hstatus. reflexivity.
Qed.

Lemma stop_world_returns (ids : list SceUID) :
  forall state, incl ids (thread_ids state) ->
  exists state',
    returns (fun fuel => stop_world C fuel ids state) state'
    /\ thread_ids state' = thread_ids state
    /\ inferior_thread (gdb state') = inferior_thread (gdb state).
Proof.
  induction ids as [| id ids IH]; intros state Hincl.
  - exists state. split; [apply returns_ok | split; reflexivity].
  - assert (In id (thread_ids state)) as Hin by (apply Hincl; left; reflexivity).
    assert (incl ids (thread_ids state)) as Hrest
      by (intros x Hx; apply Hincl; right; exact Hx).
    destruct (in_keys_get _ _ Hin) as [thread Hget].
    destruct (ThreadStatus_eqb (status thread) run) eqn:Hstatus.
    + set (state1 := store_thread state id (thread_suspend C thread)).
      assert (thread_ids state1 = thread_ids state) as Hids1 by apply store_thread_ids.
      destruct (suspended_settles C live state id thread Hget
                  (ThreadStatus_eqb_eq _ _ Hstatus)) as [n Hn].
      destruct (cond_wait_returns C _ n state1 Hn) as [k Hk].
      destruct (IH (quanta C k state1)) as (state' & Hret & Hids & Hinf).
      { rewrite quanta_ids, Hids1. exact Hrest. }
      exists state'. split; [| split].
      * apply (returns_ext _
                 (fun fuel => bind (cond_wait C fuel (status_in id suspend_or_dormant) state1)
                                (fun s => stop_world C fuel ids s))).
        -- intros fuel. cbn [stop_world]. unfold ThreadMap.deref. rewrite Hget.
           cbn [bind]. rewrite Hstatus. reflexivity.
        -- eapply returns_bind; [exact Hk | exact Hret].
      * rewrite Hids, quanta_ids. exact Hids1.
      * rewrite Hinf, quanta_inferior. reflexivity.
    + destruct (IH state Hrest) as (state' & Hret & Hids & Hinf).
      exists state'. split; [| split; assumption].
      apply (returns_ext _ (fun fuel => stop_world C fuel ids state)); [| exact Hret].
      intros fuel. cbn [stop_world]. unfold ThreadMap.deref. rewrite Hget.
      cbn [bind]. rewrite Hstatus. reflexivity.
Qed.

Lemma find_break_in (m : list (SceUID * ThreadState)) (id : SceUID) :
  find_break m = Some id -> In id (ThreadMap.keys m).
Proof.
  unfold ThreadMap.keys. induction m as [| [k t] m IH]; [discriminate |].
  cbn [find_break map fst In].
  destruct (ThreadStatus_eqb (status t) suspend && hit_breakpoint (cpu t)).
  - intros H. injection H as ->. left. reflexivity.
  - intros H. right. apply IH, H.
Qed.

Lemma wait_break_returns (n : nat) :
  forall state,
  server_die (gdb (quanta C n state)) = true
  \/ find_break (threads (kernel (quanta C n state))) <> None ->
  exists did_break state',
    returns (fun fuel => wait_break C fuel state) (did_break, state')
    /\ thread_ids state' = thread_ids state
    /\ (did_break = true -> In (inferior_thread (gdb state')) (thread_ids state')).
Proof.
  induction n as [| n IH]; intros state Hn.
  - cbn [quanta] in Hn. destruct (server_die (gdb state)) eqn:Hdie.
    + exists false, state. split; [| split; [reflexivity | discriminate]].
      exists O. intros fuel _. destruct fuel; cbn [wait_break]; rewrite Hdie; reflexivity.
    + destruct Hn as [Hn | Hn]; [discriminate |].
      destruct (find_break (threads (kernel state))) as [id |] eqn:Hfind; [| congruence].
      exists true. eexists. split; [| split].
      * exists O. intros fuel _. destruct fuel; cbn [wait_break]; rewrite Hdie, Hfind;
          reflexivity.
      * rewrite env_quantum_ids. reflexivity.
      * intros _. rewrite env_quantum_inferior, env_quantum_ids. cbn.
        apply find_break_in, Hfind.
  - destruct (server_die (gdb state)) eqn:Hdie.
    + exists false, state. split; [| split; [reflexivity | discriminate]].
      exists O. intros fuel _. destruct fuel; cbn [wait_break]; rewrite Hdie; reflexivity.
    + destruct (find_break (threads (kernel state))) as [id |] eqn:Hfind.
      * exists true. eexists. split; [| split].
        -- exists O. intros fuel _. destruct fuel; cbn [wait_break]; rewrite Hdie, Hfind;
             reflexivity.
        -- rewrite env_quantum_ids. reflexivity.
        -- intros _. rewrite env_quantum_inferior, env_quantum_ids. cbn.
           apply find_break_in, Hfind.
      * destruct (IH (env_quantum C state) Hn) as (b & state' & [fuel0 Hret] & Hids & Hinf).
        exists b, state'. split; [| split].
        -- exists (S fuel0). intros fuel Hfuel. destruct fuel as [| fuel]; [lia |].
           cbn [wait_break]. rewrite Hdie, Hfind. apply Hret. lia.
        -- rewrite Hids. apply env_quantum_ids.
        -- exact Hinf.
Qed.

Lemma log_break_ok (state : EmuEnvState) :
  In (inferior_thread (gdb state)) (thread_ids state) ->
  exists state',
    log_break state = Ok state'
    /\ thread_ids state' = thread_ids state
    /\ inferior_thread (gdb state') = inferior_thread (gdb state).
Proof.
  intros Hin. destruct (in_keys_get _ _ Hin) as [thread Hget].
  unfold log_break, ThreadMap.deref. rewrite Hget. cbn [bind cpu_read].
  eexists. split; [reflexivity |]. split; [apply store_thread_ids | reflexivity].
Qed.

(** A continue returns: each of its waits is satisfied in turn. *)
Lemma continue_returns (state : EmuEnvState) (cmd : ascii) :
  is_step cmd = false ->
  inferior_thread (gdb state) = 0
  \/ In (inferior_thread (gdb state)) (thread_ids state) ->
  exists r state', returns (fun fuel => vcont_action C fuel state cmd) (r, state').
Proof.
  intros Hstep Hinferior. unfold vcont_action. rewrite Hstep.
  assert (exists state1,
            (if inferior_thread (gdb state) =? 0 then Ok state
             else
               thread <- ThreadMap.deref (threads (kernel state))
                           (inferior_thread (gdb state)) ;;
               Ok (store_thread state (inferior_thread (gdb state))
                     (thread_resume C false thread))) = Ok state1
            /\ thread_ids state1 = thread_ids state) as (state1 & Hphase1 & Hids1).
  { destruct (inferior_thread (gdb state) =? 0) eqn:Hzero.
    - exists state. split; reflexivity.
    - destruct Hinferior as [H0 | Hin]; [rewrite H0 in Hzero; discriminate |].
      destruct (in_keys_get _ _ Hin) as [thread Hget].
      unfold ThreadMap.deref. rewrite Hget. cbn [bind].
      eexists. split; [reflexivity | apply store_thread_ids]. }
  rewrite Hphase1. cbn [bind].
  destruct (resume_world_returns (thread_ids state1) state1 (incl_refl _))
    as (state2 & Hphase2 & Hids2 & _).
  destruct (breaks_or_dies C live state2) as [n Hn].
  destruct (wait_break_returns n state2 Hn) as (did_break & state3 & Hphase3 & Hids3 & Hinf3).
  destruct did_break.
  - destruct (log_break_ok state3 (Hinf3 eq_refl)) as (state4 & Hlog & Hids4 & _).
    destruct (stop_world_returns (thread_ids state4) state4 (incl_refl _))
      as (state5 & Hphase5 & _).
    eexists. eexists.
    eapply returns_bind; [exact Hphase2 |]. cbv beta.
    eapply returns_bind; [exact Hphase3 |]. cbv beta iota. cbn [negb].
    rewrite Hlog. cbn [bind].
    eapply returns_bind; [exact Hphase5 |]. cbv beta. apply returns_ok.
  - eexists. eexists.
    eapply returns_bind; [exact Hphase2 |]. cbv beta.
    eapply returns_bind; [exact Hphase3 |]. cbv beta iota. cbn [negb].
    apply returns_ok.
Qed.

End Progress.

(** ** Guest threads that respond *)

Lemma lively_threads (n : nat) :
  forall state,
  threads (kernel (quanta Lively.lively n state))
  = map (fun p => (fst p, Nat.iter n Lively.wake (snd p))) (threads (kernel state)).
Proof.
  induction n as [| n IH]; intros state.
  - cbn [quanta Nat.iter]. rewrite <- (map_id (threads (kernel state))) at 1.
    apply map_ext. intros [k t]. reflexivity.
  - cbn [quanta]. rewrite IH. cbn. rewrite map_map. apply map_ext. intros [k t]. cbn.
    f_equal. apply Nat.iter_swap.
Qed.

Lemma get_map_threads (f : ThreadState -> ThreadState) (m : list (SceUID * ThreadState))
  (id : SceUID) :
  ThreadMap.get (map (fun p => (fst p, f (snd p))) m) id = option_map f (ThreadMap.get m id).
Proof.
  induction m as [| [k t] m IH]; [reflexivity |].
  cbn [map ThreadMap.get fst snd]. destruct (k =? id); [reflexivity | exact IH].
Qed.

Lemma lively_status (n : nat) (state : EmuEnvState) (id : SceUID) :
  status_of (quanta Lively.lively n state) id
  = option_map (fun t => status (Nat.iter n Lively.wake t))
      (ThreadMap.get (threads (kernel state)) id).
Proof.
  unfold status_of. rewrite lively_threads, get_map_threads.
  destruct (ThreadMap.get (threads (kernel state)) id); reflexivity.
Qed.

Lemma handshake_quanta (n : nat) :
  forall state, quanta Handshake.guest n state = quanta Lively.lively n state.
Proof.
  induction n as [| n IH]; intros state; [reflexivity |].
  cbn [quanta]. rewrite IH. reflexivity.
Qed.

(** The status of a thread of the table [n] quanta after the thread object
    [t] has been left in its place. *)
Lemma handshake_status (n : nat) (state : EmuEnvState) (id : SceUID) (thread t : ThreadState) :
  ThreadMap.get (threads (kernel state)) id = Some thread ->
  status_of (quanta Handshake.guest n (store_thread state id t)) id
  = Some (status (Nat.iter n Lively.wake t)).
Proof.
  intros Hget. rewrite handshake_quanta, lively_status.
  unfold store_thread. cbn [kernel with_kernel threads set_threads].
  rewrite (get_put_same _ _ _ _ Hget). reflexivity.
Qed.

Lemma handshake_step_ends (state : EmuEnvState) (id : SceUID) :
  step_ends Handshake.guest state id.
Proof.
  intros thread Hget. exists 1%nat. unfold status_in.
  rewrite (handshake_status _ _ _ _ _ Hget). reflexivity.
Qed.

Lemma handshake_responsive : Responsive Handshake.guest.
Proof.
  constructor.
  - intros k. cbn. unfold ThreadMap.keys. rewrite map_map. reflexivity.
  - intros state id thread Hget _. exists 0%nat. unfold status_in.
    rewrite (handshake_status _ _ _ _ _ Hget). reflexivity.
  - intros state id thread Hget _. exists 0%nat. unfold status_in.
    rewrite (handshake_status _ _ _ _ _ Hget). reflexivity.
  - intros state.
    destruct (threads (kernel state)) as [| [id t] m] eqn:Hm.
    + exists 1%nat. left. cbn. rewrite Hm. apply orb_true_r.
    + destruct (status t) eqn:Hs; [exists 1%nat | exists 2%nat | exists 2%nat];
        right; rewrite handshake_quanta, lively_threads, Hm; cbn; rewrite Hs; discriminate.
Qed.

(** ** A guest that never meets a breakpoint *)

Lemma cond_wait_now (C : Collaborators) (fuel : nat) (pred : EmuEnvState -> bool)
  (state : EmuEnvState) :
  pred state = true -> cond_wait C fuel pred state = Ok state.
Proof. intros H. destruct fuel; cbn [cond_wait]; rewrite H; reflexivity. Qed.

Lemma find_break_none (m : list (SceUID * ThreadState)) :
  Forall (fun p => hit_breakpoint (cpu (snd p)) = false) m -> find_break m = None.
Proof.
  induction 1 as [| [id t] m Ht _ IH]; [reflexivity |].
  cbn [find_break]. cbn [snd] in Ht. rewrite Ht, andb_false_r. exact IH.
Qed.

Lemma quiet_wait_break (fuel : nat) :
  forall state,
  server_die (gdb state) = false ->
  Forall (fun p => hit_breakpoint (cpu (snd p)) = false) (threads (kernel state)) ->
  wait_break Handshake.quiet fuel state = Hang.
Proof.
  induction fuel as [| fuel IH]; intros state Hdie Hquiet; cbn [wait_break];
    rewrite Hdie, (find_break_none _ Hquiet); [reflexivity |].
  apply IH.
  - cbn. rewrite Hdie. reflexivity.
  - cbn. apply Forall_map. revert Hquiet. apply Forall_impl. intros [id t] Ht.
    cbn [fst snd] in *. unfold Handshake.settle.
    destruct (ThreadStatus_eqb (status t) run && (to_do t =? 1)); exact Ht.
Qed.

(** With guest threads that follow [resume] and [suspend] but never meet a
    breakpoint, and no shutdown, a continue does not return, whatever the
    fuel: its wait for a break goes on. *)
Lemma continue_waits_for_a_break (fuel : nat) :
  cmd_continue Handshake.quiet fuel Fixture.state0 (command_of "vCont;c") = Hang.
Proof.
  rewrite (cmd_continue_honors Handshake.quiet fuel Fixture.state0 (command_of "vCont;c")
             (lit "vCont;c")); [| reflexivity | vm_compute; split; [discriminate | reflexivity]].
  change (honored_action (lit "vCont;c")) with (Some "c"%char). cbv iota beta.
  unfold vcont_action. change (is_step "c") with false. cbv iota.
  change (inferior_thread (gdb Fixture.state0) =? 0) with true. cbv iota. cbn [bind].
  change (ThreadMap.keys (threads (kernel Fixture.state0))) with [42; 43].
  cbn [resume_world]. change (ThreadMap.deref (threads (kernel Fixture.state0)) 42)
    with (Ok (Fixture.thread0 suspend)). cbn [bind].
  change (ThreadStatus_eqb (status (Fixture.thread0 suspend)) suspend) with true. cbv iota.
  rewrite cond_wait_now by reflexivity. cbn [bind].
  match goal with
  | |- context [ThreadMap.deref ?m 43] =>
      change (ThreadMap.deref m 43) with (Ok (Fixture.thread0 suspend))
  end.
  cbn [bind]. change (ThreadStatus_eqb (status (Fixture.thread0 suspend)) suspend) with true.
  cbv iota. rewrite cond_wait_now by reflexivity. cbn [bind].
  rewrite quiet_wait_break; [reflexivity | reflexivity |].
  repeat constructor.
Qed.

(** ** The [vCont] handler *)




Example vcont_continue_ex :
  match cmd_continue Lively.lively 2%nat Fixture.state0 (command_of "vCont;t;c") with
  | Ok (r, state') =>
      r = lit "S05" /\ inferior_thread (gdb state') = 42 /\ current_thread (gdb state') = 42
      /\ map (fun p => status (snd p)) (threads (kernel state')) = [suspend; suspend]
  | _ => False
  end.
Proof. vm_compute. repeat split. Qed.

(** A step of the thread 42, with guest threads that end a step within a
    quantum. *)
Example vcont_step_ex :
  match cmd_continue Handshake.quiet 1%nat state_stopped (command_of "vCont;s") with
  | Ok (r, state') =>
      r = lit "S05" /\ current_thread (gdb state') = 42
      /\ map (fun p => status (snd p)) (threads (kernel state')) = [suspend; suspend]
  | _ => False
  end.
Proof. vm_compute. repeat split. Qed.

(** A continue with guest threads that follow [resume] and [suspend]: the
    thread 43 is resumed, the thread 42 breaks, and both are suspended
    again before [S05] is replied. *)
Example vcont_handshake_ex :
  match cmd_continue Handshake.guest 1%nat state_stopped (command_of "vCont;t;c") with
  | Ok (r, state') =>
      r = lit "S05" /\ inferior_thread (gdb state') = 42 /\ current_thread (gdb state') = 42
      /\ map (fun p => status (snd p)) (threads (kernel state')) = [suspend; suspend]
  | _ => False
  end.
Proof. vm_compute. repeat split. Qed.

(** The body [vCont] without anything after it: [substr(6, ...)] throws. *)
Example vcont_bare_ex :
  cmd_continue Fixture.idle O Fixture.state0 (command_of "vCont") = Fault std_out_of_range.
Proof. vm_compute. reflexivity. Qed.

(** ** The session after [server_die] *)

(** Called with [server_die] set, [server_next] sends nothing and returns
    -1, whatever has arrived. *)
Lemma server_next_when_dead (C : Collaborators) (fuel : nat) (state : EmuEnvState)
  (len : Z) (temp : bytes) :
  server_die (gdb state) = true ->
  server_next C fuel state len temp = ([], Ok (-1, state)).
Proof. intros Hdie. unfold server_next. rewrite Hdie. reflexivity. Qed.

(** The session loop does not read on after a call that left [server_die]
    set: the packet of the second chunk is never looked at. *)
Example server_listen_ex :
  fst (server_listen Fixture.idle O Fixture.state0 [lit "$k#6b"; lit "$g#67"]) = [lit "+"].
Proof. vm_compute. reflexivity. Qed.

(** ** The scenarios of the specification *)

(** S1, a bad checksum. *)
Example scenario_bad_checksum :
  session Fixture.idle O Fixture.state0 "$g#00" = ["+"; "-"]%string.
Proof. vm_compute. reflexivity. Qed.

(** S2, with the checksum the packet really has (c6). *)
Example scenario_query_supported :
  session Fixture.idle O Fixture.state0 "$qSupported:multiprocess+#c6"
  = ["+";
     "$multiprocess-;swbreak+;hwbreak-;qRelocInsn-;fork-events-;vfork-events-;exec-events-;vContSupported+;QThreadEvents-;no-resumed-;xmlRegisters=arm#3f"]%string.
Proof. vm_compute. reflexivity. Qed.

(** S3, set and read the current thread. *)
Example scenario_current_thread :
  session Fixture.idle O Fixture.state0 "$Hg0#df$qC#b4"
  = ["+"; "$OK#9a"; "+"; "$QC0000002a#47"]%string.
Proof. vm_compute. reflexivity. Qed.

(** S4, a memory read at address 0. *)
Example scenario_memory_read_invalid :
  session Fixture.idle 1%nat Fixture.state0 "$m0,4#fd" = ["+"; "$EAA#c7"]%string.
Proof. vm_compute. reflexivity. Qed.

(** S5, a breakpoint at a valid address. *)
Example scenario_breakpoint :
  match server_next Fixture.idle O Fixture.state0 17 (lit "$Z0,00010000,4#97") with
  | (sent, Ok (_, state)) =>
      sent = [lit "+"; lit "$OK#9a"] /\ debugger (kernel state) = [(65536, false)]
  | _ => False
  end.
Proof. vm_compute. split; reflexivity. Qed.

(** S6, continue until a break. *)
Example scenario_continue :
  match server_next Lively.lively 2%nat Fixture.state0 11 (lit "$vCont;c#a8") with
  | (sent, Ok (_, state)) =>
      sent = [lit "+"; lit "$S05#b8"]
      /\ inferior_thread (gdb state) = 42 /\ current_thread (gdb state) = 42
      /\ map (fun p => status (snd p)) (threads (kernel state)) = [suspend; suspend]
  | _ => False
  end.
Proof. vm_compute. repeat split. Qed.

(** * Properties beyond the specification *)

(** ** [parse_hex] *)

Lemma skip_space_stop (s : bytes) (c : ascii) (rest : bytes) :
  Codec.isspace c = false ->
  Codec.skip_space (s ++ c :: rest) = Codec.skip_space s ++ c :: rest.
Proof.
  intros Hc. induction s as [| a s IH]; cbn [app Codec.skip_space].
  - rewrite Hc. reflexivity.
  - destruct (Codec.isspace a); [exact IH | reflexivity].
Qed.

Lemma strip_sign_stop (s : bytes) (c : ascii) (rest : bytes) :
  Ascii.eqb c "-" = false -> Ascii.eqb c "+" = false ->
  Codec.strip_sign (s ++ c :: rest)
  = (fst (Codec.strip_sign s), snd (Codec.strip_sign s) ++ c :: rest).
Proof.
  intros Hm Hp. destruct s as [| a s]; cbn [app Codec.strip_sign].
  - rewrite Hm, Hp. reflexivity.
  - destruct (Ascii.eqb a "-"); [reflexivity |]. destruct (Ascii.eqb a "+"); reflexivity.
Qed.

Lemma strip_0x_stop (s : bytes) (c : ascii) (rest : bytes) :
  Ascii.eqb c "0" = false -> Ascii.eqb c "x" = false -> Ascii.eqb c "X" = false ->
  Codec.strip_0x (s ++ c :: rest) = Codec.strip_0x s ++ c :: rest.
Proof.
  intros H0 Hx HX. destruct s as [| a [| b s]]; cbn [app Codec.strip_0x].
  - destruct rest; [reflexivity |]. rewrite H0. reflexivity.
  - rewrite Hx, HX. rewrite andb_false_r. reflexivity.
  - destruct (Ascii.eqb a "0" && (Ascii.eqb b "x" || Ascii.eqb b "X")); reflexivity.
Qed.

Lemma accumulate_stop (base : Z) (s : bytes) (c : ascii) (rest : bytes) :
  match Codec.digit_of c with Some d => base <= d | None => True end ->
  forall acc overflow,
  Codec.accumulate base (s ++ c :: rest) acc overflow = Codec.accumulate base s acc overflow.
Proof.
  intros Hc. induction s as [| a s IH]; intros acc overflow; cbn [app Codec.accumulate].
  - destruct (Codec.digit_of c) as [d |]; [| reflexivity].
    replace (d <? base) with false by (symmetry; apply Z.ltb_ge; exact Hc). reflexivity.
  - destruct (Codec.digit_of a) as [d |]; [| reflexivity].
    destruct (d <? base); [| reflexivity].
    destruct (ULONG_MAX <? acc * base + d); apply IH.
Qed.

Lemma stops_hex_facts (c : ascii) :
  stops_hex c = true ->
  Codec.isspace c = false /\ Ascii.eqb c "-" = false /\ Ascii.eqb c "+" = false
  /\ Ascii.eqb c "x" = false /\ Ascii.eqb c "X" = false /\ Ascii.eqb c "0" = false
  /\ match Codec.digit_of c with Some d => 16 <= d | None => True end.
Proof.
  unfold stops_hex. rewrite !andb_true_iff, !negb_true_iff.
  intros (((((Hs & Hm) & Hp) & Hx) & HX) & Hd).
  repeat split; try assumption.
  - destruct (Ascii.eqb c "0") eqn:E; [| reflexivity].
    apply Ascii.eqb_eq in E. subst c. discriminate.
  - destruct (Codec.digit_of c); [apply Z.leb_le; exact Hd | exact I].
Qed.

(** X1. [parse_hex] reads the number at the start of a string and ignores
    what follows it: a string cut at a character that is no space, no sign,
    no hexadecimal digit and no x reads as the part before this character.
    The fields of a packet can so be read without removing what follows
    them. *)
Theorem parse_hex_ignores_the_rest (s : bytes) (c : ascii) (rest : bytes) :
  stops_hex c = true -> Codec.parse_hex (s ++ c :: rest) = Codec.parse_hex s.
Proof.
  intros Hc. destruct (stops_hex_facts c Hc) as (Hs & Hm & Hp & Hx & HX & H0 & Hd).
  unfold Codec.parse_hex, Codec.strtoul16.
  rewrite skip_space_stop by exact Hs. rewrite strip_sign_stop by assumption.
  destruct (Codec.strip_sign (Codec.skip_space s)) as [negative s1]. cbn [fst snd].
  rewrite strip_0x_stop by assumption. rewrite accumulate_stop by exact Hd.
  reflexivity.
Qed.

Lemma parse_hex_ignores_the_rest_witness :
  Codec.parse_hex (lit "1F" ++ ","%char :: lit "4") = Codec.parse_hex (lit "1F").
Proof. apply (parse_hex_ignores_the_rest (lit "1F") "," (lit "4")). reflexivity. Defined.

(** ** Thread ids as text *)

Lemma hex_digits_grows (fuel : nat) :
  forall v acc, (List.length acc <= List.length (Codec.hex_digits fuel v acc))%nat.
Proof.
  induction fuel as [| fuel IH]; intros v acc; simpl; [lia |].
  destruct (v / 16 =? 0); [simpl; lia |].
  specialize (IH (v / 16) (Codec.hex_digit (v mod 16) :: acc)). simpl in IH. lia.
Qed.

Lemma hex_digits_min_length (fuel : nat) :
  forall (k : nat) v acc, (k < fuel)%nat -> 16 ^ Z.of_nat k <= v ->
  (k + 1 + List.length acc <= List.length (Codec.hex_digits fuel v acc))%nat.
Proof.
  induction fuel as [| fuel IH]; intros k v acc Hk Hv; [lia |].
  cbn [Codec.hex_digits]. cbv zeta.
  destruct k as [| k].
  - destruct (v / 16 =? 0); [simpl; lia |].
    pose proof (hex_digits_grows fuel (v / 16) (Codec.hex_digit (v mod 16) :: acc)) as H.
    simpl in H. lia.
  - assert (16 ^ Z.of_nat k <= v / 16) as Hq.
    { apply Z.div_le_lower_bound; [lia |].
      rewrite Nat2Z.inj_succ, Z.pow_succ_r in Hv by lia. lia. }
    assert (0 < 16 ^ Z.of_nat k) as Hpos by (apply Z.pow_pos_nonneg; lia).
    destruct (v / 16 =? 0) eqn:E; [apply Z.eqb_eq in E; lia |].
    specialize (IH k (v / 16) (Codec.hex_digit (v mod 16) :: acc) ltac:(lia) Hq).
    simpl in IH. simpl. lia.
Qed.

Lemma strip_0x_hexchars (s : bytes) : Forall hexchar s -> Codec.strip_0x s = s.
Proof.
  intros Hs. destruct s as [| c0 [| c1 s]]; try reflexivity.
  inversion Hs as [| ? ? _ Hs']; subst. inversion Hs' as [| ? ? H1 _]; subst.
  destruct (hexchar_plain c1 H1) as (_ & _ & _ & Hx & HX & _).
  simpl. rewrite Hx, HX. rewrite andb_false_r. reflexivity.
Qed.

Lemma parse_hex_zero_filled_sign (k : nat) (s : bytes) :
  Codec.parse_hex (repeat "0"%char (S k) ++ "-"%char :: s) = 0.
Proof.
  unfold Codec.parse_hex, Codec.strtoul16.
  change (repeat "0"%char (S k) ++ "-"%char :: s)
    with ("0"%char :: (repeat "0"%char k ++ "-"%char :: s)).
  cbn [Codec.skip_space]. change (Codec.isspace "0") with false. cbv iota.
  cbn [Codec.strip_sign]. change (Ascii.eqb "0" "-") with false.
  change (Ascii.eqb "0" "+") with false. cbv iota.
  assert (Codec.strip_0x ("0"%char :: (repeat "0"%char k ++ "-"%char :: s))
          = "0"%char :: (repeat "0"%char k ++ "-"%char :: s)) as ->.
  { destruct k; reflexivity. }
  change ("0"%char :: (repeat "0"%char k ++ "-"%char :: s))
    with (repeat "0"%char (S k) ++ "-"%char :: s).
  rewrite accumulate_zeros. reflexivity.
Qed.

Lemma parse_hex_minus_fmt_x (a : Z) :
  0 < a < 2 ^ 64 -> Codec.parse_hex ("-"%char :: Codec.fmt_x a) = uint32_t (- a).
Proof.
  intros Ha. unfold Codec.parse_hex, Codec.strtoul16.
  cbn [Codec.skip_space]. change (Codec.isspace "-") with false. cbv iota.
  cbn [Codec.strip_sign]. change (Ascii.eqb "-" "-") with true. cbv iota.
  rewrite strip_0x_hexchars by (apply hex_digits_hexchar; constructor).
  rewrite accumulate_fmt_x by lia.
  unfold uint32_t. apply Z.mod_mod_divide. exists (2 ^ 32). reflexivity.
Qed.

(** X2. The thread ids the stub writes with [to_hex] ([qC], the thread-info
    pages) read back through [parse_hex] as the commands [H] and [T] read
    them, except for the negative ids above -16^6: these are written with
    zero fill before the sign, like [000000-1] for -1, and read back
    as 0. *)
Theorem thread_id_text_reads_back (v : Z) :
  - 2 ^ 31 <= v < 2 ^ 31 ->
  int32_t (Codec.parse_hex (Codec.to_hex_uid v))
  = if (- 16 ^ 6 <? v) && (v <? 0) then 0 else v.
Proof.
  intros Hv. change (2 ^ 31) with 2147483648 in Hv.
  unfold Codec.to_hex_uid.
  destruct (v <? 0) eqn:Eneg.
  - apply Z.ltb_lt in Eneg. rewrite andb_true_r.
    destruct (- 16 ^ 6 <? v) eqn:Esmall.
    + apply Z.ltb_lt in Esmall.
      assert (List.length (Codec.fmt_x (- v)) <= 6)%nat as Hlen.
      { apply (hex_digits_length 16 6 (- v) [] ltac:(lia)).
        change (16 ^ Z.of_nat 6) with 16777216. lia. }
      unfold Codec.pad_left. cbn [List.length].
      destruct (8 - S (List.length (Codec.fmt_x (- v))))%nat as [| k] eqn:Ek; [lia |].
      rewrite parse_hex_zero_filled_sign. reflexivity.
    + apply Z.ltb_ge in Esmall.
      assert (7 <= List.length (Codec.fmt_x (- v)))%nat as Hlen.
      { apply (hex_digits_min_length 16 6 (- v) [] ltac:(lia)).
        change (16 ^ Z.of_nat 6) with 16777216. lia. }
      unfold Codec.pad_left. cbn [List.length].
      replace (8 - S (List.length (Codec.fmt_x (- v))))%nat with O by lia.
      cbn [repeat app]. rewrite parse_hex_minus_fmt_x by (change (2 ^ 64) with 18446744073709551616; lia).
      unfold int32_t, uint32_t. rewrite Z.opp_involutive.
      change (2 ^ 32) with 4294967296. change (2 ^ 31) with 2147483648.
      rewrite Z.add_mod_idemp_l by lia. rewrite Z.mod_small by lia. lia.
  - apply Z.ltb_ge in Eneg. rewrite andb_false_r.
    rewrite parse_hex_pad_fmt by (change (2 ^ 32) with 4294967296; lia).
    unfold int32_t. change (2 ^ 32) with 4294967296. change (2 ^ 31) with 2147483648.
    rewrite Z.mod_small by lia. lia.
Qed.

Lemma thread_id_text_reads_back_witness :
  int32_t (Codec.parse_hex (Codec.to_hex_uid 42)) = 42
  /\ int32_t (Codec.parse_hex (Codec.to_hex_uid (-1))) = 0.
Proof.
  split.
  - apply (thread_id_text_reads_back 42). lia.
  - apply (thread_id_text_reads_back (-1)). lia.
Defined.

(** ** What [parse_command] accepts *)

Lemma make_checksum_byte_sum (b : bytes) :
  Codec.make_checksum b (Str.size b) = byte_sum b mod 256.
Proof.
  unfold Codec.make_checksum, Codec.make_checksum_as, Str.size, uint8_t. rewrite Nat2Z.id.
  rewrite sum_chars_mod_256. simpl (0 + _).
  change (2 ^ 8) with 256. apply Z.mod_mod. lia.
Qed.

Lemma scan_hash_prefix (s beyond : bytes) (a e : Z) :
  Packet.scan_hash (s ++ beyond) (List.length s) a e = Packet.scan_hash s (List.length s) a e.
Proof.
  pose proof (scan_hash_app s beyond O a e) as H. rewrite Nat.add_0_r in H.
  rewrite H. destruct beyond; reflexivity.
Qed.

Lemma scan_hash_last (pre post beyond : bytes) (a e : Z) :
  no_char "#" post ->
  Packet.scan_hash (pre ++ "#"%char :: post ++ beyond)
    (List.length pre + S (List.length post)) a e
  = a + Str.size pre.
Proof.
  intros Hpost. rewrite scan_hash_app, scan_hash_cons.
  change (Ascii.eqb "#" "#") with true. cbv iota.
  rewrite scan_hash_prefix. apply (scan_hash_no_hash post Hpost).
Qed.

Lemma scan_hash_cases (data : bytes) :
  forall (n : nat) (a e : Z),
  (no_char "#" (firstn n data) /\ Packet.scan_hash data n a e = e)
  \/ (exists pre post,
        firstn n data = pre ++ "#"%char :: post /\ no_char "#" post
        /\ Packet.scan_hash data n a e = a + Str.size pre).
Proof.
  induction data as [| c data IH]; intros n a e.
  - left. destruct n; split; try constructor; reflexivity.
  - destruct n as [| n].
    + left. split; [constructor | reflexivity].
    + rewrite scan_hash_cons. cbn [firstn].
      destruct (IH n (a + 1) (if Ascii.eqb c "#" then a else e))
        as [[Hno Hscan] | (pre & post & Hsplit & Hpost & Hscan)].
      * destruct (Ascii.eqb c "#") eqn:Ec.
        -- right. exists [], (firstn n data). apply Ascii.eqb_eq in Ec. subst c.
           repeat split; [exact Hno |]. rewrite Hscan. unfold Str.size. simpl. lia.
        -- left. split; [constructor; assumption | exact Hscan].
      * right. exists (c :: pre), post. rewrite Hsplit. repeat split; [exact Hpost |].
        rewrite Hscan. unfold Str.size. simpl List.length. lia.
Qed.

Lemma parse_command_frame (c0 : ascii) (content : bytes) (h1 h2 : ascii)
  (tail beyond : bytes) :
  content <> [] -> no_char "#" (h1 :: h2 :: tail) ->
  let data := c0 :: content ++ "#"%char :: h1 :: h2 :: tail ++ beyond in
  let len := Str.size content + 4 + Str.size tail in
  Packet.parse_command data len
  = {| Packet.data := data; Packet.length := len; Packet.begin_index := 1;
       Packet.end_index := Str.size content + 1;
       Packet.content_length := Str.size content;
       Packet.content_start := Some 1;
       Packet.checksum_start := Some (Str.size content + 2);
       Packet.checksum := uint8_t (Codec.parse_hex [h1; h2]);
       Packet.is_valid :=
         Codec.make_checksum content (Str.size content)
         =? uint8_t (Codec.parse_hex [h1; h2]) |}.
Proof.
  intros Hne Hpost data len.
  assert (0 < Str.size content) as Hpos.
  { unfold Str.size. destruct content; [congruence | simpl; lia]. }
  assert (0 <= Str.size tail) as Htail by (unfold Str.size; lia).
  assert (Packet.scan_hash data (Z.to_nat len) 0 (-1) = Str.size content + 1) as Hend.
  { unfold data, len.
    replace (Z.to_nat (Str.size content + 4 + Str.size tail))
      with (List.length (c0 :: content) + S (List.length (h1 :: h2 :: tail)))%nat
      by (unfold Str.size; simpl List.length; lia).
    change (c0 :: content ++ "#"%char :: h1 :: h2 :: tail ++ beyond)
      with ((c0 :: content) ++ "#"%char :: (h1 :: h2 :: tail) ++ beyond).
    rewrite scan_hash_last by exact Hpost.
    unfold Str.size. simpl List.length. lia. }
  unfold Packet.parse_command. rewrite Hend.
  replace (1 <? len) with true by (symmetry; apply Z.ltb_lt; unfold len; lia).
  replace (negb (1 =? -1) && negb (Str.size content + 1 =? -1)
           && (1 <? Str.size content + 1) && (Str.size content + 1 + 2 <? len)) with true.
  2:{ symmetry. rewrite !andb_true_iff, !negb_true_iff. unfold len.
      repeat split; try (apply Z.eqb_neq; lia); apply Z.ltb_lt; lia. }
  cbn [negb].
  assert (skipn (Z.to_nat 1) data = content ++ "#"%char :: h1 :: h2 :: tail ++ beyond)
    as Hskip1 by reflexivity.
  assert (skipn (Z.to_nat (Str.size content + 1 + 1)) data = h1 :: h2 :: tail ++ beyond)
    as Hskip2.
  { unfold data.
    replace (c0 :: content ++ "#"%char :: h1 :: h2 :: tail ++ beyond)
      with ((c0 :: content ++ ["#"%char]) ++ h1 :: h2 :: tail ++ beyond)
      by (simpl; rewrite <- app_assoc; reflexivity).
    replace (Z.to_nat (Str.size content + 1 + 1))
      with (List.length (c0 :: content ++ ["#"%char])).
    - apply skipn_length_app.
    - simpl List.length. rewrite length_app. unfold Str.size. simpl List.length. lia. }
  rewrite Hskip1, Hskip2.
  replace (Str.size content + 1 - 1) with (Str.size content) by lia.
  replace (Str.size content + 1 + 1) with (Str.size content + 2) by lia.
  rewrite make_checksum_app. reflexivity.
Qed.

(** X3. [parse_command] accepts exactly the frames: if it finds the command
    valid, the characters it was given are one leading character, a content
    that is not empty, the last '#' and at least two characters after it;
    and on such characters the command is valid if and only if the byte sum
    of the content modulo 256 is what [parse_hex] reads from the two
    characters after the '#', the content being what lies between the
    leading character and the last '#'. *)
Theorem parse_command_accepts_frames (data : bytes) (len : Z) :
  len <= Str.size data ->
  (Packet.is_valid (Packet.parse_command data len) = true ->
   exists content h1 h2, framed data len content h1 h2)
  /\ (forall content h1 h2,
      framed data len content h1 h2 ->
      Packet.content_string (Packet.parse_command data len) = Ok content
      /\ Packet.is_valid (Packet.parse_command data len)
         = (byte_sum content mod 256 =? uint8_t (Codec.parse_hex [h1; h2]))).
Proof.
  intros Hlen. split.
  - unfold Packet.parse_command. cbv zeta.
    set (begin_index := if 1 <? len then 1 else -1).
    set (end_index := Packet.scan_hash data (Z.to_nat len) 0 (-1)).
    destruct (negb (begin_index =? -1) && negb (end_index =? -1)
              && (begin_index <? end_index) && (end_index + 2 <? len)) eqn:Eshape;
      cbn [negb]; [| discriminate].
    intros _.
    rewrite !andb_true_iff, !negb_true_iff in Eshape.
    destruct Eshape as (((Hb & He) & Hbe) & Hel).
    apply Z.eqb_neq in Hb, He. apply Z.ltb_lt in Hbe, Hel.
    assert (begin_index = 1) as Hb1.
    { unfold begin_index in *. destruct (1 <? len); [reflexivity | congruence]. }
    rewrite Hb1 in Hbe.
    destruct (scan_hash_cases data (Z.to_nat len) 0 (-1))
      as [[_ Hscan] | (pre & post & Hsplit & Hpost & Hscan)];
      fold end_index in Hscan; [congruence |].
    assert (List.length (firstn (Z.to_nat len) data) = Z.to_nat len) as Hfirst.
    { apply firstn_length_le. unfold Str.size in Hlen. lia. }
    rewrite Hsplit, length_app in Hfirst. cbn [List.length] in Hfirst.
    unfold Str.size in Hscan.
    destruct pre as [| c0 content]; [simpl in Hscan; lia |].
    destruct content as [| c1 content]; [simpl in Hscan; lia |].
    destruct post as [| h1 post]; [simpl in Hfirst, Hscan; lia |].
    destruct post as [| h2 tail]; [simpl in Hfirst, Hscan; lia |].
    exists (c1 :: content), h1, h2, c0, tail, (skipn (Z.to_nat len) data).
    repeat split.
    + rewrite <- (firstn_skipn (Z.to_nat len) data) at 1. rewrite Hsplit.
      cbn [app]. rewrite <- !app_assoc. reflexivity.
    + unfold Str.size. cbn [List.length] in *. lia.
    + discriminate.
    + exact Hpost.
  - intros content h1 h2 (c0 & tail & beyond & Hdata & Hlen' & Hne & Hpost).
    subst data len. rewrite parse_command_frame by assumption.
    unfold Packet.content_string, Packet.string_of.
    cbn [Packet.data Packet.content_start Packet.content_length Packet.is_valid].
    replace (Str.size content <? 0) with false
      by (symmetry; apply Z.ltb_ge; unfold Str.size; lia).
    split.
    + change (skipn (Z.to_nat 1) (c0 :: content ++ "#"%char :: h1 :: h2 :: tail ++ beyond))
        with (content ++ "#"%char :: h1 :: h2 :: tail ++ beyond).
      rewrite firstn_size_app. reflexivity.
    + rewrite make_checksum_byte_sum. reflexivity.
Qed.

Lemma parse_command_accepts_frames_witness :
  (Packet.is_valid (Packet.parse_command (lit "$qC#b4") 6) = true ->
   exists content h1 h2, framed (lit "$qC#b4") 6 content h1 h2)
  /\ (forall content h1 h2,
      framed (lit "$qC#b4") 6 content h1 h2 ->
      Packet.content_string (Packet.parse_command (lit "$qC#b4") 6) = Ok content
      /\ Packet.is_valid (Packet.parse_command (lit "$qC#b4") 6)
         = (byte_sum content mod 256 =? uint8_t (Codec.parse_hex [h1; h2]))).
Proof. apply (parse_command_accepts_frames (lit "$qC#b4") 6). vm_compute. discriminate. Defined.

(** ** The dispatch table *)

Lemma starts_with_longer (a : bytes) :
  forall s b,
  Str.starts_with s a = true -> Str.starts_with s b = true ->
  (List.length a <= List.length b)%nat -> Str.starts_with b a = true.
Proof.
  induction a as [| c a IH]; intros s b Ha Hb Hlen; [destruct b; reflexivity |].
  destruct b as [| c2 b]; [simpl in Hlen; lia |].
  destruct s as [| d s]; [discriminate |].
  cbn [Str.starts_with] in *.
  apply andb_true_iff in Ha as [Hc Ha]. apply andb_true_iff in Hb as [Hc2 Hb].
  apply Ascii.eqb_eq in Hc, Hc2. subst c c2.
  rewrite Ascii.eqb_refl. cbn [andb]. apply (IH s b Ha Hb). simpl in Hlen. lia.
Qed.

Lemma find_split {A : Type} (p : A -> bool) (l : list A) (x : A) :
  find p l = Some x ->
  exists l1 l2, l = l1 ++ x :: l2 /\ (forall y, In y l1 -> p y = false) /\ p x = true.
Proof.
  induction l as [| a l IH]; [discriminate |].
  cbn [find]. destruct (p a) eqn:Ea.
  - intros [= ->]. exists [], l. repeat split; [intros y [] | exact Ea].
  - intros H. destruct (IH H) as (l1 & l2 & -> & Hl1 & Hx).
    exists (a :: l1), l2. repeat split; [| exact Hx].
    intros y [<- | Hy]; [exact Ea | apply Hl1, Hy].
Qed.

Lemma unshadowed_split (l1 : list PacketFunctionBundle) (f : PacketFunctionBundle)
  (l2 : list PacketFunctionBundle) :
  unshadowed (map name (l1 ++ f :: l2)) = true ->
  forall g, In g l2 -> Str.starts_with (name g) (name f) = false.
Proof.
  induction l1 as [| x l1 IH]; cbn [app map unshadowed]; intros H g Hg.
  - apply andb_true_iff in H as [H _].
    rewrite forallb_forall in H. apply negb_true_iff. apply H.
    apply in_map, Hg.
  - apply andb_true_iff in H as [_ H]. apply (IH H g Hg).
Qed.

Lemma functions_unshadowed (C : Collaborators) : unshadowed (map name (functions C)) = true.
Proof. vm_compute. reflexivity. Qed.

Lemma command_begins_with_prefix (command : Packet.PacketCommand) (small_str : bytes) :
  command_begins_with command small_str = true ->
  exists p, Packet.content_start command = Some p
            /\ Str.starts_with (skipn (Z.to_nat p) (Packet.data command)) small_str = true.
Proof.
  unfold command_begins_with.
  destruct (size_t (Packet.content_length command) <? Str.size small_str); [discriminate |].
  destruct (Packet.content_start command) as [p |]; [| discriminate].
  intros H. exists p. split; [reflexivity | exact H].
Qed.

(** X4. The entry of the dispatch table that handles a command is an
    entry whose name the content begins with, and no entry with a longer
    name matches the content: [vCont?] is taken before [vCont] and [v],
    [qfThreadInfo] before [q]. *)
Theorem dispatch_takes_longest_name (C : Collaborators) (command : Packet.PacketCommand)
  (f : PacketFunctionBundle) :
  lookup_function C command = Some f ->
  In f (functions C)
  /\ command_begins_with command (name f) = true
  /\ forall g, In g (functions C) -> command_begins_with command (name g) = true ->
               (List.length (name g) <= List.length (name f))%nat.
Proof.
  unfold lookup_function. intros Hfind.
  destruct (find_split _ _ _ Hfind) as (l1 & l2 & Hsplit & Hbefore & Hf).
  split; [rewrite Hsplit; apply in_elt |]. split; [exact Hf |].
  intros g Hg Hmatch. rewrite Hsplit in Hg.
  apply in_app_or in Hg as [Hg | [<- | Hg]].
  - rewrite (Hbefore g Hg) in Hmatch. discriminate.
  - lia.
  - pose proof (functions_unshadowed C) as Htable. rewrite Hsplit in Htable.
    pose proof (unshadowed_split l1 f l2 Htable g Hg) as Hshadow.
    destruct (command_begins_with_prefix _ _ Hf) as (p & Hp & Hpf).
    destruct (command_begins_with_prefix _ _ Hmatch) as (p' & Hp' & Hpg).
    rewrite Hp in Hp'. injection Hp' as <-.
    destruct (Nat.le_gt_cases (List.length (name g)) (List.length (name f))) as [Hle | Hgt];
      [exact Hle |].
    rewrite (starts_with_longer (name f) _ (name g) Hpf Hpg) in Hshadow by lia.
    discriminate.
Qed.

Lemma dispatch_takes_longest_name_witness :
  exists f,
    lit "vCont?" = name f
    /\ In f (functions Fixture.idle)
    /\ command_begins_with (command_of "vCont?") (name f) = true
    /\ forall g, In g (functions Fixture.idle) ->
                 command_begins_with (command_of "vCont?") (name g) = true ->
                 (List.length (name g) <= List.length (name f))%nat.
Proof.
  exists (bundle "vCont?" cmd_continue_supported). split; [reflexivity |].
  apply (dispatch_takes_longest_name Fixture.idle (command_of "vCont?")).
  vm_compute. reflexivity.
Defined.

Lemma names_not_empty (C : Collaborators) :
  forallb (fun f => match name f with [] => false | _ :: _ => true end) (functions C) = true.
Proof. vm_compute. reflexivity. Qed.

Lemma content_string_head (command : Packet.PacketCommand) (c : ascii) (rest : bytes) :
  Packet.content_string command = Ok (c :: rest) ->
  exists p more,
    Packet.content_start command = Some p
    /\ skipn (Z.to_nat p) (Packet.data command) = c :: more.
Proof.
  unfold Packet.content_string, Packet.string_of.
  destruct (Packet.content_start command) as [p |]; [| discriminate].
  destruct (Packet.content_length command <? 0); [discriminate |].
  intros [= H]. exists p.
  destruct (skipn (Z.to_nat p) (Packet.data command)) as [| d more].
  - rewrite firstn_nil in H. discriminate.
  - destruct (Z.to_nat (Packet.content_length command)); [discriminate |].
    cbn [firstn] in H. injection H as -> _. exists more. split; reflexivity.
Qed.

(** X5. A packet whose first character is not the first character of a
    name of the dispatch table (as [D], for which the source has a handler
    that is not in the table) is answered by the empty reply [$#00];
    [last_reply] becomes empty and nothing else changes. *)
Theorem unknown_initial_gets_empty_reply (C : Collaborators) (fuel : nat)
  (state : EmuEnvState) (command : Packet.PacketCommand) (c : ascii) (rest : bytes) :
  Packet.content_string command = Ok (c :: rest) ->
  existsb (Ascii.eqb c) (initials C) = false ->
  dispatch (functions C) fuel state command
  = ([lit "$#00"], Ok (with_gdb state (set_last_reply (gdb state) []))).
Proof.
  intros Hcontent Hunknown. rewrite dispatch_lookup.
  destruct (content_string_head _ _ _ Hcontent) as (p & more & Hp & Hskip).
  destruct (find (fun f => command_begins_with command (name f)) (functions C))
    as [f |] eqn:Hfind; [| reflexivity].
  exfalso. apply find_some in Hfind as [Hin Hmatch].
  destruct (command_begins_with_prefix _ _ Hmatch) as (p' & Hp' & Hstarts).
  rewrite Hp in Hp'. injection Hp' as <-. rewrite Hskip in Hstarts.
  pose proof (names_not_empty C) as Hnames. rewrite forallb_forall in Hnames.
  specialize (Hnames f Hin).
  assert (existsb (Ascii.eqb c) (initials C) = true) as Hknown; [| congruence].
  apply existsb_exists. exists (hd Str.NUL (name f)). split.
  - unfold initials. apply (in_map (fun f => hd Str.NUL (name f))), Hin.
  - destruct (name f) as [| c' n]; [discriminate |].
    cbn [Str.starts_with] in Hstarts. apply andb_true_iff in Hstarts as [Hc _].
    apply Ascii.eqb_eq in Hc. subst c'. apply Ascii.eqb_refl.
Qed.

Lemma unknown_initial_gets_empty_reply_witness :
  dispatch (functions Fixture.idle) O Fixture.state0 (command_of "D")
  = ([lit "$#00"], Ok (with_gdb Fixture.state0 (set_last_reply (gdb Fixture.state0) []))).
Proof.
  apply (unknown_initial_gets_empty_reply Fixture.idle O Fixture.state0 (command_of "D")
           "D" []); vm_compute; reflexivity.
Defined.

(** ** Retransmission *)

Lemma server_loop_acks_then_nack (C : Collaborators) (fuel : nat) (k : nat) :
  forall (gas : nat) (state : EmuEnvState) (pre : bytes),
  (k + 2 <= gas)%nat ->
  server_loop C gas fuel state (pre ++ repeat "+"%char k ++ ["-"%char]) (Str.size pre)
  = ([Packet.server_reply_text (last_reply (gdb state))],
     Ok (state, Str.size pre + Z.of_nat k + 1)).
Proof.
  induction k as [| k IH]; intros gas state pre Hgas.
  - destruct gas as [| [| gas]]; try lia.
    cbn [repeat app]. remember (S gas) as gas1. cbn [server_loop].
    assert (Str.size (pre ++ ["-"%char]) = Str.size pre + 1) as Hsize
      by (unfold Str.size; rewrite length_app; simpl List.length; lia).
    rewrite Hsize. replace (Str.size pre <? Str.size pre + 1) with true
      by (symmetry; apply Z.ltb_lt; lia).
    rewrite at_size_app. change (Ascii.eqb "-" "+") with false.
    change (Ascii.eqb "-" "-") with true. cbv iota.
    subst gas1. rewrite <- Hsize. rewrite server_loop_at_end.
    unfold emit. cbn [fst snd]. rewrite Hsize. rewrite Z.add_0_r. reflexivity.
  - destruct gas as [| gas]; [lia |].
    cbn [repeat app]. cbn [server_loop].
    assert (Str.size pre < Str.size (pre ++ "+"%char :: repeat "+"%char k ++ ["-"%char]))
      as Hlt by (unfold Str.size; rewrite length_app; simpl List.length; lia).
    apply Z.ltb_lt in Hlt. rewrite Hlt.
    rewrite at_size_app. change (Ascii.eqb "+" "+") with true. cbv iota.
    replace (pre ++ "+"%char :: repeat "+"%char k ++ ["-"%char])
      with ((pre ++ ["+"%char]) ++ repeat "+"%char k ++ ["-"%char])
      by (rewrite <- app_assoc; reflexivity).
    replace (Str.size pre + 1) with (Str.size (pre ++ ["+"%char]))
      by (unfold Str.size; rewrite length_app; simpl List.length; lia).
    rewrite IH by lia. f_equal. f_equal. f_equal.
    unfold Str.size. rewrite length_app. simpl List.length. lia.
Qed.

(** X6. When a packet has been answered, a '-' from the client, also after
    any number of '+', makes the server send the same reply frame again:
    the reply is kept in [last_reply]. *)
Theorem nack_resends_last_reply (C : Collaborators) (fuel : nat) (state : EmuEnvState)
  (body : bytes) (c1 c2 : ascii) (k : nat) (f : PacketFunctionBundle) (r : bytes)
  (state' : EmuEnvState) :
  no_char "#" body ->
  server_die (gdb state) = false ->
  recv_buffer (gdb state) = [] ->
  let temp := "$"%char :: body ++ "#"%char :: c1 :: c2 :: repeat "+"%char k ++ ["-"%char] in
  let command := Packet.parse_command temp (Str.size body + 4) in
  Packet.is_valid command = true ->
  lookup_function C command = Some f ->
  function f fuel state command = Ok (r, state') ->
  server_die (gdb state') = false ->
  server_next C fuel state (Str.size temp) temp
  = ([lit "+"; Packet.server_reply_text r; Packet.server_reply_text r],
     Ok (Str.size temp,
         with_gdb state' (set_recv_buffer (set_last_reply (gdb state') r) []))).
Proof.
  intros Hno Hdie Hbuf temp command Hvalid Hlookup Hrun Hdie'.
  assert (Str.size temp = Str.size body + 4 + Z.of_nat k + 1) as Hsize.
  { unfold temp, Str.size. simpl List.length. rewrite length_app. simpl List.length.
    rewrite length_app, repeat_length. simpl List.length. lia. }
  unfold server_next. rewrite Hdie, Hbuf.
  replace (Str.size temp <=? 0) with false
    by (symmetry; apply Z.leb_gt; unfold Str.size in *; lia).
  assert (firstn (Z.to_nat (Str.size temp)) temp = temp) as ->
    by (unfold Str.size; rewrite Nat2Z.id; apply firstn_all).
  cbn [app].
  pose proof (server_loop_frame_at C (List.length temp) fuel state [] body c1 c2
                (repeat "+"%char k ++ ["-"%char]) Hno) as Hframe.
  cbv zeta in Hframe. cbn [app] in Hframe. change (Str.size []) with 0 in Hframe.
  fold temp in Hframe. fold command in Hframe.
  rewrite Hframe, Hvalid. rewrite dispatch_lookup.
  unfold lookup_function in Hlookup. rewrite Hlookup, Hrun. cbv zeta.
  cbn [gdb with_gdb set_last_reply server_die]. rewrite Hdie'.
  replace temp with (("$"%char :: body ++ ["#"%char; c1; c2]) ++ repeat "+"%char k ++ ["-"%char])
    at 1 2
    by (unfold temp; cbn [app]; rewrite <- app_assoc; reflexivity).
  replace (0 + (Str.size body + 4)) with (Str.size ("$"%char :: body ++ ["#"%char; c1; c2]))
    by (unfold Str.size; simpl List.length; rewrite length_app; simpl List.length; lia).
  rewrite server_loop_acks_then_nack.
  2:{ rewrite length_app, length_app, repeat_length. simpl List.length. lia. }
  unfold emit, emits. cbn [fst snd app gdb with_gdb set_last_reply last_reply].
  f_equal. f_equal. f_equal.
  rewrite skipn_all2; [reflexivity |].
  unfold temp, Str.size. cbn [List.length].
  rewrite ?length_app, ?repeat_length. cbn [List.length].
  rewrite ?length_app, ?repeat_length. cbn [List.length]. lia.
Qed.

Lemma nack_resends_last_reply_witness :
  server_next Fixture.idle O Fixture.state0 8 (lit "$qC#b4+-")
  = ([lit "+"; lit "$QC000000-1#12"; lit "$QC000000-1#12"],
     Ok (8, with_gdb Fixture.state0
              (set_recv_buffer (set_last_reply Fixture.gdb0 (lit "QC000000-1")) []))).
Proof.
  apply (nack_resends_last_reply Fixture.idle O Fixture.state0 (lit "qC") "b" "4" 1
           (bundle "qC" cmd_get_current_thread) (lit "QC000000-1") Fixture.state0);
    try reflexivity.
  repeat constructor.
Defined.

(** ** The receive buffer *)

Lemma find_hash_from_in_size (s : bytes) :
  forall i size h, find_hash_from s i size = Some h -> h + 2 < size.
Proof.
  induction s as [| c s IH]; intros i size h H; [discriminate |].
  cbn [find_hash_from] in H. destruct (i + 2 <? size) eqn:E; [| discriminate].
  apply Z.ltb_lt in E.
  destruct (Ascii.eqb c "#").
  - injection H as <-. exact E.
  - apply IH in H. exact H.
Qed.

Lemma find_hash_from_complete (body : bytes) :
  forall (c1 c2 : ascii) (more : bytes) (i size : Z),
  i + Str.size body + 2 < size ->
  find_hash_from (body ++ "#"%char :: c1 :: c2 :: more) i size <> None.
Proof.
  unfold Str.size.
  induction body as [| c body IH]; intros c1 c2 more i size Hsize; cbn [app find_hash_from].
  - replace (i + 2 <? size) with true by (symmetry; apply Z.ltb_lt; simpl in Hsize; lia).
    change (Ascii.eqb "#" "#") with true. discriminate.
  - replace (i + 2 <? size) with true
      by (symmetry; apply Z.ltb_lt; simpl List.length in Hsize; lia).
    destruct (Ascii.eqb c "#"); [discriminate |].
    apply IH. simpl List.length in Hsize. lia.
Qed.

Lemma server_loop_stops (C : Collaborators) (fuel : nat) (buffer : bytes) (gas : nat) :
  forall state pos sent state' pos',
  0 <= pos ->
  server_loop C gas fuel state buffer pos = (sent, Ok (state', pos')) ->
  pos <= pos'
  /\ (Str.size buffer <= pos'
      \/ (pos' < Str.size buffer /\ Str.at_ buffer pos' = "$"%char
          /\ find_hash buffer pos' = None)).
Proof.
  induction gas as [| gas IH]; intros state pos sent state' pos' Hpos Hrun; [discriminate |].
  cbn [server_loop] in Hrun.
  destruct (pos <? Str.size buffer) eqn:Hlt.
  2:{ apply Z.ltb_ge in Hlt. injection Hrun as _ _ <-. split; [lia | left; exact Hlt]. }
  apply Z.ltb_lt in Hlt.
  assert (forall state1 pos1 sent1,
            server_loop C gas fuel state1 buffer pos1 = (sent1, Ok (state', pos')) ->
            pos <= pos1 ->
            pos <= pos'
            /\ (Str.size buffer <= pos'
                \/ (pos' < Str.size buffer /\ Str.at_ buffer pos' = "$"%char
                    /\ find_hash buffer pos' = None))) as Hnext.
  { intros state1 pos1 sent1 H Hle. apply IH in H; [| lia]. split; [lia | apply H]. }
  destruct (Ascii.eqb (Str.at_ buffer pos) "+"); [apply (Hnext _ _ _ Hrun); lia |].
  destruct (Ascii.eqb (Str.at_ buffer pos) "-").
  { destruct (server_loop C gas fuel state buffer (pos + 1)) as [sent1 r1] eqn:H1.
    unfold emit in Hrun. cbn [fst snd] in Hrun. injection Hrun as _ ->.
    apply (Hnext _ _ _ H1); lia. }
  destruct (Ascii.eqb (Str.at_ buffer pos) "$") eqn:Hdollar;
    [| apply (Hnext _ _ _ Hrun); lia].
  apply Ascii.eqb_eq in Hdollar.
  destruct (find_hash buffer pos) as [h |] eqn:Hh.
  2:{ injection Hrun as _ <- <-. split; [lia | right; repeat split; assumption]. }
  pose proof (find_hash_from_bounds _ _ _ _ Hh) as Hlow.
  pose proof (find_hash_from_in_size _ _ _ _ Hh) as Hhigh.
  replace (Str.size buffer <=? h + 2) with false in Hrun
    by (symmetry; apply Z.leb_gt; lia).
  unfold emit in Hrun. cbn [fst snd] in Hrun.
  destruct (Packet.is_valid _).
  - destruct (dispatch _ _ _ _) as [sent1 [state1 | e |]]; cbn [snd] in Hrun;
      try (injection Hrun as _ Hrun; discriminate).
    destruct (server_loop C gas fuel state1 buffer (pos + (h + 3 - pos)))
      as [sent2 r2] eqn:H2.
    unfold emits in Hrun. cbn [fst snd] in Hrun. injection Hrun as _ ->.
    apply (Hnext _ _ _ H2); lia.
  - destruct (server_loop C gas fuel state buffer (pos + (h + 3 - pos)))
      as [sent2 r2] eqn:H2.
    cbn [fst snd] in Hrun. injection Hrun as _ ->.
    apply (Hnext _ _ _ H2); lia.
Qed.

Lemma skipn_at (s : bytes) (i : Z) :
  0 <= i < Str.size s ->
  skipn (Z.to_nat i) s = Str.at_ s i :: skipn (Z.to_nat (i + 1)) s.
Proof.
  intros Hi. unfold Str.at_. replace (Z.to_nat (i + 1)) with (S (Z.to_nat i)) by lia.
  apply skipn_nth_error. unfold Str.size in Hi.
  rewrite (nth_error_nth' s Str.NUL) by lia. reflexivity.
Qed.

(** X7. Between two calls of [server_next] the receive buffer holds
    nothing, or one frame that is not complete yet: a '$' and after it no
    '#' that is followed by two characters.  Every complete frame that has
    arrived is handled in the call that received its last character. *)
Theorem server_next_keeps_incomplete_frame (C : Collaborators) (fuel : nat)
  (state : EmuEnvState) (len : Z) (temp : bytes) (sent : transcript) (status : Z)
  (state' : EmuEnvState) :
  incomplete_frame (recv_buffer (gdb state)) ->
  server_next C fuel state len temp = (sent, Ok (status, state')) ->
  incomplete_frame (recv_buffer (gdb state')).
Proof.
  intros Hinv. unfold server_next.
  destruct (server_die (gdb state)); [intros [= _ _ <-]; exact Hinv |].
  destruct (len <=? 0); [intros [= _ _ <-]; exact Hinv |].
  set (buffer := recv_buffer (gdb state) ++ firstn (Z.to_nat len) temp).
  destruct (server_loop C (S (List.length buffer)) fuel state buffer 0)
    as [sent1 [[state1 pos] | e |]] eqn:Hloop; try discriminate.
  intros [= _ _ <-]. cbn [gdb with_gdb set_recv_buffer recv_buffer].
  destruct (server_loop_stops _ _ _ _ _ _ _ _ _ (Z.le_refl 0) Hloop)
    as [Hpos [Hend | (Hlt & Hdollar & Hhash)]].
  - left. apply skipn_all2. unfold Str.size in Hend. lia.
  - right. exists (skipn (Z.to_nat (pos + 1)) buffer). split.
    + rewrite skipn_at by lia. rewrite Hdollar. reflexivity.
    + intros body c1 c2 more Hshape. unfold find_hash in Hhash. rewrite Hshape in Hhash.
      revert Hhash. apply find_hash_from_complete.
      assert (Str.size buffer = pos + 1 + Str.size (skipn (Z.to_nat (pos + 1)) buffer))
        as Hsize by (unfold Str.size in *; rewrite length_skipn; lia).
      rewrite Hsize, Hshape. unfold Str.size. rewrite length_app. simpl List.length. lia.
Qed.

Lemma server_next_keeps_incomplete_frame_witness :
  incomplete_frame
    (recv_buffer
       (gdb (with_gdb Fixture.state0
               (set_recv_buffer (set_last_reply Fixture.gdb0 (lit "QC000000-1"))
                  (lit "$g#6"))))).
Proof.
  apply (server_next_keeps_incomplete_frame Fixture.idle O Fixture.state0 10
           (lit "$qC#b4$g#6") [lit "+"; lit "$QC000000-1#12"] 10).
  - left. reflexivity.
  - vm_compute. reflexivity.
Defined.

(** ** The register view *)

Ltac split_compare :=
  repeat match goal with
         | |- context [?a <=? ?b] => destruct (Z.leb_spec a b)
         | |- context [?a =? ?b] => destruct (Z.eqb_spec a b)
         end.

(** X8. [modify_reg] and [fetch_reg] agree on the registers behind the
    indices 0 to 25: a value written at an index is read back at this index,
    and the values at the other indices stay as they were.  At an index
    above 25 nothing is written, the CPU is not touched, and 0 is read. *)
Theorem register_written_is_read_back (cpu : CPUState) (reg reg' value : Z) :
  0 <= reg -> 0 <= reg' ->
  fst (fetch_reg (modify_reg cpu reg value) reg')
  = (if (reg =? reg') && (reg <=? 25) then value else fst (fetch_reg cpu reg'))
  /\ (25 < reg -> modify_reg cpu reg value = cpu /\ fetch_reg cpu reg = (0, cpu)).
Proof.
  intros Hreg Hreg'. split.
  - unfold fetch_reg, modify_reg.
    destruct (Z.eqb_spec reg reg') as [<- | Hne]; cbn [andb].
    + split_compare; cbn [fst cpu_read cpu_write reg_file cpu_reg_eqb];
        try rewrite Z.eqb_refl; try reflexivity; lia.
    + split_compare; cbn [fst cpu_read cpu_write reg_file cpu_reg_eqb];
        try reflexivity; try lia;
        match goal with
        | |- (if ?a =? ?b then _ else _) = _ =>
            destruct (Z.eqb_spec a b); [lia | reflexivity]
        end.
  - intros Hhigh. unfold fetch_reg, modify_reg. split; split_compare; try reflexivity; lia.
Qed.

Lemma register_written_is_read_back_witness :
  fst (fetch_reg (modify_reg Fixture.cpu0 15 4660) 15)
  = (if (15 =? 15) && (15 <=? 25) then 4660 else fst (fetch_reg Fixture.cpu0 15))
  /\ (25 < 15 ->
      modify_reg Fixture.cpu0 15 4660 = Fixture.cpu0
      /\ fetch_reg Fixture.cpu0 15 = (0, Fixture.cpu0)).
Proof. apply (register_written_is_read_back Fixture.cpu0 15 15 4660); lia. Defined.

Lemma fetch_modify_same (cpu : CPUState) (reg value : Z) :
  0 <= reg <= 25 -> fst (fetch_reg (modify_reg cpu reg value) reg) = value.
Proof.
  intros Hreg. unfold fetch_reg, modify_reg.
  split_compare; cbn [fst cpu_read cpu_write reg_file cpu_reg_eqb];
    try rewrite Z.eqb_refl; try reflexivity; lia.
Qed.

Lemma parse_hex_range (s : bytes) : 0 <= Codec.parse_hex s < 2 ^ 32.
Proof. unfold Codec.parse_hex, uint32_t. apply Z.mod_pos_bound. lia. Qed.

Lemma no_current_thread_false (state : EmuEnvState) (thread : ThreadState) :
  current_thread (gdb state) <> -1 ->
  ThreadMap.get (threads (kernel state)) (current_thread (gdb state)) = Some thread ->
  no_current_thread state = false.
Proof.
  intros Hcur Hget. unfold no_current_thread, ThreadMap.contains. rewrite Hget.
  apply Z.eqb_neq in Hcur. rewrite Hcur. reflexivity.
Qed.

Lemma find_first (pre : bytes) (ch : ascii) (rest : bytes) :
  no_char ch pre -> Str.find (pre ++ ch :: rest) ch 0 = Str.size pre.
Proof.
  intros Hpre. unfold Str.find.
  replace (0 <? Str.size (pre ++ ch :: rest)) with true
    by (symmetry; apply Z.ltb_lt; unfold Str.size; rewrite length_app; simpl; lia).
  cbn [Z.to_nat skipn]. rewrite find_from_skip by exact Hpre. lia.
Qed.

(** X9. After [P n=v] the packet [p n] is answered by the value written,
    as [be_hex] prints it: [P] takes the digits of [v] as the number, [p]
    prints the four bytes of the register in memory order, so the digits come
    back byte-swapped. *)
Theorem register_packet_round_trip (fuel : nat) (state : EmuEnvState)
  (write read : Packet.PacketCommand) (reg_text value_text : bytes) (thread : ThreadState) :
  current_thread (gdb state) <> -1 ->
  ThreadMap.get (threads (kernel state)) (current_thread (gdb state)) = Some thread ->
  Packet.content_string write = Ok ("P"%char :: reg_text ++ "="%char :: value_text) ->
  Packet.content_string read = Ok ("p"%char :: reg_text) ->
  no_char "=" reg_text ->
  Codec.parse_hex reg_text <= 25 ->
  Str.size reg_text + Str.size value_text + 2 < 2 ^ 64 ->
  exists state1 state2,
    cmd_write_register fuel state write = Ok (lit "OK", state1)
    /\ cmd_read_register fuel state1 read = Ok (Codec.be_hex (Codec.parse_hex value_text), state2).
Proof.
  intros Hcur Hget Hwrite Hread Hno Hreg Hsize.
  assert (0 <= Str.size reg_text /\ 0 <= Str.size value_text) as [Hr Hv]
    by (unfold Str.size; lia).
  change (2 ^ 64) with 18446744073709551616 in Hsize.
  set (cpu1 := modify_reg (cpu thread) (Codec.parse_hex reg_text) (Codec.parse_hex value_text)).
  set (state1 := store_thread state (current_thread (gdb state)) (set_cpu thread cpu1)).
  exists state1.
  exists (store_thread state1 (current_thread (gdb state1))
            (set_cpu (set_cpu thread cpu1)
               (snd (fetch_reg cpu1 (Codec.parse_hex reg_text))))).
  split.
  - unfold cmd_write_register.
    rewrite (no_current_thread_false state thread Hcur Hget).
    unfold ThreadMap.deref. rewrite Hget, Hwrite. cbn [bind].
    change ("P"%char :: reg_text ++ "="%char :: value_text)
      with (("P"%char :: reg_text) ++ "="%char :: value_text).
    rewrite find_first by (constructor; [reflexivity | exact Hno]).
    assert (Str.size ("P"%char :: reg_text) = Str.size reg_text + 1) as ->
      by (unfold Str.size; simpl List.length; lia).
    replace (size_t (Str.size reg_text + 1 - 1)) with (Str.size reg_text)
      by (unfold size_t; rewrite Z.mod_small; change (2 ^ 64) with 18446744073709551616; lia).
    replace (size_t (Str.size reg_text + 1 + 1)) with (Str.size (("P"%char :: reg_text) ++ ["="%char]))
      by (unfold size_t, Str.size in *; rewrite length_app; simpl List.length;
          rewrite Z.mod_small; change (2 ^ 64) with 18446744073709551616; lia).
    assert (Str.substr (("P"%char :: reg_text) ++ "="%char :: value_text) 1 (Str.size reg_text)
            = Ok reg_text) as ->.
    { apply (substr_middle ["P"%char] reg_text ("="%char :: value_text)); [lia | right; reflexivity]. }
    cbn [bind].
    assert (Str.substr (("P"%char :: reg_text) ++ "="%char :: value_text)
              (Str.size (("P"%char :: reg_text) ++ ["="%char])) npos
            = Ok value_text) as ->.
    { pose proof (substr_middle (("P"%char :: reg_text) ++ ["="%char]) value_text [] npos) as H.
      rewrite app_nil_r, <- app_assoc in H. apply H; [| left; reflexivity].
      unfold npos. change (2 ^ 64) with 18446744073709551616. lia. }
    reflexivity.
  - assert (current_thread (gdb state1) = current_thread (gdb state)) as Hcur1 by reflexivity.
    assert (ThreadMap.get (threads (kernel state1)) (current_thread (gdb state1))
            = Some (set_cpu thread cpu1)) as Hget1.
    { rewrite Hcur1. unfold state1, store_thread. cbn [kernel with_kernel threads set_threads].
      apply (get_put_same _ _ thread), Hget. }
    unfold cmd_read_register.
    rewrite (no_current_thread_false state1 _ ltac:(rewrite Hcur1; exact Hcur) Hget1).
    unfold ThreadMap.deref. rewrite Hget1, Hread. cbn [bind].
    assert (Str.size ("p"%char :: reg_text) = Str.size reg_text + 1) as ->
      by (unfold Str.size; simpl List.length; lia).
    replace (size_t (Str.size reg_text + 1 - 1)) with (Str.size reg_text)
      by (unfold size_t; rewrite Z.mod_small; change (2 ^ 64) with 18446744073709551616; lia).
    assert (Str.substr ("p"%char :: reg_text) 1 (Str.size reg_text) = Ok reg_text) as ->.
    { pose proof (substr_middle ["p"%char] reg_text [] (Str.size reg_text)) as H.
      rewrite app_nil_r in H. apply H; [lia | left; reflexivity]. }
    cbn [bind cpu set_cpu].
    pose proof (fetch_modify_same (cpu thread) (Codec.parse_hex reg_text)
                  (Codec.parse_hex value_text)
                  (conj (proj1 (parse_hex_range reg_text)) Hreg)) as Hback.
    fold cpu1 in Hback.
    destruct (fetch_reg cpu1 (Codec.parse_hex reg_text)) as [v cpu2].
    cbn [fst snd] in *. subst v. reflexivity.
Qed.

Lemma register_packet_round_trip_witness :
  exists state1 state2,
    cmd_write_register O Fixture.state1 (command_of "Pf=12345678") = Ok (lit "OK", state1)
    /\ cmd_read_register O state1 (command_of "pf") = Ok (lit "78563412", state2).
Proof.
  apply (register_packet_round_trip O Fixture.state1 (command_of "Pf=12345678")
           (command_of "pf") (lit "f") (lit "12345678") (Fixture.thread0 suspend));
    try (vm_compute; reflexivity); try (vm_compute; discriminate).
  repeat constructor.
Defined.

(** ** The current thread *)

Lemma carries_content_string (command : Packet.PacketCommand) (content : bytes) :
  carries command content -> Packet.content_string command = Ok content.
Proof.
  intros (p & rest & Hp & _ & Hlen & Hskip).
  unfold Packet.content_string, Packet.string_of. rewrite Hp, Hlen, Hskip.
  replace (Str.size content <? 0) with false
    by (symmetry; apply Z.ltb_ge; unfold Str.size; lia).
  rewrite firstn_size_app. reflexivity.
Qed.

Lemma carries_command_of (s : string) :
  lit s <> [] -> no_char "#" (lit s) -> carries (command_of s) (lit s).
Proof.
  intros Hne Hno. unfold command_of.
  exists 1, ("#"%char :: Codec.hex2 (Codec.make_checksum (lit s) (Str.size (lit s)))).
  assert (0 < Str.size (lit s)) as Hpos.
  { unfold Str.size. destruct (lit s); [congruence | simpl; lia]. }
  unfold Packet.parse_command. rewrite wire_frame_end_index by exact Hno.
  rewrite wire_frame_size.
  replace (1 <? Str.size (lit s) + 4) with true by (symmetry; apply Z.ltb_lt; lia).
  replace (negb (1 =? -1) && negb (Str.size (lit s) + 1 =? -1) && (1 <? Str.size (lit s) + 1)
           && (Str.size (lit s) + 1 + 2 <? Str.size (lit s) + 4)) with true.
  2:{ symmetry. rewrite !andb_true_iff, !negb_true_iff.
      repeat split; try (apply Z.eqb_neq; lia); apply Z.ltb_lt; lia. }
  cbn [negb Packet.content_start Packet.content_length Packet.data].
  repeat split; try lia. 
Qed.

Lemma skipn_skipn_add {A : Type} (n : nat) :
  forall (m : nat) (l : list A), skipn (m + n) l = skipn n (skipn m l).
Proof.
  intros m. induction m as [| m IH]; intros l; [reflexivity |].
  destruct l as [| x l]; [destruct n; reflexivity |]. apply IH.
Qed.

Lemma nth_skipn_add {A : Type} (d : A) (n : nat) :
  forall (m : nat) (l : list A), nth (m + n) l d = nth n (skipn m l) d.
Proof.
  intros m. induction m as [| m IH]; intros l; [reflexivity |].
  destruct l as [| x l]; [destruct n; reflexivity |]. apply IH.
Qed.

Lemma set_current_thread_fields (command : Packet.PacketCommand) (h op : ascii)
  (text : bytes) :
  carries command (h :: op :: text) ->
  Packet.string_of (Packet.data command)
    (option_map (fun p => p + 2) (Packet.content_start command))
    (Packet.content_length command - 2) = Ok text
  /\ match Packet.content_start command with
     | Some p => Ok (Str.at_ (Packet.data command) (p + 1))
     | None => Fault null_dereference
     end = Ok op.
Proof.
  intros (p & rest & Hp & Hp0 & Hlen & Hskip). rewrite Hp, Hlen. cbn [option_map].
  unfold Packet.string_of.
  assert (Str.size (h :: op :: text) - 2 = Str.size text) as ->
    by (unfold Str.size; simpl List.length; lia).
  replace (Str.size text <? 0) with false
    by (symmetry; apply Z.ltb_ge; unfold Str.size; lia).
  split.
  - replace (Z.to_nat (p + 2)) with (Z.to_nat p + 2)%nat by lia.
    rewrite skipn_skipn_add, Hskip. cbn [app skipn].
    rewrite firstn_size_app. reflexivity.
  - unfold Str.at_. replace (Z.to_nat (p + 1)) with (Z.to_nat p + 1)%nat by lia.
    rewrite nth_skipn_add, Hskip. reflexivity.
Qed.

Lemma with_gdb_same_thread (state : EmuEnvState) :
  with_gdb state (set_current_thread (gdb state) (current_thread (gdb state))) = state.
Proof. destruct state as [[] ? ?]. reflexivity. Qed.

Lemma to_hex_uid_plain (tid : Z) :
  0 <= tid < 2 ^ 32 -> Codec.parse_hex (Codec.to_hex_uid tid) = tid.
Proof.
  intros Htid. unfold Codec.to_hex_uid.
  replace (tid <? 0) with false by (symmetry; apply Z.ltb_ge; lia).
  apply parse_hex_pad_fmt, Htid.
Qed.

(** X10. A thread id taken from the thread list can be used as it was
    written: for a thread [tid] of the table with a positive id, [T] followed
    by the eight digits of [tid] is answered [OK], [Hg] followed by them
    makes [tid] the current thread, and [qC] then reports the same
    digits. *)
Theorem listed_thread_can_be_selected (fuel : nat) (state : EmuEnvState)
  (alive select query : Packet.PacketCommand) (tid : SceUID) :
  In tid (thread_ids state) ->
  0 < tid < 2 ^ 31 ->
  Packet.content_string alive = Ok ("T"%char :: Codec.to_hex_uid tid) ->
  carries select ("H"%char :: "g"%char :: Codec.to_hex_uid tid) ->
  let state1 := with_gdb state (set_current_thread (gdb state) tid) in
  cmd_thread_alive fuel state alive = Ok (lit "OK", state)
  /\ cmd_set_current_thread fuel state select = Ok (lit "OK", state1)
  /\ cmd_get_current_thread fuel state1 query
     = Ok (lit "QC" ++ Codec.to_hex_uid tid, state1).
Proof.
  intros Hin Htid Halive Hselect state1.
  change (2 ^ 31) with 2147483648 in Htid.
  assert (int32_t (Codec.parse_hex (Codec.to_hex_uid tid)) = tid) as Hback.
  { rewrite to_hex_uid_plain by (change (2 ^ 32) with 4294967296; lia).
    unfold int32_t. change (2 ^ 32) with 4294967296. change (2 ^ 31) with 2147483648.
    rewrite Z.mod_small by lia. lia. }
  split; [| split].
  - unfold cmd_thread_alive. rewrite Halive. cbn [bind].
    pose proof (substr_middle ["T"%char] (Codec.to_hex_uid tid) [] npos) as Hsub.
    rewrite app_nil_r in Hsub. change (Str.size ["T"%char]) with 1 in Hsub.
    cbn [app] in Hsub. rewrite Hsub.
    + cbn [bind]. rewrite Hback.
      destruct (in_keys_get _ _ Hin) as [t Ht].
      unfold ThreadMap.contains. rewrite Ht. reflexivity.
    + unfold Codec.to_hex_uid.
      replace (tid <? 0) with false by (symmetry; apply Z.ltb_ge; lia).
      fold (Codec.to_hex tid). unfold Str.size.
      rewrite to_hex_length by (change (2 ^ 32) with 4294967296; lia).
      unfold npos. change (2 ^ 64) with 18446744073709551616. simpl. lia.
    + left. reflexivity.
  - unfold cmd_set_current_thread.
    destruct (set_current_thread_fields _ _ _ _ Hselect) as [-> ->]. cbn [bind].
    change (Ascii.eqb "g" "c") with false. change (Ascii.eqb "g" "g") with true. cbv iota.
    rewrite Hback. unfold select_thread.
    replace (tid =? 0) with false by (symmetry; apply Z.eqb_neq; lia).
    reflexivity.
  - reflexivity.
Qed.

Lemma listed_thread_can_be_selected_witness :
  let state1 := with_gdb Fixture.state0 (set_current_thread (gdb Fixture.state0) 43) in
  cmd_thread_alive O Fixture.state0 (command_of "T0000002b") = Ok (lit "OK", Fixture.state0)
  /\ cmd_set_current_thread O Fixture.state0 (command_of "Hg0000002b") = Ok (lit "OK", state1)
  /\ cmd_get_current_thread O state1 (command_of "qC") = Ok (lit "QC0000002b", state1).
Proof.
  apply (listed_thread_can_be_selected O Fixture.state0 (command_of "T0000002b")
           (command_of "Hg0000002b") (command_of "qC") 43).
  - right. left. reflexivity.
  - lia.
  - reflexivity.
  - apply (carries_command_of "Hg0000002b"); [discriminate | repeat constructor].
Defined.

(** X11. The edges of [H]: the packet [H] with no operation after it makes
    the handler throw ([std::length_error], the length of the thread id is
    -1); with the operation [g] a thread id that reads as 0 selects the
    first thread of the table, or -1 when there is no thread; with any other
    operation the reply is [OK] and nothing changes. *)
Theorem set_current_thread_edges (fuel : nat) (state : EmuEnvState)
  (command : Packet.PacketCommand) (h op : ascii) (text : bytes) :
  (carries command [h] -> cmd_set_current_thread fuel state command = Fault std_length_error)
  /\ (carries command (h :: op :: text) ->
      cmd_set_current_thread fuel state command
      = Ok (lit "OK",
            if Ascii.eqb op "g" then
              with_gdb state
                (set_current_thread (gdb state)
                   (if int32_t (Codec.parse_hex text) =? 0
                    then hd (-1) (thread_ids state)
                    else int32_t (Codec.parse_hex text)))
            else state)).
Proof.
  split.
  - intros (p & rest & Hp & Hp0 & Hlen & Hskip).
    unfold cmd_set_current_thread, Packet.string_of. rewrite Hp, Hlen. reflexivity.
  - intros Hcarries. unfold cmd_set_current_thread.
    destruct (set_current_thread_fields _ _ _ _ Hcarries) as [-> ->]. cbn [bind].
    destruct (Ascii.eqb op "c") eqn:Ec.
    { apply Ascii.eqb_eq in Ec. subst op. reflexivity. }
    destruct (Ascii.eqb op "g"); [| reflexivity].
    unfold select_thread, thread_ids, ThreadMap.keys.
    destruct (int32_t (Codec.parse_hex text) =? 0); [| reflexivity].
    destruct (threads (kernel state)) as [| [k t] m]; reflexivity.
Qed.

Lemma set_current_thread_edges_witness :
  cmd_set_current_thread O Fixture.state0 (command_of "H") = Fault std_length_error
  /\ cmd_set_current_thread O Fixture.state0 (command_of "Hg0")
     = Ok (lit "OK", with_gdb Fixture.state0 (set_current_thread Fixture.gdb0 42)).
Proof.
  split.
  - apply (set_current_thread_edges O Fixture.state0 (command_of "H") "H" "g" []).
    apply (carries_command_of "H"); [discriminate | repeat constructor].
  - apply (set_current_thread_edges O Fixture.state0 (command_of "Hg0") "H" "g" (lit "0")).
    apply (carries_command_of "Hg0"); [discriminate | repeat constructor].
Defined.

(** ** The thread list after its end *)

(** X12. [qsThreadInfo] advances an iterator past the end of the thread
    table exactly when the index of the last page is at or beyond the
    number of threads, or below -1: so a [qsThreadInfo] that follows the
    reply [l], or one that comes after threads have left the table, is
    undefined behaviour, not a second [l]. *)
Theorem next_thread_past_the_end (fuel : nat) (state : EmuEnvState)
  (command : Packet.PacketCommand) :
  cmd_get_next_thread fuel state command = Fault past_the_end
  <-> ThreadMap.size (threads (kernel state)) <= thread_info_index (gdb state)
      \/ thread_info_index (gdb state) < -1.
Proof.
  unfold cmd_get_next_thread. cbn [kernel with_gdb].
  set (index := thread_info_index (gdb state) + 1).
  set (m := threads (kernel state)).
  destruct (Z.eqb_spec index (ThreadMap.size m)) as [Heq | Hne].
  - split; [discriminate |]. unfold ThreadMap.size in *. lia.
  - destruct (Z_lt_le_dec index 0) as [Hneg | Hpos].
    + unfold ThreadMap.key_at.
      replace (index <? 0) with true by (symmetry; apply Z.ltb_lt; lia).
      split; [intros _; right; lia | reflexivity].
    + destruct (Z_lt_le_dec index (ThreadMap.size m)) as [Hin | Hout].
      * destruct (key_at_keys m index ltac:(lia)) as (k & -> & _). cbn [bind].
        split; [discriminate | lia].
      * unfold ThreadMap.key_at, ThreadMap.size in *.
        replace (index <? 0) with false by (symmetry; apply Z.ltb_ge; lia).
        assert (nth_error m (Z.to_nat index) = None) as ->
          by (apply nth_error_None; lia).
        split; [intros _; left; lia | reflexivity].
Qed.

(** ** Breakpoint packets *)

Lemma size_t_small (x : Z) : 0 <= x < 2 ^ 64 -> size_t x = x.
Proof. intros Hx. unfold size_t. apply Z.mod_small, Hx. Qed.

Lemma find_at_end (s : bytes) (ch : ascii) : Str.find s ch (Str.size s) = npos.
Proof. unfold Str.find. rewrite Z.ltb_irrefl. reflexivity. Qed.

Lemma find_after (pre s : bytes) (ch : ascii) :
  s <> [] -> Str.find (pre ++ s) ch (Str.size pre) = Str.find_from s ch (Str.size pre).
Proof.
  intros Hne. unfold Str.find.
  replace (Str.size pre <? Str.size (pre ++ s)) with true.
  - rewrite skipn_size_app. reflexivity.
  - symmetry. apply Z.ltb_lt. unfold Str.size. rewrite length_app.
    destruct s; [congruence | simpl; lia].
Qed.

Lemma find_none (s : bytes) (ch : ascii) : no_char ch s -> Str.find s ch 0 = npos.
Proof.
  intros Hno. unfold Str.find. destruct (0 <? Str.size s); [| reflexivity].
  apply find_from_none, Hno.
Qed.

Lemma substr_whole (s : bytes) (count : Z) :
  Str.size s <= count -> Str.substr s 0 count = Ok s.
Proof.
  intros Hcount. pose proof (substr_middle [] s [] count Hcount (or_introl eq_refl)) as H.
  rewrite app_nil_r in H. exact H.
Qed.

Lemma substr_tail (pre s : bytes) (count : Z) :
  Str.size s <= count -> Str.substr (pre ++ s) (Str.size pre) count = Ok s.
Proof.
  intros Hcount. pose proof (substr_middle pre s [] count Hcount (or_introl eq_refl)) as H.
  rewrite app_nil_r in H. exact H.
Qed.

Lemma stol_of_packet_letter (c : ascii) (s : bytes) :
  Ascii.eqb c "Z" || Ascii.eqb c "z" = true -> stol (c :: s) = Fault std_invalid_argument.
Proof.
  intros Hc. apply orb_true_iff in Hc as [Hc | Hc]; apply Ascii.eqb_eq in Hc; subst c;
    reflexivity.
Qed.

Lemma breakpoint_fields_bind (content kind_text : bytes) :
  forall (type_pos type_count addr_pos addr_count kind_pos kind_count : Z) address_text,
  Str.substr content addr_pos addr_count = Ok address_text ->
  Str.substr content kind_pos kind_count = Ok kind_text ->
  stol kind_text = Fault std_invalid_argument ->
  exists e,
    (type_text <- Str.substr content type_pos type_count ;;
     type <- stol type_text ;;
     address_text <- Str.substr content addr_pos addr_count ;;
     kind_text <- Str.substr content kind_pos kind_count ;;
     kind <- stol kind_text ;;
     Ok (uint32_t type, Codec.parse_hex address_text, uint32_t kind)) = Fault e.
Proof.
  intros type_pos type_count addr_pos addr_count kind_pos kind_count address_text
    Haddr Hkind Hstol.
  destruct (Str.substr content type_pos type_count) as [type_text | e |] eqn:Htype;
    cbn [bind].
  - destruct (stol type_text) as [type | e |] eqn:Hstol_type; cbn [bind].
    + rewrite Haddr. cbn [bind]. rewrite Hkind. cbn [bind]. rewrite Hstol. cbn [bind].
      eexists. reflexivity.
    + eexists. reflexivity.
    + unfold stol in Hstol_type.
      destruct (Codec.strip_sign _) as [negative s1].
      destruct (negb _); [discriminate |].
      destruct (Codec.accumulate _ _ _ _) as [v overflow].
      destruct (_ || _); discriminate.
  - eexists. reflexivity.
  - unfold Str.substr in Htype. destruct (_ <? _); discriminate.
Qed.

Lemma split_on_length (sep : ascii) (s : bytes) : (1 <= List.length (split_on sep s))%nat.
Proof.
  induction s as [| c s IH]; cbn [split_on]; [simpl; lia |].
  destruct (Ascii.eqb c sep); [simpl; lia |].
  destruct (split_on sep s); simpl in *; lia.
Qed.

Lemma breakpoint_fields_short (c : ascii) (body : bytes) :
  Ascii.eqb c "Z" || Ascii.eqb c "z" = true ->
  (List.length (split_on "," body) <= 2)%nat ->
  Str.size body + 1 < 2 ^ 64 ->
  exists e, breakpoint_fields (c :: body) = Fault e.
Proof.
  intros Hc Hcommas Hsize.
  assert (0 <= Str.size body) as Hbody by (unfold Str.size; lia).
  assert (Ascii.eqb c "," = false) as Hcomma.
  { apply orb_true_iff in Hc as [Hc | Hc]; apply Ascii.eqb_eq in Hc; subst c; reflexivity. }
  assert (Str.size (c :: body) = Str.size body + 1) as Hlen
    by (unfold Str.size; simpl List.length; lia).
  change (2 ^ 64) with 18446744073709551616 in Hsize.
  unfold breakpoint_fields.
  destruct (split_on_cases "," body) as [[Hno Hsplit] | (a & b & Hbody_eq & Ha & Hsplit)].
  - (* no comma *)
    rewrite find_none by (constructor; assumption).
    change (size_t (npos + 1)) with 0.
    rewrite find_none by (constructor; assumption).
    change (size_t (npos + 1)) with 0.
    apply (breakpoint_fields_bind (c :: body) (c :: body) _ _ _ _ _ _ (c :: body)).
    + apply substr_whole. rewrite Hlen.
      change (size_t (npos - 1 - npos)) with 18446744073709551615. lia.
    + apply substr_whole. rewrite Hlen.
      replace (size_t (Str.size body + 1 - npos - 1)) with (Str.size body + 1); [lia |].
      unfold size_t, npos. change (2 ^ 64) with 18446744073709551616.
      replace (Str.size body + 1 - (18446744073709551616 - 1) - 1)
        with (Str.size body + 1 + (-1) * 18446744073709551616) by lia.
      rewrite Z.mod_add by lia. rewrite Z.mod_small; lia.
    + apply stol_of_packet_letter, Hc.
  - (* one comma *)
    rewrite Hsplit in Hcommas. cbn [List.length] in Hcommas.
    destruct (split_on_cases "," b) as [[Hb Hsplit_b] | (a' & b' & _ & _ & Hsplit_b)].
    2:{ rewrite Hsplit_b in Hcommas. cbn [List.length] in Hcommas.
        pose proof (split_on_length "," b'). lia. }
    subst body.
    assert (Str.size (a ++ ","%char :: b) = Str.size a + 1 + Str.size b) as Hab
      by (unfold Str.size; rewrite length_app; simpl List.length; lia).
    assert (0 <= Str.size a /\ 0 <= Str.size b) as [Ha0 Hb0] by (unfold Str.size; lia).
    change (c :: a ++ ","%char :: b) with ((c :: a) ++ ","%char :: b).
    rewrite find_first by (constructor; assumption).
    assert (Str.size (c :: a) = Str.size a + 1) as ->
      by (unfold Str.size; simpl List.length; lia).
    rewrite (size_t_small (Str.size a + 1 + 1))
      by (change (2 ^ 64) with 18446744073709551616; lia).
    assert (Str.find ((c :: a) ++ ","%char :: b) "," (Str.size a + 1 + 1) = npos) as ->.
    { replace ((c :: a) ++ ","%char :: b) with (((c :: a) ++ [","%char]) ++ b)
        by (rewrite <- app_assoc; reflexivity).
      replace (Str.size a + 1 + 1) with (Str.size ((c :: a) ++ [","%char]))
        by (unfold Str.size; rewrite length_app; simpl List.length; lia).
      destruct b as [| b0 b1].
      - rewrite app_nil_r. apply find_at_end.
      - rewrite find_after by discriminate. apply find_from_none, Hb. }
    change (size_t (npos + 1)) with 0.
    apply (breakpoint_fields_bind _ ((c :: a) ++ ","%char :: b) _ _ _ _ _ _ b).
    + replace ((c :: a) ++ ","%char :: b) with (((c :: a) ++ [","%char]) ++ b)
        by (rewrite <- app_assoc; reflexivity).
      replace (Str.size a + 1 + 1) with (Str.size ((c :: a) ++ [","%char]))
        by (unfold Str.size; rewrite length_app; simpl List.length; lia).
      apply substr_tail.
      rewrite size_t_small; unfold npos; change (2 ^ 64) with 18446744073709551616; lia.
    + apply substr_whole.
      assert (Str.size ((c :: a) ++ ","%char :: b) = Str.size a + Str.size b + 2) as ->
        by (unfold Str.size; simpl List.length; rewrite length_app; simpl List.length; lia).
      replace (size_t (Str.size a + Str.size b + 2 - npos - 1))
        with (Str.size a + Str.size b + 2); [lia |].
      unfold size_t, npos. change (2 ^ 64) with 18446744073709551616.
      replace (Str.size a + Str.size b + 2 - (18446744073709551616 - 1) - 1)
        with (Str.size a + Str.size b + 2 + (-1) * 18446744073709551616) by lia.
      rewrite Z.mod_add by lia. rewrite Z.mod_small; lia.
    + apply stol_of_packet_letter, Hc.
Qed.

(** X13. For a [Z] or [z] packet with fewer than two commas both handlers
    leave by an exception instead of returning a reply: the text they give
    [std::stol] for the kind is then the whole packet, letter included. *)
Theorem breakpoint_packet_needs_two_commas (C : Collaborators) (fuel : nat)
  (state : EmuEnvState) (command : Packet.PacketCommand) (c : ascii) (body : bytes) :
  Packet.content_string command = Ok (c :: body) ->
  Ascii.eqb c "Z" || Ascii.eqb c "z" = true ->
  (List.length (split_on "," body) <= 2)%nat ->
  Str.size body + 1 < 2 ^ 64 ->
  exists e,
    cmd_add_breakpoint C fuel state command = Fault e
    /\ cmd_remove_breakpoint C fuel state command = Fault e.
Proof.
  intros Hcontent Hc Hcommas Hsize.
  destruct (breakpoint_fields_short c body Hc Hcommas Hsize) as [e He].
  exists e. unfold cmd_add_breakpoint, cmd_remove_breakpoint.
  rewrite Hcontent. cbn [bind]. rewrite He. split; reflexivity.
Qed.

Lemma breakpoint_packet_needs_two_commas_witness :
  exists e,
    cmd_add_breakpoint Fixture.idle O Fixture.state0 (command_of "Z0,10000") = Fault e
    /\ cmd_remove_breakpoint Fixture.idle O Fixture.state0 (command_of "Z0,10000") = Fault e.
Proof.
  apply (breakpoint_packet_needs_two_commas Fixture.idle O Fixture.state0
           (command_of "Z0,10000") "Z" (lit "0,10000")).
  - reflexivity.
  - reflexivity.
  - vm_compute. lia.
  - vm_compute. reflexivity.
Defined.

Lemma breakpoint_fields_whole (c : ascii) (type_text address_text kind_text : bytes)
  (type kind : Z) :
  Ascii.eqb c "," = false -> no_char "," type_text -> no_char "," address_text ->
  stol type_text = Ok type -> stol kind_text = Ok kind ->
  Str.size type_text + Str.size address_text + Str.size kind_text + 3 < 2 ^ 64 ->
  breakpoint_fields (c :: type_text ++ ","%char :: address_text ++ ","%char :: kind_text)
  = Ok (uint32_t type, Codec.parse_hex address_text, uint32_t kind).
Proof.
  intros Hc Htype Haddr Hstol_type Hstol_kind Hsize.
  change (2 ^ 64) with 18446744073709551616 in Hsize.
  assert (0 <= Str.size type_text /\ 0 <= Str.size address_text /\ 0 <= Str.size kind_text)
    as (H1 & H2 & H3) by (unfold Str.size; lia).
  set (content := c :: type_text ++ ","%char :: address_text ++ ","%char :: kind_text).
  set (pre1 := c :: type_text).
  set (pre2 := pre1 ++ [","%char]).
  set (pre3 := pre2 ++ address_text).
  set (pre4 := pre3 ++ [","%char]).
  assert (content = pre1 ++ ","%char :: address_text ++ ","%char :: kind_text) as E1
    by reflexivity.
  assert (content = pre2 ++ address_text ++ ","%char :: kind_text) as E2
    by (unfold pre2; rewrite <- app_assoc; reflexivity).
  assert (content = pre3 ++ ","%char :: kind_text) as E3
    by (unfold pre3; rewrite <- app_assoc; exact E2).
  assert (content = pre4 ++ kind_text) as E4
    by (unfold pre4; rewrite <- app_assoc; exact E3).
  assert (Str.size pre1 = Str.size type_text + 1) as S1
    by (unfold pre1, Str.size; simpl List.length; lia).
  assert (Str.size pre2 = Str.size type_text + 2) as S2
    by (unfold pre2, Str.size in *; rewrite length_app;
        change (List.length [","%char]) with 1%nat; lia).
  assert (Str.size pre3 = Str.size type_text + 2 + Str.size address_text) as S3
    by (unfold pre3, Str.size in *; rewrite length_app; lia).
  assert (Str.size pre4 = Str.size type_text + 3 + Str.size address_text) as S4
    by (unfold pre4, Str.size in *; rewrite length_app;
        change (List.length [","%char]) with 1%nat; lia).
  assert (Str.size content
          = Str.size type_text + Str.size address_text + Str.size kind_text + 3) as S0.
  { rewrite E4. unfold Str.size in *. rewrite length_app. lia. }
  assert (Str.find content "," 0 = Str.size pre1) as Hfirst.
  { rewrite E1. apply find_first. constructor; assumption. }
  assert (Str.find content "," (Str.size pre2) = Str.size pre3) as Hsecond.
  { rewrite E2. rewrite find_after by (destruct address_text; discriminate).
    rewrite find_from_skip by exact Haddr. rewrite S3. lia. }
  unfold breakpoint_fields. fold content. rewrite Hfirst.
  rewrite (size_t_small (Str.size pre1 + 1))
    by (change (2 ^ 64) with 18446744073709551616; lia).
  replace (Str.size pre1 + 1) with (Str.size pre2) by lia. rewrite Hsecond.
  rewrite (size_t_small (Str.size pre1 - 1))
    by (change (2 ^ 64) with 18446744073709551616; lia).
  rewrite (size_t_small (Str.size pre3 - 1 - Str.size pre1))
    by (change (2 ^ 64) with 18446744073709551616; lia).
  rewrite (size_t_small (Str.size pre3 + 1))
    by (change (2 ^ 64) with 18446744073709551616; lia).
  rewrite (size_t_small (Str.size content - Str.size pre3 - 1))
    by (change (2 ^ 64) with 18446744073709551616; lia).
  assert (Str.substr content 1 (Str.size pre1 - 1) = Ok type_text) as ->.
  { apply (substr_middle [c] type_text (","%char :: address_text ++ ","%char :: kind_text));
      [lia | right; lia]. }
  cbn [bind]. rewrite Hstol_type. cbn [bind].
  assert (Str.substr content (Str.size pre2) (Str.size pre3 - 1 - Str.size pre1)
          = Ok address_text) as ->.
  { rewrite E2. apply substr_middle; [lia | right; lia]. }
  cbn [bind].
  assert (Str.substr content (Str.size pre3 + 1) (Str.size content - Str.size pre3 - 1)
          = Ok kind_text) as ->.
  { replace (Str.size pre3 + 1) with (Str.size pre4) by lia. rewrite E4 at 1.
    apply substr_tail. lia. }
  cbn [bind]. rewrite Hstol_kind. reflexivity.
Qed.

(** X14. A [Z] or [z] packet with its three fields [type,addr,kind]: the
    address is what [parse_hex] reads from the second field; the reply is
    [EAA], with nothing changed, when [is_valid_guest_addr] rejects the
    address; otherwise the reply is [OK] and the breakpoint at this address
    is installed, in Thumb mode exactly when the kind is 2, or removed.  The
    type is read and plays no part: every type installs a breakpoint. *)
Theorem breakpoint_packet_fields (C : Collaborators) (fuel : nat) (state : EmuEnvState)
  (command : Packet.PacketCommand) (c : ascii) (type_text address_text kind_text : bytes)
  (type kind : Z) :
  Packet.content_string command
  = Ok (c :: type_text ++ ","%char :: address_text ++ ","%char :: kind_text) ->
  Ascii.eqb c "," = false -> no_char "," type_text -> no_char "," address_text ->
  stol type_text = Ok type -> stol kind_text = Ok kind ->
  Str.size type_text + Str.size address_text + Str.size kind_text + 3 < 2 ^ 64 ->
  let address := Codec.parse_hex address_text in
  cmd_add_breakpoint C fuel state command
  = (if is_valid_guest_addr C (mem state) address
     then Ok (lit "OK",
              with_kernel state (add_breakpoint (kernel state) address (uint32_t kind =? 2)))
     else Ok (lit "EAA", state))
  /\ cmd_remove_breakpoint C fuel state command
     = (if is_valid_guest_addr C (mem state) address
        then Ok (lit "OK", with_kernel state (remove_breakpoint (kernel state) address))
        else Ok (lit "EAA", state)).
Proof.
  intros Hcontent Hc Htype Haddr Hstol_type Hstol_kind Hsize address.
  unfold cmd_add_breakpoint, cmd_remove_breakpoint. rewrite Hcontent. cbn [bind].
  rewrite (breakpoint_fields_whole c type_text address_text kind_text type kind)
    by assumption.
  cbn [bind]. fold address.
  destruct (is_valid_guest_addr C (mem state) address); split; reflexivity.
Qed.

Lemma breakpoint_packet_fields_witness :
  cmd_add_breakpoint Fixture.idle O Fixture.state0 (command_of "Z3,00010000,2")
  = Ok (lit "OK",
        with_kernel Fixture.state0 (add_breakpoint (kernel Fixture.state0) 65536 true))
  /\ cmd_remove_breakpoint Fixture.idle O Fixture.state0 (command_of "Z3,00010000,2")
     = Ok (lit "OK",
           with_kernel Fixture.state0 (remove_breakpoint (kernel Fixture.state0) 65536)).
Proof.
  apply (breakpoint_packet_fields Fixture.idle O Fixture.state0
           (command_of "Z3,00010000,2") "Z" (lit "3") (lit "00010000") (lit "2") 3 2);
    try reflexivity; try (repeat constructor).
Defined.

(** ** Memory writes *)

(** X15. [check_memory_region] looks at no page when the end of the range,
    computed in 32 bits, is not above its start: an empty range and a range
    that reaches or passes the top of the address space are accepted
    whatever the state of the memory. *)
Theorem check_memory_region_wrapped (fuel : nat) (address len : Z) (m : MemState) :
  0 < address < 2 ^ 32 -> 0 <= len < 2 ^ 32 ->
  len = 0 \/ 2 ^ 32 <= address + len ->
  check_memory_region (S fuel) address len m = Ok true.
Proof.
  intros Ha Hlen Hwrap. change (2 ^ 32) with 4294967296 in *.
  unfold check_memory_region.
  replace (address =? 0) with false by (symmetry; apply Z.eqb_neq; lia).
  cbn [check_memory_loop].
  assert (uint32_t (address + len) <= address) as Hend.
  { unfold uint32_t. change (2 ^ 32) with 4294967296. destruct Hwrap as [-> | Hwrap].
    - rewrite Z.add_0_r, Z.mod_small; lia.
    - replace (address + len) with (address + len - 4294967296 + 1 * 4294967296) by lia.
      rewrite Z.mod_add by lia. rewrite Z.mod_small; lia. }
  replace (address <? uint32_t (address + len)) with false
    by (symmetry; apply Z.ltb_ge; exact Hend).
  reflexivity.
Qed.

Lemma check_memory_region_wrapped_witness :
  check_memory_region 1 4294963200 4096 Fixture.mem0 = Ok true
  /\ is_valid_addr Fixture.mem0 4294963200 = false.
Proof.
  split; [| reflexivity].
  apply (check_memory_region_wrapped O 4294963200 4096 Fixture.mem0).
  - split; [lia | reflexivity].
  - split; [lia | reflexivity].
  - right. vm_compute. discriminate.
Defined.

Lemma parse_hex_colon (s rest : bytes) :
  Codec.parse_hex (s ++ ":"%char :: rest) = Codec.parse_hex s.
Proof.
  unfold Codec.parse_hex, Codec.strtoul16.
  rewrite skip_space_stop by reflexivity. rewrite strip_sign_stop by reflexivity.
  destruct (Codec.strip_sign (Codec.skip_space s)) as [negative s1]. cbn [fst snd].
  rewrite strip_0x_stop by reflexivity. rewrite accumulate_stop by exact I.
  reflexivity.
Qed.

Lemma hex_of_length (bs : list Z) :
  Forall (fun b => 0 <= b < 256) bs -> Str.size (hex_of bs) = 2 * Z.of_nat (List.length bs).
Proof.
  unfold Str.size, hex_of. induction 1 as [| b bs Hb _ IH]; [reflexivity |].
  cbn [map concat]. rewrite length_app, hex2_length by exact Hb.
  simpl List.length. lia.
Qed.

Lemma hex_of_app (xs ys : list Z) : hex_of (xs ++ ys) = hex_of xs ++ hex_of ys.
Proof. unfold hex_of. rewrite map_app, concat_app. reflexivity. Qed.

Lemma hex_of_substr (bs : list Z) (i : nat) :
  Forall (fun b => 0 <= b < 256) bs -> (i < List.length bs)%nat ->
  Str.substr (hex_of bs) (2 * Z.of_nat i) 2 = Ok (Codec.hex2 (nth i bs 0)).
Proof.
  intros Hbs Hi.
  destruct (nth_split bs 0 Hi) as (xs & ys & Hsplit & Hxs).
  assert (Forall (fun b => 0 <= b < 256) xs /\ 0 <= nth i bs 0 < 256) as [Hrange Hb].
  { rewrite Hsplit in Hbs. apply Forall_app in Hbs as [H1 H2].
    inversion H2; subst. split; assumption. }
  rewrite Hsplit at 1. rewrite hex_of_app.
  change (hex_of (nth i bs 0 :: ys)) with (Codec.hex2 (nth i bs 0) ++ hex_of ys).
  replace (2 * Z.of_nat i) with (Str.size (hex_of xs))
    by (rewrite hex_of_length by exact Hrange; unfold Str.size; lia).
  apply substr_middle; unfold Str.size; rewrite hex2_length by exact Hb;
    [simpl; lia | right; reflexivity].
Qed.

Lemma parse_hex_hex2 (b : Z) : 0 <= b < 256 -> Codec.parse_hex (Codec.hex2 b) = b.
Proof. intros Hb. apply parse_hex_pad_fmt. change (2 ^ 32) with 4294967296. lia. Qed.

Lemma uint32_t_small (x : Z) : 0 <= x < 2 ^ 32 -> uint32_t x = x.
Proof. intros Hx. unfold uint32_t. apply Z.mod_small, Hx. Qed.

Lemma uint8_t_small (x : Z) : 0 <= x < 256 -> uint8_t x = x.
Proof. intros Hx. unfold uint8_t. apply Z.mod_small. change (2 ^ 8) with 256. exact Hx. Qed.

(** The memory after the loop of [cmd_write_memory] when the addresses
    relative to the ELF base are valid: the bytes lie at these relative
    addresses, and nothing else has changed. *)
Lemma write_memory_loop_bytes (address : Z) (bs : list Z) (k : nat) :
  forall (i : nat) (m : MemState),
  Forall (fun b => 0 <= b < 256) bs ->
  (i + k = List.length bs)%nat ->
  0 < address -> address + Z.of_nat (List.length bs) <= 2 ^ 32 ->
  0 <= address - elf_base m ->
  address - elf_base m + Z.of_nat (List.length bs) <= 2 ^ 32 ->
  Z.of_nat (List.length bs) <= 2 ^ 31 ->
  range_valid m (address - elf_base m) (Z.of_nat (List.length bs)) ->
  exists m',
    write_memory_loop k m address (Z.of_nat i) (hex_of bs) = Ok m'
    /\ page_size m' = page_size m /\ page_valid m' = page_valid m
    /\ use_page_table m' = use_page_table m /\ elf_base m' = elf_base m
    /\ (forall j, (i <= j < i + k)%nat ->
                  host m' (address - elf_base m + Z.of_nat j) = nth j bs 0)
    /\ (forall x, ~ (address - elf_base m + Z.of_nat i <= x
                     < address - elf_base m + Z.of_nat i + Z.of_nat k) ->
                  host m' x = host m x).
Proof.
  change (2 ^ 32) with 4294967296. change (2 ^ 31) with 2147483648.
  induction k as [| k IH]; intros i m Hbs Hik Hpos Hend Hrel Hrelend Hlen Hvalid.
  - exists m. repeat split; try reflexivity. intros j Hj. lia.
  - cbn [write_memory_loop].
    rewrite (uint32_t_small (Z.of_nat i * 2)) by (change (2 ^ 32) with 4294967296; lia).
    replace (Z.of_nat i * 2) with (2 * Z.of_nat i) by lia.
    rewrite hex_of_substr by (assumption || lia). cbn [bind].
    rewrite (uint32_t_small (address + Z.of_nat i))
      by (change (2 ^ 32) with 4294967296; lia).
    assert (0 <= nth i bs 0 < 256) as Hb.
    { rewrite Forall_forall in Hbs. apply Hbs. apply nth_In. lia. }
    assert (Ptr_get_guest m (address + Z.of_nat i)
            = Some (address - elf_base m + Z.of_nat i)) as ->.
    { unfold Ptr_get_guest.
      replace (address + Z.of_nat i =? 0) with false by (symmetry; apply Z.eqb_neq; lia).
      replace (address + Z.of_nat i - elf_base m) with (address - elf_base m + Z.of_nat i)
        by lia.
      rewrite (uint32_t_small (address - elf_base m + Z.of_nat i))
        by (change (2 ^ 32) with 4294967296; lia).
      rewrite (Hvalid (address - elf_base m + Z.of_nat i)) by lia. reflexivity. }
    rewrite parse_hex_hex2 by exact Hb. rewrite uint8_t_small by exact Hb.
    set (m1 := host_store m (address - elf_base m + Z.of_nat i) (nth i bs 0)).
    replace (Z.of_nat i + 1) with (Z.of_nat (S i)) by lia.
    destruct (IH (S i) m1 Hbs ltac:(lia) Hpos Hend Hrel Hrelend Hlen Hvalid)
      as (m' & Hrun & Hps & Hpv & Hupt & Heb & Hin & Hout).
    change (elf_base m1) with (elf_base m) in *.
    exists m'. split; [exact Hrun |]. repeat split; try assumption.
    + intros j Hj. destruct (Nat.eq_dec j i) as [-> | Hne].
      * rewrite Hout by lia. unfold m1, host_store. cbn [host].
        rewrite Z.eqb_refl. reflexivity.
      * apply Hin. lia.
    + intros x Hx. rewrite Hout by lia. unfold m1, host_store. cbn [host].
      replace (x =? address - elf_base m + Z.of_nat i) with false
        by (symmetry; apply Z.eqb_neq; lia).
      reflexivity.
Qed.

Lemma map_nth_seq (f : Z -> bytes) (bs : list Z) :
  forall s,
  map (fun i => f (nth (i - s) bs 0)) (seq s (List.length bs)) = map f bs.
Proof.
  induction bs as [| b bs IH]; intros s; [reflexivity |].
  cbn [List.length seq map]. rewrite Nat.sub_diag. cbn [nth]. f_equal.
  rewrite <- (IH (S s)). apply map_ext_in. intros i Hi. apply in_seq in Hi.
  replace (i - s)%nat with (S (i - S s)) by lia. reflexivity.
Qed.

Lemma write_memory_fields (first second hex_data : bytes) :
  let content := "M"%char :: first ++ ","%char :: second ++ ":"%char :: hex_data in
  no_char "," first -> no_char ":" first -> no_char ":" second ->
  Str.size content < 2 ^ 64 ->
  Str.substr content 1 (size_t (Str.find content "," 0 - 1)) = Ok first
  /\ Str.substr content (size_t (Str.find content "," 0 + 1))
       (size_t (Str.find content ":" 0 - Str.find content "," 0))
     = Ok (second ++ [":"%char])
  /\ Str.substr content (size_t (Str.find content ":" 0 + 1)) npos = Ok hex_data.
Proof.
  intros content Hcomma Hcolon1 Hcolon2 Hsize.
  change (2 ^ 64) with 18446744073709551616 in Hsize.
  set (pre1 := "M"%char :: first).
  set (pre2 := pre1 ++ [","%char]).
  set (pre3 := pre2 ++ second).
  set (pre4 := pre3 ++ [":"%char]).
  assert (content = pre1 ++ ","%char :: second ++ ":"%char :: hex_data) as E1 by reflexivity.
  assert (content = pre2 ++ (second ++ [":"%char]) ++ hex_data) as E2.
  { unfold pre2. rewrite <- !app_assoc. reflexivity. }
  assert (content = pre3 ++ ":"%char :: hex_data) as E3.
  { unfold pre3, pre2. rewrite <- !app_assoc. reflexivity. }
  assert (content = pre4 ++ hex_data) as E4.
  { unfold pre4. rewrite <- app_assoc. exact E3. }
  assert (0 <= Str.size first /\ 0 <= Str.size second /\ 0 <= Str.size hex_data)
    as (H1 & H2 & H3) by (unfold Str.size; lia).
  assert (Str.size pre1 = Str.size first + 1) as S1
    by (unfold pre1, Str.size; simpl List.length; lia).
  assert (Str.size pre2 = Str.size first + 2) as S2
    by (unfold pre2, Str.size in *; rewrite length_app;
        change (List.length [","%char]) with 1%nat; lia).
  assert (Str.size pre3 = Str.size first + 2 + Str.size second) as S3
    by (unfold pre3, Str.size in *; rewrite length_app; lia).
  assert (Str.size pre4 = Str.size first + 3 + Str.size second) as S4
    by (unfold pre4, Str.size in *; rewrite length_app;
        change (List.length [":"%char]) with 1%nat; lia).
  assert (Str.size content = Str.size first + Str.size second + Str.size hex_data + 3) as S0.
  { rewrite E4. unfold Str.size in *. rewrite length_app. lia. }
  assert (Str.find content "," 0 = Str.size pre1) as ->.
  { rewrite E1. apply find_first. constructor; [reflexivity | exact Hcomma]. }
  assert (Str.find content ":" 0 = Str.size pre3) as ->.
  { rewrite E3. apply find_first. unfold pre3, pre2, pre1.
    apply Forall_app. split; [| exact Hcolon2].
    apply Forall_app. split; [| repeat constructor].
    constructor; [reflexivity | exact Hcolon1]. }
  rewrite !size_t_small by (change (2 ^ 64) with 18446744073709551616; lia).
  split; [| split].
  - apply (substr_middle ["M"%char] first (","%char :: second ++ ":"%char :: hex_data));
      [lia | right; lia].
  - replace (Str.size pre1 + 1) with (Str.size pre2) by lia. rewrite E2.
    apply substr_middle; unfold Str.size in *; rewrite length_app;
      change (List.length [":"%char]) with 1%nat; [lia | right; lia].
  - replace (Str.size pre3 + 1) with (Str.size pre4) by lia. rewrite E4.
    apply substr_tail. unfold npos. change (2 ^ 64) with 18446744073709551616. lia.
Qed.

(** X16. What [M] writes, [m] reads back at the address relative to the
    ELF base: [M] goes through [Ptr::get_guest], which takes the base off the
    address, and [m] through [Ptr::get], which does not.  Without a page
    table, when the checks of both packets pass, [M addr,len:XX...] with the
    hex text of [len] bytes is answered [OK], and [m addr',len] with
    [addr' = addr - elf_base] is then answered by the same hex text; this is
    [m addr,len] exactly when the base is 0. *)
Theorem memory_written_is_read_back (C : Collaborators) (state : EmuEnvState)
  (write read : Packet.PacketCommand) (addr_text read_addr_text len_text : bytes)
  (bs : list Z) :
  let a := Codec.parse_hex addr_text in
  let a' := Codec.parse_hex read_addr_text in
  let n := Z.of_nat (List.length bs) in
  Packet.content_string write
  = Ok ("M"%char :: addr_text ++ ","%char :: len_text ++ ":"%char :: hex_of bs) ->
  Packet.content_string read = Ok ("m"%char :: read_addr_text ++ ","%char :: len_text) ->
  no_char "," addr_text -> no_char ":" addr_text -> no_char ":" len_text ->
  no_char "," read_addr_text ->
  Codec.parse_hex len_text = n ->
  Forall (fun b => 0 <= b < 256) bs ->
  Str.size addr_text + Str.size read_addr_text + Str.size len_text + 2 * n + 3 < 2 ^ 64 ->
  a' = a - elf_base (mem state) ->
  use_page_table (mem state) = false ->
  0 < page_size (mem state) ->
  0 < a -> a + n + page_size (mem state) <= 2 ^ 32 ->
  0 < a' -> a' + n + page_size (mem state) <= 2 ^ 32 ->
  n <= 2 ^ 31 ->
  range_valid (mem state) a n ->
  range_valid (mem state) a' n ->
  (forall m, is_valid_guest_addr_range C m a' (a' + n) = true) ->
  exists fuel0, forall fuel, (fuel0 <= fuel)%nat ->
  exists state1,
    cmd_write_memory fuel state write = Ok (lit "OK", state1)
    /\ cmd_read_memory C fuel state1 read = Ok (hex_of bs, state1).
Proof.
  intros a a' n Hwrite Hread Hcomma Hcolon1 Hcolon2 Hcomma' Hlen Hbs Hsize Hbase Hflat Hps
    Ha Hend Ha' Hend' Hn Hvalid Hvalid' Hrange.
  change (2 ^ 32) with 4294967296 in *. change (2 ^ 31) with 2147483648 in *.
  assert (0 <= n) as Hn0 by (unfold n; lia).
  assert (0 <= Str.size addr_text /\ 0 <= Str.size read_addr_text /\ 0 <= Str.size len_text)
    as (Hs1 & Hs2 & Hs3) by (unfold Str.size; lia).
  assert (Str.size (hex_of bs) = 2 * n) as Hhex by (apply hex_of_length, Hbs).
  exists (Z.to_nat n + 2)%nat. intros fuel Hfuel.
  assert (forall m x, page_size m = page_size (mem state) ->
                      page_valid m = page_valid (mem state) ->
                      0 < x -> x + n + page_size (mem state) <= 4294967296 ->
                      range_valid (mem state) x n ->
                      check_memory_region fuel x n m = Ok true) as Hcheck.
  { intros m x Hpsm Hpvm Hx Hxend Hxvalid. unfold check_memory_region.
    replace (x =? 0) with false by (symmetry; apply Z.eqb_neq; lia).
    rewrite uint32_t_small by (change (2 ^ 32) with 4294967296; lia).
    destruct (check_memory_loop_probes m (x + n) fuel x) as (b & Hb & Hiff);
      try (rewrite ?Hpsm; change (2 ^ 32) with 4294967296; lia).
    { rewrite Hpsm. nia. }
    rewrite Hb. f_equal. apply Hiff. apply range_valid_probes; [rewrite Hpsm; exact Hps |].
    intros y Hy. unfold is_valid_addr. rewrite Hpsm, Hpvm. apply Hxvalid, Hy. }
  destruct (write_memory_loop_bytes a bs (List.length bs) O (mem state) Hbs eq_refl Ha)
    as (m' & Hrun & Hps' & Hpv' & Hupt' & Heb' & Hin & Hout);
    try (fold n; rewrite <- ?Hbase; change (2 ^ 32) with 4294967296;
         change (2 ^ 31) with 2147483648; lia);
    try (fold n; rewrite <- Hbase; exact Hvalid').
  rewrite <- Hbase in Hin.
  exists (with_mem state m'). split.
  - unfold cmd_write_memory. rewrite Hwrite. cbn [bind].
    destruct (write_memory_fields addr_text len_text (hex_of bs) Hcomma Hcolon1 Hcolon2)
      as (Hf1 & Hf2 & Hf3).
    { unfold Str.size in *. simpl List.length. rewrite !length_app. simpl List.length.
      rewrite length_app. simpl List.length.
      change (2 ^ 64) with 18446744073709551616 in *. lia. }
    rewrite Hf1. cbn [bind]. rewrite Hf2. cbn [bind]. rewrite Hf3. cbn [bind].
    fold a. rewrite parse_hex_colon, Hlen.
    rewrite Hcheck by (reflexivity || assumption). cbn [bind negb].
    unfold n. rewrite Nat2Z.id.
    change (Z.of_nat 0) with 0 in Hrun. rewrite Hrun. reflexivity.
  - unfold cmd_read_memory. rewrite Hread. cbn [bind].
    destruct (read_memory_fields read_addr_text len_text Hcomma') as (Hf1 & Hf2).
    { unfold Str.size in *. simpl List.length. rewrite !length_app. simpl List.length.
      change (2 ^ 64) with 18446744073709551616 in *. lia. }
    rewrite Hf1. cbn [bind]. rewrite Hf2. cbn [bind]. fold a'. rewrite Hlen.
    rewrite uint32_t_small by (change (2 ^ 32) with 4294967296; lia).
    cbn [mem with_mem]. rewrite Hrange. cbn [negb].
    rewrite Hcheck by assumption. cbn [bind negb].
    pose proof (read_memory_loop_bytes m' a' (Z.to_nat n) O []) as Hloop.
    change (Z.of_nat 0) with 0 in Hloop.
    rewrite Hloop by (change (2 ^ 32) with 4294967296; lia).
    cbn [bind app]. f_equal. f_equal.
    unfold n. rewrite Nat2Z.id. unfold hex_of.
    rewrite <- (map_nth_seq Codec.hex2 bs O). f_equal.
    apply map_ext_in. intros i Hi. apply in_seq in Hi. rewrite Nat.sub_0_r.
    f_equal. unfold byte_at, Ptr_get.
    replace (a' + Z.of_nat i =? 0) with false by (symmetry; apply Z.eqb_neq; lia).
    rewrite Hupt', Hflat. rewrite Hin by lia.
    apply uint8_t_small. rewrite Forall_forall in Hbs. apply Hbs, nth_In. lia.
Qed.

Lemma memory_written_is_read_back_witness :
  (exists fuel0, forall fuel, (fuel0 <= fuel)%nat ->
   exists state1,
     cmd_write_memory fuel Fixture.state0 (command_of "M10000,2:ab0c")
     = Ok (lit "OK", state1)
     /\ cmd_read_memory Fixture.idle fuel state1 (command_of "m10000,2")
        = Ok (lit "ab0c", state1))
  /\ (exists fuel0, forall fuel, (fuel0 <= fuel)%nat ->
      exists state1,
        cmd_write_memory fuel state_based (command_of "M11000,2:ab0c")
        = Ok (lit "OK", state1)
        /\ cmd_read_memory Fixture.idle fuel state1 (command_of "m10000,2")
           = Ok (lit "ab0c", state1)).
Proof.
  assert (forall x, 65536 <= x < 65536 + 2 ->
                    is_valid_addr (mem Fixture.state0) x = true) as Hlow.
  { intros x Hx. unfold is_valid_addr. cbn [page_size page_valid mem Fixture.state0 Fixture.mem0].
    assert (x / 4096 = 16) as ->
      by (symmetry; apply Z.div_unique with (r := x - 65536); lia).
    reflexivity. }
  assert (forall x, 69632 <= x < 69632 + 2 ->
                    is_valid_addr (mem Fixture.state0) x = true) as Hhigh.
  { intros x Hx. unfold is_valid_addr. cbn [page_size page_valid mem Fixture.state0 Fixture.mem0].
    assert (x / 4096 = 17) as ->
      by (symmetry; apply Z.div_unique with (r := x - 69632); lia).
    reflexivity. }
  split.
  - apply (memory_written_is_read_back Fixture.idle Fixture.state0
             (command_of "M10000,2:ab0c") (command_of "m10000,2") (lit "10000") (lit "10000")
             (lit "2") [171; 12]);
      try reflexivity; try (repeat constructor; lia); try (vm_compute; discriminate);
      exact Hlow.
  - apply (memory_written_is_read_back Fixture.idle state_based
             (command_of "M11000,2:ab0c") (command_of "m10000,2") (lit "11000") (lit "10000")
             (lit "2") [171; 12]);
      try reflexivity; try (repeat constructor; lia); try (vm_compute; discriminate).
    + exact Hhigh.
    + exact Hlow.
Defined.

Lemma write_memory_loop_short (address : Z) (hex_data : bytes) (n : nat) :
  forall (i : Z) (m : MemState),
  (1 <= n)%nat -> 0 <= i ->
  (i + Z.of_nat n - 1) * 2 < 2 ^ 32 ->
  Str.size hex_data < (i + Z.of_nat n - 1) * 2 ->
  exists e, write_memory_loop n m address i hex_data = Fault e.
Proof.
  change (2 ^ 32) with 4294967296.
  induction n as [| n IH]; intros i m Hn Hi Hwrap Hshort; [lia |].
  cbn [write_memory_loop].
  rewrite (uint32_t_small (i * 2)) by (change (2 ^ 32) with 4294967296; lia).
  destruct n as [| n].
  - unfold Str.substr.
    replace (Str.size hex_data <? i * 2) with true by (symmetry; apply Z.ltb_lt; lia).
    eexists. reflexivity.
  - destruct (Str.substr hex_data (i * 2) 2) as [text | e |] eqn:Htext; cbn [bind].
    + destruct (Ptr_get_guest m (uint32_t (address + i))) as [p |];
        [| eexists; reflexivity].
      apply IH; lia.
    + eexists. reflexivity.
    + unfold Str.substr in Htext. destruct (_ <? _); discriminate.
Qed.

(** X17. A write whose payload is shorter than the length it announces is
    not answered by an error reply: when the hex text after the ':' has
    fewer than [2 * len - 2] characters and the region passes
    [check_memory_region], the handler does not return; it leaves by the
    exception [std::out_of_range] of [substr], or by a null pointer met
    before. *)
Theorem short_write_throws (fuel : nat) (state : EmuEnvState)
  (command : Packet.PacketCommand) (first second hex_data : bytes) :
  let address := Codec.parse_hex first in
  let len := Codec.parse_hex second in
  Packet.content_string command
  = Ok ("M"%char :: first ++ ","%char :: second ++ ":"%char :: hex_data) ->
  no_char "," first -> no_char ":" first -> no_char ":" second ->
  Str.size first + Str.size second + Str.size hex_data + 3 < 2 ^ 64 ->
  len <= 2 ^ 31 ->
  Str.size hex_data + 2 < 2 * len ->
  check_memory_region fuel address len (mem state) = Ok true ->
  exists e, cmd_write_memory fuel state command = Fault e.
Proof.
  intros address len Hcontent Hcomma Hcolon1 Hcolon2 Hsize Hlen Hshort Hcheck.
  change (2 ^ 31) with 2147483648 in Hlen.
  assert (0 <= Str.size hex_data) as Hhex by (unfold Str.size; lia).
  unfold cmd_write_memory. rewrite Hcontent. cbn [bind].
  destruct (write_memory_fields first second hex_data Hcomma Hcolon1 Hcolon2)
    as (Hf1 & Hf2 & Hf3).
  { unfold Str.size in *. simpl List.length. rewrite !length_app. simpl List.length.
    rewrite length_app. simpl List.length.
    change (2 ^ 64) with 18446744073709551616 in *. lia. }
  rewrite Hf1. cbn [bind]. rewrite Hf2. cbn [bind]. rewrite Hf3. cbn [bind].
  fold address. rewrite parse_hex_colon. fold len. rewrite Hcheck. cbn [bind negb].
  destruct (write_memory_loop_short address hex_data (Z.to_nat len) 0 (mem state))
    as [e He]; try (change (2 ^ 32) with 4294967296; lia).
  rewrite He. exists e. reflexivity.
Qed.

Lemma short_write_throws_witness :
  exists e,
    cmd_write_memory 2%nat Fixture.state0 (command_of "M10000,4:ab") = Fault e.
Proof.
  apply (short_write_throws 2%nat Fixture.state0 (command_of "M10000,4:ab")
           (lit "10000") (lit "4") (lit "ab"));
    try reflexivity; try (repeat constructor); try (vm_compute; discriminate).
Defined.

(** ** The replies *)

Lemma plain_literal (r : bytes) : forallb plain_char r = true -> plain r.
Proof. intros H. apply Forall_forall. apply forallb_forall. exact H. Qed.

Lemma hexchar_plain_char (c : ascii) : hexchar c -> plain_char c = true.
Proof. intros (d & Hd & ->). digit_cases d H; reflexivity. Qed.

Lemma plain_hexchars (s : bytes) : Forall hexchar s -> plain s.
Proof. apply Forall_impl. exact hexchar_plain_char. Qed.

Lemma plain_app (a b : bytes) : plain a -> plain b -> plain (a ++ b).
Proof. intros Ha Hb. apply Forall_app. split; assumption. Qed.

Lemma plain_to_hex_uid (v : Z) : plain (Codec.to_hex_uid v).
Proof.
  unfold Codec.to_hex_uid, Codec.pad_left. apply plain_app.
  - apply plain_hexchars, repeat_zero_hexchar.
  - destruct (v <? 0).
    + constructor; [reflexivity |]. apply plain_hexchars, hex_digits_hexchar. constructor.
    + apply plain_hexchars, hex_digits_hexchar. constructor.
Qed.

Lemma plain_be_hex (v : Z) : plain (Codec.be_hex v).
Proof. apply plain_hexchars, pad_fmt_hexchar. Qed.

Lemma plain_hex2 (v : Z) : plain (Codec.hex2 v).
Proof. apply plain_hexchars, pad_fmt_hexchar. Qed.

Lemma plain_read_registers_loop (n : nat) :
  forall a cpu str, plain str -> plain (fst (read_registers_loop n a cpu str)).
Proof.
  induction n as [| n IH]; intros a cpu str Hstr; [exact Hstr |].
  cbn [read_registers_loop]. destruct (fetch_reg cpu a) as [v cpu'].
  apply IH. apply plain_app; [exact Hstr | apply plain_be_hex].
Qed.

Lemma plain_read_memory_loop (n : nat) (m : MemState) (address : Z) :
  forall a str r, plain str -> read_memory_loop n m address a str = Ok r -> plain r.
Proof.
  induction n as [| n IH]; intros a str r Hstr Hrun.
  - injection Hrun as <-. exact Hstr.
  - cbn [read_memory_loop] in Hrun.
    destruct (Ptr_get m (uint32_t (address + a))) as [p |]; [| discriminate].
    apply IH in Hrun; [exact Hrun |]. apply plain_app; [exact Hstr | apply plain_hex2].
Qed.

Ltac unbind H :=
  repeat match type of H with
         | bind _ _ = Ok _ =>
             let x := fresh "x" in
             let Hx := fresh "Hx" in
             apply bind_Ok in H as (x & Hx & H)
         end.

Ltac literal_reply H :=
  injection H as <- _; apply plain_literal; reflexivity.

Section Replies.

Variable C : Collaborators.
Variables (fuel : nat) (state : EmuEnvState) (command : Packet.PacketCommand).
Variables (r : bytes) (state' : EmuEnvState).

Lemma plain_cmd_supported : cmd_supported fuel state command = Ok (r, state') -> plain r.
Proof. intros H. literal_reply H. Qed.

Lemma plain_cmd_reply_empty : cmd_reply_empty fuel state command = Ok (r, state') -> plain r.
Proof. intros H. literal_reply H. Qed.

Lemma plain_cmd_set_current_thread :
  cmd_set_current_thread fuel state command = Ok (r, state') -> plain r.
Proof.
  unfold cmd_set_current_thread. intros H. unbind H.
  destruct (Ascii.eqb x0 "c"); [literal_reply H |].
  destruct (Ascii.eqb x0 "g"); [| literal_reply H].
  unbind H. literal_reply H.
Qed.

Lemma plain_cmd_get_current_thread :
  cmd_get_current_thread fuel state command = Ok (r, state') -> plain r.
Proof.
  intros [= <- _]. do 2 (constructor; [reflexivity |]). apply plain_to_hex_uid.
Qed.

Lemma plain_cmd_read_registers :
  cmd_read_registers fuel state command = Ok (r, state') -> plain r.
Proof.
  unfold cmd_read_registers. intros H.
  destruct (no_current_thread state); [literal_reply H |].
  unbind H.
  pose proof (plain_read_registers_loop 16 0 (cpu x) [] (Forall_nil _)) as Hloop.
  destruct (read_registers_loop 16 0 (cpu x) []) as [str cpu'].
  injection H as <- _. exact Hloop.
Qed.

Lemma plain_cmd_write_registers :
  cmd_write_registers fuel state command = Ok (r, state') -> plain r.
Proof.
  unfold cmd_write_registers. intros H.
  destruct (no_current_thread state); [literal_reply H |].
  unbind H. literal_reply H.
Qed.

Lemma plain_cmd_read_register :
  cmd_read_register fuel state command = Ok (r, state') -> plain r.
Proof.
  unfold cmd_read_register. intros H.
  destruct (no_current_thread state); [literal_reply H |].
  unbind H. destruct (fetch_reg _ _) as [v cpu'].
  injection H as <- _. apply plain_be_hex.
Qed.

Lemma plain_cmd_write_register :
  cmd_write_register fuel state command = Ok (r, state') -> plain r.
Proof.
  unfold cmd_write_register. intros H.
  destruct (no_current_thread state); [literal_reply H |].
  unbind H. literal_reply H.
Qed.

Lemma plain_cmd_read_memory :
  cmd_read_memory C fuel state command = Ok (r, state') -> plain r.
Proof.
  unfold cmd_read_memory. intros H. unbind H.
  destruct (negb (is_valid_guest_addr_range C _ _ _)); [literal_reply H |].
  unbind H. destruct (negb _); [literal_reply H |].
  unbind H. injection H as <- _.
  eapply plain_read_memory_loop; [| eassumption]. constructor.
Qed.

Lemma plain_cmd_write_memory :
  cmd_write_memory fuel state command = Ok (r, state') -> plain r.
Proof.
  unfold cmd_write_memory. intros H. unbind H.
  destruct (negb _); [literal_reply H |].
  unbind H. literal_reply H.
Qed.

Lemma plain_vcont_loop (gas : nat) :
  forall st content index,
  vcont_loop C gas fuel st content index = Ok (r, state') -> plain r.
Proof.
  induction gas as [| gas IH]; intros st content index H; [discriminate |].
  cbn [vcont_loop] in H. unbind H.
  destruct (is_vcont_action _).
  - apply vcont_action_returned in H as [[-> _] | (_ & -> & _)];
      apply plain_literal; reflexivity.
  - destruct (_ =? npos); [literal_reply H | apply IH in H; exact H].
Qed.

Lemma plain_cmd_continue : cmd_continue C fuel state command = Ok (r, state') -> plain r.
Proof.
  unfold cmd_continue. intros H. unbind H. apply plain_vcont_loop in H. exact H.
Qed.

Lemma plain_cmd_continue_supported :
  cmd_continue_supported fuel state command = Ok (r, state') -> plain r.
Proof. intros H. literal_reply H. Qed.

Lemma plain_cmd_thread_alive :
  cmd_thread_alive fuel state command = Ok (r, state') -> plain r.
Proof.
  unfold cmd_thread_alive. intros H. unbind H.
  destruct (ThreadMap.contains _ _); literal_reply H.
Qed.

Lemma plain_cmd_kill : cmd_kill fuel state command = Ok (r, state') -> plain r.
Proof. intros H. literal_reply H. Qed.

Lemma plain_cmd_die : cmd_die fuel state command = Ok (r, state') -> plain r.
Proof. intros H. literal_reply H. Qed.

Lemma plain_cmd_attached : cmd_attached fuel state command = Ok (r, state') -> plain r.
Proof. intros H. literal_reply H. Qed.

Lemma plain_cmd_thread_status :
  cmd_thread_status fuel state command = Ok (r, state') -> plain r.
Proof. intros H. literal_reply H. Qed.

Lemma plain_cmd_reason : cmd_reason fuel state command = Ok (r, state') -> plain r.
Proof. intros H. literal_reply H. Qed.

Lemma plain_cmd_get_first_thread :
  cmd_get_first_thread fuel state command = Ok (r, state') -> plain r.
Proof.
  unfold cmd_get_first_thread. intros H. unbind H. injection H as <- _.
  constructor; [reflexivity | apply plain_to_hex_uid].
Qed.

Lemma plain_cmd_get_next_thread :
  cmd_get_next_thread fuel state command = Ok (r, state') -> plain r.
Proof.
  unfold cmd_get_next_thread. intros H.
  destruct (_ =? _); [literal_reply H |].
  unbind H. injection H as <- _.
  constructor; [reflexivity | apply plain_to_hex_uid].
Qed.

Lemma plain_cmd_add_breakpoint :
  cmd_add_breakpoint C fuel state command = Ok (r, state') -> plain r.
Proof.
  unfold cmd_add_breakpoint. intros H. unbind H. destruct x0 as [[type address] kind].
  destruct (negb _); literal_reply H.
Qed.

Lemma plain_cmd_remove_breakpoint :
  cmd_remove_breakpoint C fuel state command = Ok (r, state') -> plain r.
Proof.
  unfold cmd_remove_breakpoint. intros H. unbind H. destruct x0 as [[type address] kind].
  destruct (negb _); literal_reply H.
Qed.

Lemma plain_cmd_deprecated : cmd_deprecated fuel state command = Ok (r, state') -> plain r.
Proof. intros H. literal_reply H. Qed.

Lemma plain_cmd_unimplemented :
  cmd_unimplemented fuel state command = Ok (r, state') -> plain r.
Proof. intros H. literal_reply H. Qed.

End Replies.

Create HintDb replies.

#[local] Hint Resolve plain_cmd_supported plain_cmd_reply_empty plain_cmd_set_current_thread
  plain_cmd_get_current_thread plain_cmd_read_registers plain_cmd_write_registers
  plain_cmd_read_register plain_cmd_write_register plain_cmd_read_memory
  plain_cmd_write_memory plain_cmd_continue plain_cmd_continue_supported
  plain_cmd_thread_alive plain_cmd_kill plain_cmd_die plain_cmd_attached
  plain_cmd_thread_status plain_cmd_reason plain_cmd_get_first_thread
  plain_cmd_get_next_thread plain_cmd_add_breakpoint plain_cmd_remove_breakpoint
  plain_cmd_deprecated plain_cmd_unimplemented : replies.

Lemma functions_reply_plain (C : Collaborators) (f : PacketFunctionBundle) (fuel : nat)
  (state : EmuEnvState) (command : Packet.PacketCommand) (r : bytes) (state' : EmuEnvState) :
  In f (functions C) -> function f fuel state command = Ok (r, state') -> plain r.
Proof.
  intros Hin Hrun. unfold functions in Hin. cbn [In] in Hin.
  repeat (destruct Hin as [<- | Hin];
          [cbn [function bundle] in Hrun; eauto with replies |]).
  contradiction.
  Unshelve. all: assumption.
Qed.

Lemma strlen_plain (r : bytes) : plain r -> Str.strlen r = Str.size r.
Proof.
  unfold Str.size. induction 1 as [| c r Hc _ IH]; [reflexivity |].
  cbn [Str.strlen]. unfold plain_char in Hc.
  rewrite !andb_true_iff, !negb_true_iff in Hc. destruct Hc as [_ Hnul].
  rewrite Hnul, IH. simpl List.length. lia.
Qed.

Lemma plain_no_char (r : bytes) : plain r -> no_char "#" r /\ no_char "$" r.
Proof.
  intros H. split; (eapply Forall_impl; [| exact H]); intros c Hc; unfold plain_char in Hc;
    rewrite !andb_true_iff, !negb_true_iff in Hc; tauto.
Qed.

Lemma server_reply_text_plain (r : bytes) :
  plain r -> Packet.server_reply_text r = wire_frame r.
Proof.
  intros H. unfold Packet.server_reply_text, Packet.server_reply, wire_frame.
  rewrite strlen_plain by exact H. unfold Str.size. rewrite Nat2Z.id, firstn_all.
  reflexivity.
Qed.

(** X18. Whatever a handler of the dispatch table returns is sent as a
    well-formed frame: the reply holds no '#', no '$' and no NUL, so that
    the frame is [$], the whole reply, [#] and its checksum, and, unless the
    reply is empty, the stub's own [parse_command] finds this frame valid
    with the reply as its content. *)
Theorem replies_are_well_framed (C : Collaborators) (f : PacketFunctionBundle) (fuel : nat)
  (state : EmuEnvState) (command : Packet.PacketCommand) (r : bytes) (state' : EmuEnvState) :
  In f (functions C) ->
  function f fuel state command = Ok (r, state') ->
  no_char "#" r /\ no_char "$" r
  /\ Packet.server_reply_text r = wire_frame r
  /\ (r <> [] ->
      let sent := Packet.parse_command (Packet.server_reply_text r)
                    (Str.size (Packet.server_reply_text r)) in
      Packet.is_valid sent = true /\ Packet.content_string sent = Ok r).
Proof.
  intros Hin Hrun.
  pose proof (functions_reply_plain C f fuel state command r state' Hin Hrun) as Hplain.
  destruct (plain_no_char r Hplain) as [Hhash Hdollar].
  split; [exact Hhash |]. split; [exact Hdollar |].
  split; [apply server_reply_text_plain, Hplain |].
  intros Hne. rewrite server_reply_text_plain by exact Hplain. cbv zeta.
  rewrite wire_frame_size. unfold wire_frame.
  pose proof (make_checksum_range true r (Str.size r)) as Hsum.
  fold Codec.make_checksum in Hsum.
  pose proof (hex2_length _ Hsum) as Hlen.
  pose proof (hex2_no_hash (Codec.make_checksum r (Str.size r))) as Hno.
  pose proof (parse_hex_hex2 _ Hsum) as Hback.
  destruct (Codec.hex2 (Codec.make_checksum r (Str.size r))) as [| h1 [| h2 [| h3 t]]];
    try discriminate.
  pose proof (parse_command_frame "$" r h1 h2 [] [] Hne Hno) as Hparse.
  cbv zeta in Hparse. cbn [app] in Hparse. change (Str.size []) with 0 in Hparse.
  rewrite Z.add_0_r in Hparse. rewrite Hparse.
  unfold Packet.content_string, Packet.string_of.
  cbn [Packet.is_valid Packet.data Packet.content_start Packet.content_length].
  split.
  - rewrite Hback. rewrite uint8_t_small by exact Hsum. apply Z.eqb_refl.
  - replace (Str.size r <? 0) with false
      by (symmetry; apply Z.ltb_ge; unfold Str.size; lia).
    change (skipn (Z.to_nat 1) ("$"%char :: r ++ ["#"%char; h1; h2]))
      with (r ++ ["#"%char; h1; h2]).
    rewrite firstn_size_app. reflexivity.
Qed.

Lemma replies_are_well_framed_witness :
  no_char "#" (lit "QC000000-1") /\ no_char "$" (lit "QC000000-1")
  /\ Packet.server_reply_text (lit "QC000000-1") = wire_frame (lit "QC000000-1")
  /\ (lit "QC000000-1" <> [] ->
      let sent := Packet.parse_command (Packet.server_reply_text (lit "QC000000-1"))
                    (Str.size (Packet.server_reply_text (lit "QC000000-1"))) in
      Packet.is_valid sent = true /\ Packet.content_string sent = Ok (lit "QC000000-1")).
Proof.
  apply (replies_are_well_framed Fixture.idle (bundle "qC" cmd_get_current_thread) O
           Fixture.state0 (command_of "qC") (lit "QC000000-1") Fixture.state0).
  - unfold functions. cbn [In]. do 22 right. left. reflexivity.
  - reflexivity.
Defined.

(** ** Register indices beyond the view *)

Lemma put_same (m : list (SceUID * ThreadState)) (id : SceUID) (t : ThreadState) :
  ThreadMap.get m id = Some t -> ThreadMap.put m id t = m.
Proof.
  induction m as [| [k t0] m IH]; [reflexivity |].
  cbn [ThreadMap.get ThreadMap.put]. destruct (k =? id).
  - intros [= ->]. reflexivity.
  - intros H. rewrite IH by exact H. reflexivity.
Qed.

Lemma store_thread_same (state : EmuEnvState) (id : SceUID) (t : ThreadState) :
  ThreadMap.get (threads (kernel state)) id = Some t ->
  store_thread state id (set_cpu t (cpu t)) = state.
Proof.
  intros Hget. unfold store_thread.
  assert (set_cpu t (cpu t) = t) as -> by (destruct t; reflexivity).
  rewrite put_same by exact Hget.
  destruct state as [g [ths dbg] m]. reflexivity.
Qed.

Lemma registers_beyond (cpu : CPUState) (reg value : Z) :
  25 < reg -> fetch_reg cpu reg = (0, cpu) /\ modify_reg cpu reg value = cpu.
Proof.
  intros Hreg. unfold fetch_reg, modify_reg. split; split_compare; try reflexivity; lia.
Qed.

(** X19. A register index above 25 is not an error for the register
    packets: with a valid current thread, [p n] is answered [00000000] and
    [P n=v] is answered [OK], and neither changes anything. *)
Theorem register_index_beyond_the_view (fuel : nat) (state : EmuEnvState)
  (read write : Packet.PacketCommand) (reg_text value_text : bytes) (thread : ThreadState) :
  current_thread (gdb state) <> -1 ->
  ThreadMap.get (threads (kernel state)) (current_thread (gdb state)) = Some thread ->
  Packet.content_string read = Ok ("p"%char :: reg_text) ->
  Packet.content_string write = Ok ("P"%char :: reg_text ++ "="%char :: value_text) ->
  no_char "=" reg_text ->
  25 < Codec.parse_hex reg_text ->
  Str.size reg_text + Str.size value_text + 2 < 2 ^ 64 ->
  cmd_read_register fuel state read = Ok (lit "00000000", state)
  /\ cmd_write_register fuel state write = Ok (lit "OK", state).
Proof.
  intros Hcur Hget Hread Hwrite Hno Hreg Hsize.
  assert (0 <= Str.size reg_text /\ 0 <= Str.size value_text) as [Hr Hv]
    by (unfold Str.size; lia).
  change (2 ^ 64) with 18446744073709551616 in Hsize.
  assert (Str.size ("p"%char :: reg_text) = Str.size reg_text + 1) as Hp
    by (unfold Str.size; simpl List.length; lia).
  split.
  - unfold cmd_read_register.
    rewrite (no_current_thread_false state thread Hcur Hget).
    unfold ThreadMap.deref. rewrite Hget, Hread. cbn [bind]. rewrite Hp.
    replace (size_t (Str.size reg_text + 1 - 1)) with (Str.size reg_text)
      by (rewrite size_t_small; change (2 ^ 64) with 18446744073709551616; lia).
    assert (Str.substr ("p"%char :: reg_text) 1 (Str.size reg_text) = Ok reg_text) as ->.
    { apply (substr_tail ["p"%char] reg_text). lia. }
    cbn [bind]. rewrite (proj1 (registers_beyond (cpu thread) _ 0 Hreg)).
    rewrite store_thread_same by exact Hget. reflexivity.
  - unfold cmd_write_register.
    rewrite (no_current_thread_false state thread Hcur Hget).
    unfold ThreadMap.deref. rewrite Hget, Hwrite. cbn [bind].
    change ("P"%char :: reg_text ++ "="%char :: value_text)
      with (("P"%char :: reg_text) ++ "="%char :: value_text).
    rewrite find_first by (constructor; [reflexivity | exact Hno]).
    assert (Str.size ("P"%char :: reg_text) = Str.size reg_text + 1) as ->
      by (unfold Str.size; simpl List.length; lia).
    replace (size_t (Str.size reg_text + 1 - 1)) with (Str.size reg_text)
      by (rewrite size_t_small; change (2 ^ 64) with 18446744073709551616; lia).
    replace (size_t (Str.size reg_text + 1 + 1))
      with (Str.size (("P"%char :: reg_text) ++ ["="%char]))
      by (unfold Str.size in *; rewrite length_app; simpl List.length;
          rewrite size_t_small; change (2 ^ 64) with 18446744073709551616; lia).
    assert (Str.substr (("P"%char :: reg_text) ++ "="%char :: value_text) 1 (Str.size reg_text)
            = Ok reg_text) as ->.
    { apply (substr_middle ["P"%char] reg_text ("="%char :: value_text));
        [lia | right; reflexivity]. }
    cbn [bind].
    assert (Str.substr (("P"%char :: reg_text) ++ "="%char :: value_text)
              (Str.size (("P"%char :: reg_text) ++ ["="%char])) npos
            = Ok value_text) as ->.
    { replace (("P"%char :: reg_text) ++ "="%char :: value_text)
        with ((("P"%char :: reg_text) ++ ["="%char]) ++ value_text)
        by (rewrite <- app_assoc; reflexivity).
      apply substr_tail. unfold npos. change (2 ^ 64) with 18446744073709551616. lia. }
    cbn [bind]. rewrite (proj2 (registers_beyond (cpu thread) _ _ Hreg)).
    rewrite store_thread_same by exact Hget. reflexivity.
Qed.

Lemma register_index_beyond_the_view_witness :
  cmd_read_register O Fixture.state1 (command_of "p1a") = Ok (lit "00000000", Fixture.state1)
  /\ cmd_write_register O Fixture.state1 (command_of "P1a=ffffffff")
     = Ok (lit "OK", Fixture.state1).
Proof.
  apply (register_index_beyond_the_view O Fixture.state1 (command_of "p1a")
           (command_of "P1a=ffffffff") (lit "1a") (lit "ffffffff") (Fixture.thread0 suspend));
    try reflexivity; try (repeat constructor); try (vm_compute; discriminate).
Defined.

(** ** The handlers do not look at the receive buffer *)

Lemma outcome_map_bind {A B A' B' : Type} (f : A -> A') (g : B -> B')
  (c : outcome A) (c' : outcome A') (k : A -> outcome B) (k' : A' -> outcome B') :
  c' = outcome_map f c ->
  (forall a, k' (f a) = outcome_map g (k a)) ->
  bind c' k' = outcome_map g (bind c k).
Proof. intros -> Hk. destruct c as [a | e |]; cbn; [apply Hk | reflexivity | reflexivity]. Qed.

Lemma outcome_map_id {A : Type} (c : outcome A) : c = outcome_map (fun a => a) c.
Proof. destruct c; reflexivity. Qed.

Section Buffer.

Variable C : Collaborators.
Variable b : bytes.


Lemma env_quantum_buffer (state : EmuEnvState) :
  env_quantum C (with_buffer state b) = with_buffer (env_quantum C state) b.
Proof.
  unfold env_quantum, with_buffer. cbn [kernel with_gdb].
  destruct (guest_run C (kernel state)). reflexivity.
Qed.

Lemma store_thread_buffer (state : EmuEnvState) (id : SceUID) (t : ThreadState) :
  store_thread (with_buffer state b) id t = with_buffer (store_thread state id t) b.
Proof. reflexivity. Qed.

Lemma cond_wait_buffer (pred : EmuEnvState -> bool) (fuel : nat) :
  (forall s, pred (with_buffer s b) = pred s) ->
  forall state,
  cond_wait C fuel pred (with_buffer state b) = state_with_buffer b (cond_wait C fuel pred state).
Proof.
  intros Hpred. induction fuel as [| fuel IH]; intros state; cbn [cond_wait];
    rewrite Hpred; destruct (pred state); try reflexivity.
  rewrite env_quantum_buffer. apply IH.
Qed.

Lemma status_in_buffer (id : SceUID) (allowed : ThreadStatus -> bool) (s : EmuEnvState) :
  status_in id allowed (with_buffer s b) = status_in id allowed s.
Proof. reflexivity. Qed.

Lemma resume_world_buffer (fuel : nat) (ids : list SceUID) :
  forall state,
  resume_world C fuel ids (with_buffer state b) = state_with_buffer b (resume_world C fuel ids state).
Proof.
  induction ids as [| id ids IH]; intros state; [reflexivity |].
  cbn [resume_world]. change (threads (kernel (with_buffer state b))) with (threads (kernel state)).
  destruct (ThreadMap.deref (threads (kernel state)) id) as [thread | e |]; cbn [bind outcome_map];
    try reflexivity.
  destruct (ThreadStatus_eqb (status thread) suspend); [| apply IH].
  rewrite store_thread_buffer. rewrite cond_wait_buffer by (intros s; reflexivity).
  destruct (cond_wait C fuel _ _) as [state1 | e |]; cbn [bind outcome_map]; try reflexivity.
  apply IH.
Qed.

Lemma stop_world_buffer (fuel : nat) (ids : list SceUID) :
  forall state,
  stop_world C fuel ids (with_buffer state b) = state_with_buffer b (stop_world C fuel ids state).
Proof.
  induction ids as [| id ids IH]; intros state; [reflexivity |].
  cbn [stop_world]. change (threads (kernel (with_buffer state b))) with (threads (kernel state)).
  destruct (ThreadMap.deref (threads (kernel state)) id) as [thread | e |]; cbn [bind outcome_map];
    try reflexivity.
  destruct (ThreadStatus_eqb (status thread) run); [| apply IH].
  rewrite store_thread_buffer. rewrite cond_wait_buffer by (intros s; reflexivity).
  destruct (cond_wait C fuel _ _) as [state1 | e |]; cbn [bind outcome_map]; try reflexivity.
  apply IH.
Qed.

Lemma wait_break_buffer (fuel : nat) :
  forall state,
  wait_break C fuel (with_buffer state b)
  = outcome_map (fun r : bool * EmuEnvState => (fst r, with_buffer (snd r) b))
      (wait_break C fuel state).
Proof.
  induction fuel as [| fuel IH]; intros state; cbn [wait_break];
    change (server_die (gdb (with_buffer state b))) with (server_die (gdb state));
    change (threads (kernel (with_buffer state b))) with (threads (kernel state));
    destruct (server_die (gdb state)); try reflexivity;
    destruct (find_break (threads (kernel state))) as [id |]; try reflexivity.
  - change (with_gdb (with_buffer state b)
              (set_inferior_thread (gdb (with_buffer state b)) id))
      with (with_buffer (with_gdb state (set_inferior_thread (gdb state) id)) b).
    rewrite env_quantum_buffer. reflexivity.
  - change (with_gdb (with_buffer state b)
              (set_inferior_thread (gdb (with_buffer state b)) id))
      with (with_buffer (with_gdb state (set_inferior_thread (gdb state) id)) b).
    rewrite env_quantum_buffer. reflexivity.
  - rewrite env_quantum_buffer. apply IH.
Qed.

Lemma log_break_buffer (state : EmuEnvState) :
  log_break (with_buffer state b) = state_with_buffer b (log_break state).
Proof.
  unfold log_break.
  change (threads (kernel (with_buffer state b))) with (threads (kernel state)).
  change (inferior_thread (gdb (with_buffer state b))) with (inferior_thread (gdb state)).
  destruct (ThreadMap.deref _ _) as [thread | e |]; cbn [bind outcome_map]; try reflexivity.
Qed.

Lemma vcont_action_buffer (fuel : nat) (state : EmuEnvState) (cmd : ascii) :
  vcont_action C fuel (with_buffer state b) cmd = reply_with_buffer b (vcont_action C fuel state cmd).
Proof.
  unfold vcont_action.
  change (threads (kernel (with_buffer state b))) with (threads (kernel state)).
  change (inferior_thread (gdb (with_buffer state b))) with (inferior_thread (gdb state)).
  apply (outcome_map_bind (fun s => with_buffer s b)).
  - destruct (inferior_thread (gdb state) =? 0); [reflexivity |].
    destruct (ThreadMap.deref _ _) as [thread | e |]; cbn [bind outcome_map]; try reflexivity.
    rewrite store_thread_buffer.
    destruct (is_step cmd); [| reflexivity].
    apply cond_wait_buffer. intros s. reflexivity.
  - intros state1. destruct (is_step cmd); [reflexivity |].
    change (threads (kernel (with_buffer state1 b))) with (threads (kernel state1)).
    apply (outcome_map_bind (fun s => with_buffer s b)); [apply resume_world_buffer |].
    intros state2.
    apply (outcome_map_bind (fun r : bool * EmuEnvState => (fst r, with_buffer (snd r) b)));
      [apply wait_break_buffer |].
    intros [did_break state3]. cbn [fst snd].
    destruct (negb did_break); [reflexivity |].
    apply (outcome_map_bind (fun s => with_buffer s b)); [apply log_break_buffer |].
    intros state4.
    change (threads (kernel (with_buffer state4 b))) with (threads (kernel state4)).
    apply (outcome_map_bind (fun s => with_buffer s b)); [apply stop_world_buffer |].
    intros state5. reflexivity.
Qed.

Lemma vcont_loop_buffer (fuel : nat) (content : bytes) (gas : nat) :
  forall state index,
  vcont_loop C gas fuel (with_buffer state b) content index
  = reply_with_buffer b (vcont_loop C gas fuel state content index).
Proof.
  induction gas as [| gas IH]; intros state index; [reflexivity |].
  cbn [vcont_loop].
  destruct (Str.substr content _ _) as [text | e |]; cbn [bind outcome_map]; try reflexivity.
  destruct (is_vcont_action _); [apply vcont_action_buffer |].
  destruct (_ =? npos); [reflexivity | apply IH].
Qed.

Ltac same_cases :=
  repeat match goal with
         | |- context [bind ?c _] => destruct c as [? | ? |]; cbn [bind outcome_map fst snd]
         | |- context [if ?c then _ else _] => destruct c
         | |- context [let (_, _) := ?c in _] => destruct c
         | |- context [match ?c with (_, _) => _ end] => destruct c
         end;
  reflexivity.

Ltac buffer_norm :=
  unfold reply_with_buffer, state_with_buffer, with_buffer;
  cbn [gdb kernel mem with_gdb with_kernel with_mem set_recv_buffer set_thread_info_index
       set_current_thread set_server_die set_last_reply set_inferior_thread server_die
       last_reply current_thread inferior_thread thread_info_index recv_buffer threads
       debugger outcome_map fst snd].

Variables (fuel : nat) (state : EmuEnvState) (command : Packet.PacketCommand).

Lemma cmd_set_current_thread_buffer :
  cmd_set_current_thread fuel (with_buffer state b) command
  = reply_with_buffer b (cmd_set_current_thread fuel state command).
Proof. unfold cmd_set_current_thread, select_thread. buffer_norm. same_cases. Qed.

Lemma cmd_thread_alive_buffer :
  cmd_thread_alive fuel (with_buffer state b) command
  = reply_with_buffer b (cmd_thread_alive fuel state command).
Proof. unfold cmd_thread_alive. buffer_norm. same_cases. Qed.

Lemma cmd_read_register_buffer :
  cmd_read_register fuel (with_buffer state b) command
  = reply_with_buffer b (cmd_read_register fuel state command).
Proof.
  unfold cmd_read_register, no_current_thread, ThreadMap.deref, store_thread.
  buffer_norm. same_cases.
Qed.

Lemma cmd_write_register_buffer :
  cmd_write_register fuel (with_buffer state b) command
  = reply_with_buffer b (cmd_write_register fuel state command).
Proof.
  unfold cmd_write_register, no_current_thread, ThreadMap.deref, store_thread.
  buffer_norm. same_cases.
Qed.

Lemma cmd_read_registers_buffer :
  cmd_read_registers fuel (with_buffer state b) command
  = reply_with_buffer b (cmd_read_registers fuel state command).
Proof.
  unfold cmd_read_registers, no_current_thread, ThreadMap.deref, store_thread.
  buffer_norm. same_cases.
Qed.

Lemma cmd_write_registers_buffer :
  cmd_write_registers fuel (with_buffer state b) command
  = reply_with_buffer b (cmd_write_registers fuel state command).
Proof.
  unfold cmd_write_registers, no_current_thread, ThreadMap.deref, store_thread.
  buffer_norm. same_cases.
Qed.

Lemma cmd_read_memory_buffer :
  cmd_read_memory C fuel (with_buffer state b) command
  = reply_with_buffer b (cmd_read_memory C fuel state command).
Proof. unfold cmd_read_memory. buffer_norm. same_cases. Qed.

Lemma cmd_write_memory_buffer :
  cmd_write_memory fuel (with_buffer state b) command
  = reply_with_buffer b (cmd_write_memory fuel state command).
Proof. unfold cmd_write_memory. buffer_norm. same_cases. Qed.

Lemma cmd_continue_buffer :
  cmd_continue C fuel (with_buffer state b) command
  = reply_with_buffer b (cmd_continue C fuel state command).
Proof.
  unfold cmd_continue.
  destruct (Packet.content_string command) as [content | e |]; try reflexivity.
  cbn [bind]. apply vcont_loop_buffer.
Qed.

Lemma cmd_get_first_thread_buffer :
  cmd_get_first_thread fuel (with_buffer state b) command
  = reply_with_buffer b (cmd_get_first_thread fuel state command).
Proof. unfold cmd_get_first_thread. buffer_norm. same_cases. Qed.

Lemma cmd_get_next_thread_buffer :
  cmd_get_next_thread fuel (with_buffer state b) command
  = reply_with_buffer b (cmd_get_next_thread fuel state command).
Proof. unfold cmd_get_next_thread. buffer_norm. same_cases. Qed.

Lemma cmd_add_breakpoint_buffer :
  cmd_add_breakpoint C fuel (with_buffer state b) command
  = reply_with_buffer b (cmd_add_breakpoint C fuel state command).
Proof. unfold cmd_add_breakpoint. buffer_norm. same_cases. Qed.

Lemma cmd_remove_breakpoint_buffer :
  cmd_remove_breakpoint C fuel (with_buffer state b) command
  = reply_with_buffer b (cmd_remove_breakpoint C fuel state command).
Proof. unfold cmd_remove_breakpoint. buffer_norm. same_cases. Qed.

Lemma functions_buffer (f : PacketFunctionBundle) :
  In f (functions C) ->
  function f fuel (with_buffer state b) command = reply_with_buffer b (function f fuel state command).
Proof.
  intros Hin. unfold functions in Hin. cbn [In] in Hin.
  repeat (destruct Hin as [<- | Hin];
          [cbn [function bundle];
           first [ reflexivity
                 | apply cmd_set_current_thread_buffer | apply cmd_thread_alive_buffer
                 | apply cmd_read_register_buffer | apply cmd_write_register_buffer
                 | apply cmd_read_registers_buffer | apply cmd_write_registers_buffer
                 | apply cmd_read_memory_buffer | apply cmd_write_memory_buffer
                 | apply cmd_continue_buffer | apply cmd_get_first_thread_buffer
                 | apply cmd_get_next_thread_buffer | apply cmd_add_breakpoint_buffer
                 | apply cmd_remove_breakpoint_buffer ] |]).
  contradiction.
Qed.

Lemma dispatch_buffer (fs : list PacketFunctionBundle) :
  incl fs (functions C) ->
  dispatch fs fuel (with_buffer state b) command
  = (fst (dispatch fs fuel state command),
     state_with_buffer b (snd (dispatch fs fuel state command))).
Proof.
  induction fs as [| f fs IH]; intros Hincl; [reflexivity |].
  cbn [dispatch]. destruct (command_begins_with command (name f)).
  - rewrite functions_buffer by (apply Hincl; left; reflexivity).
    unfold reply_with_buffer, state_with_buffer.
    destruct (function f fuel state command) as [[r state'] | e |]; cbn [outcome_map fst snd];
      try reflexivity.
    change (server_die (gdb (with_gdb (with_buffer state' b)
                               (set_last_reply (gdb (with_buffer state' b)) r))))
      with (server_die (gdb state')).
    change (server_die (gdb (with_gdb state' (set_last_reply (gdb state') r))))
      with (server_die (gdb state')).
    destruct (server_die (gdb state')); reflexivity.
  - apply IH. intros x Hx. apply Hincl. right. exact Hx.
Qed.

End Buffer.

(** ** The handlers do not read past the packet *)

Lemma scan_hash_within (data ext : bytes) :
  forall (n : nat) (a e : Z),
  (n <= List.length data)%nat ->
  Packet.scan_hash (data ++ ext) n a e = Packet.scan_hash data n a e.
Proof.
  induction data as [| c data IH]; intros n a e Hn.
  - simpl in Hn. replace n with O by lia. destruct ext; reflexivity.
  - destruct n as [| n]; [reflexivity |].
    cbn [app]. rewrite !scan_hash_cons. apply IH. simpl in Hn. lia.
Qed.

Lemma sum_chars_within (signed : bool) (data ext : bytes) :
  forall (n : nat) (sum : Z),
  (n <= List.length data)%nat ->
  Codec.sum_chars signed (data ++ ext) n sum = Codec.sum_chars signed data n sum.
Proof.
  induction data as [| c data IH]; intros n sum Hn.
  - simpl in Hn. replace n with O by lia. destruct ext; reflexivity.
  - destruct n as [| n]; [reflexivity |].
    cbn [app Codec.sum_chars]. apply IH. simpl in Hn. lia.
Qed.

Lemma skipn_within (data ext : bytes) (k : nat) :
  (k <= List.length data)%nat -> skipn k (data ++ ext) = skipn k data ++ ext.
Proof.
  intros Hk. rewrite skipn_app. replace (k - List.length data)%nat with O by lia.
  reflexivity.
Qed.

Lemma firstn_within (data ext : bytes) (k : nat) :
  (k <= List.length data)%nat -> firstn k (data ++ ext) = firstn k data.
Proof.
  intros Hk. rewrite firstn_app. replace (k - List.length data)%nat with O by lia.
  cbn [firstn]. apply app_nil_r.
Qed.

Lemma parse_command_extend (data ext : bytes) (len : Z) :
  len <= Str.size data ->
  Packet.parse_command (data ++ ext) len = extend (Packet.parse_command data len) ext.
Proof.
  intros Hlen. unfold Str.size in Hlen. unfold Packet.parse_command. cbv zeta.
  rewrite scan_hash_within by lia.
  set (begin_index := if 1 <? len then 1 else -1).
  set (end_index := Packet.scan_hash data (Z.to_nat len) 0 (-1)).
  destruct (negb (begin_index =? -1) && negb (end_index =? -1)
            && (begin_index <? end_index) && (end_index + 2 <? len)) eqn:Eshape;
    cbn [negb]; [| reflexivity].
  rewrite !andb_true_iff, !negb_true_iff in Eshape.
  destruct Eshape as (((Hb & He) & Hbe) & Hel).
  apply Z.eqb_neq in Hb, He. apply Z.ltb_lt in Hbe, Hel.
  assert (begin_index = 1) as Hb1.
  { unfold begin_index in *. destruct (1 <? len); [reflexivity | congruence]. }
  rewrite Hb1 in *.
  unfold extend. cbn [Packet.data Packet.length Packet.begin_index Packet.end_index
                      Packet.content_length Packet.content_start Packet.checksum_start
                      Packet.checksum Packet.is_valid].
  rewrite !skipn_within by lia.
  rewrite (firstn_within (skipn (Z.to_nat (end_index + 1)) data))
    by (rewrite length_skipn; lia).
  unfold Codec.make_checksum, Codec.make_checksum_as.
  rewrite sum_chars_within by (rewrite length_skipn; lia).
  reflexivity.
Qed.

Lemma parse_command_within (data : bytes) (len : Z) :
  len <= Str.size data ->
  Packet.is_valid (Packet.parse_command data len) = true ->
  within (Packet.parse_command data len).
Proof.
  intros Hlen. unfold Packet.parse_command. cbv zeta.
  set (begin_index := if 1 <? len then 1 else -1).
  set (end_index := Packet.scan_hash data (Z.to_nat len) 0 (-1)).
  destruct (negb (begin_index =? -1) && negb (end_index =? -1)
            && (begin_index <? end_index) && (end_index + 2 <? len)) eqn:Eshape;
    cbn [negb]; [| discriminate].
  intros _.
  rewrite !andb_true_iff, !negb_true_iff in Eshape.
  destruct Eshape as (((Hb & He) & Hbe) & Hel).
  apply Z.eqb_neq in Hb, He. apply Z.ltb_lt in Hbe, Hel.
  assert (begin_index = 1) as Hb1.
  { unfold begin_index in *. destruct (1 <? len); [reflexivity | congruence]. }
  rewrite Hb1 in *.
  exists 1. cbn [Packet.data Packet.content_length Packet.content_start].
  repeat split; lia.
Qed.

Lemma string_of_extend (data ext : bytes) (off n : Z) :
  0 <= off -> off + n <= Str.size data ->
  Packet.string_of (data ++ ext) (Some off) n = Packet.string_of data (Some off) n.
Proof.
  intros Hoff Hn. unfold Str.size in Hn. unfold Packet.string_of.
  destruct (n <? 0) eqn:E; [reflexivity |]. apply Z.ltb_ge in E.
  rewrite skipn_within by lia. rewrite firstn_within by (rewrite length_skipn; lia).
  reflexivity.
Qed.

Lemma content_string_extend (command : Packet.PacketCommand) (ext : bytes) :
  within command ->
  Packet.content_string (extend command ext) = Packet.content_string command.
Proof.
  intros (p & Hp & Hp0 & Hlen & Hin). unfold Packet.content_string, extend.
  cbn [Packet.data Packet.content_start Packet.content_length]. rewrite Hp.
  apply string_of_extend; lia.
Qed.

Lemma starts_with_within (small : bytes) :
  forall s ext, (List.length small <= List.length s)%nat ->
  Str.starts_with (s ++ ext) small = Str.starts_with s small.
Proof.
  induction small as [| c small IH]; intros s ext Hlen.
  - destruct s, ext; reflexivity.
  - destruct s as [| d s]; [simpl in Hlen; lia |].
    cbn [app Str.starts_with]. rewrite IH by (simpl in Hlen; lia). reflexivity.
Qed.

Lemma command_begins_with_extend (command : Packet.PacketCommand) (ext small : bytes) :
  within command ->
  command_begins_with (extend command ext) small = command_begins_with command small.
Proof.
  intros (p & Hp & Hp0 & Hlen & Hin). unfold command_begins_with, extend.
  cbn [Packet.data Packet.content_start Packet.content_length]. rewrite Hp.
  destruct (size_t (Packet.content_length command) <? Str.size small) eqn:E;
    [reflexivity |].
  apply Z.ltb_ge in E.
  assert (size_t (Packet.content_length command) <= Packet.content_length command) as Hmod.
  { unfold size_t. apply Z.mod_le; lia. }
  unfold Str.size in *. rewrite skipn_within by lia.
  apply starts_with_within. rewrite length_skipn. lia.
Qed.

Lemma cmd_set_current_thread_extend (fuel : nat) (state : EmuEnvState)
  (command : Packet.PacketCommand) (ext : bytes) :
  within command ->
  cmd_set_current_thread fuel state (extend command ext)
  = cmd_set_current_thread fuel state command.
Proof.
  intros (p & Hp & Hp0 & Hlen & Hin). unfold cmd_set_current_thread, extend.
  cbn [Packet.data Packet.content_start Packet.content_length]. rewrite Hp.
  cbn [option_map]. rewrite string_of_extend by lia.
  assert (Str.at_ (Packet.data command ++ ext) (p + 1) = Str.at_ (Packet.data command) (p + 1))
    as ->.
  { unfold Str.at_, Str.size in *. apply app_nth1. lia. }
  reflexivity.
Qed.

Lemma functions_extend (C : Collaborators) (f : PacketFunctionBundle) (fuel : nat)
  (state : EmuEnvState) (command : Packet.PacketCommand) (ext : bytes) :
  In f (functions C) -> within command ->
  function f fuel state (extend command ext) = function f fuel state command.
Proof.
  intros Hin Hwithin. unfold functions in Hin. cbn [In] in Hin.
  repeat (destruct Hin as [<- | Hin];
          [cbn [function bundle];
           first [ reflexivity
                 | apply cmd_set_current_thread_extend; exact Hwithin
                 | unfold cmd_thread_alive, cmd_read_register, cmd_write_register,
                     cmd_read_registers, cmd_write_registers, cmd_read_memory,
                     cmd_write_memory, cmd_continue, cmd_add_breakpoint,
                     cmd_remove_breakpoint;
                   rewrite content_string_extend by exact Hwithin; reflexivity ] |]).
  contradiction.
Qed.

Lemma dispatch_extend (C : Collaborators) (fuel : nat) (state : EmuEnvState)
  (command : Packet.PacketCommand) (ext : bytes) (fs : list PacketFunctionBundle) :
  incl fs (functions C) -> within command ->
  dispatch fs fuel state (extend command ext) = dispatch fs fuel state command.
Proof.
  intros Hincl Hwithin. induction fs as [| f fs IH]; [reflexivity |].
  cbn [dispatch]. rewrite command_begins_with_extend by exact Hwithin.
  rewrite (functions_extend C) by (try exact Hwithin; apply Hincl; left; reflexivity).
  destruct (command_begins_with command (name f)); [reflexivity |].
  apply IH. intros x Hx. apply Hincl. right. exact Hx.
Qed.

(** ** Received in one piece or in two *)

Section Chunks.

Variable C : Collaborators.
Variable fuel : nat.

Lemma server_loop_gas_plus (buffer : bytes) (k : nat) :
  forall gas state pos,
  Str.size buffer - pos < Z.of_nat gas -> (1 <= gas)%nat ->
  server_loop C gas fuel state buffer pos = server_loop C (k + gas) fuel state buffer pos.
Proof.
  induction k as [| k IH]; intros gas state pos Hleft Hgas; [reflexivity |].
  cbn [Nat.add]. rewrite <- server_loop_gas by lia. apply IH; assumption.
Qed.

Lemma server_loop_enough (buffer : bytes) (gas1 gas2 : nat) (state : EmuEnvState) (pos : Z) :
  Str.size buffer - pos < Z.of_nat gas1 -> (1 <= gas1)%nat ->
  Str.size buffer - pos < Z.of_nat gas2 -> (1 <= gas2)%nat ->
  server_loop C gas1 fuel state buffer pos = server_loop C gas2 fuel state buffer pos.
Proof.
  intros H1 G1 H2 G2. destruct (Nat.le_ge_cases gas1 gas2) as [Hle | Hle].
  - replace gas2 with ((gas2 - gas1) + gas1)%nat by lia. apply server_loop_gas_plus; assumption.
  - replace gas1 with ((gas1 - gas2) + gas2)%nat by lia. symmetry.
    apply server_loop_gas_plus; assumption.
Qed.

Lemma server_loop_buffer (b buffer : bytes) (gas : nat) :
  forall state pos,
  server_loop C gas fuel (with_buffer state b) buffer pos
  = loop_with_buffer b (server_loop C gas fuel state buffer pos).
Proof.
  induction gas as [| gas IH]; intros state pos; [reflexivity |].
  cbn [server_loop]. destruct (pos <? Str.size buffer); [| reflexivity].
  destruct (Ascii.eqb (Str.at_ buffer pos) "+"); [apply IH |].
  destruct (Ascii.eqb (Str.at_ buffer pos) "-").
  { rewrite IH. reflexivity. }
  destruct (Ascii.eqb (Str.at_ buffer pos) "$"); [| apply IH].
  destruct (find_hash buffer pos) as [h |]; [| reflexivity].
  destruct (Str.size buffer <=? h + 2); [reflexivity |].
  destruct (Packet.is_valid _).
  - rewrite (dispatch_buffer C b fuel state _ (functions C) (incl_refl _)).
    destruct (dispatch _ _ _ _) as [sent [state' | e |]]; cbn [fst snd outcome_map];
      try reflexivity.
    unfold state_with_buffer. cbn [outcome_map]. rewrite IH. reflexivity.
  - rewrite IH. reflexivity.
Qed.

Lemma find_hash_from_shift (s : bytes) (k : Z) :
  forall i n,
  find_hash_from s (i + k) (n + k) = option_map (fun h => h + k) (find_hash_from s i n).
Proof.
  induction s as [| c s IH]; intros i n; [reflexivity |].
  cbn [find_hash_from].
  replace (i + k + 2 <? n + k) with (i + 2 <? n)
    by (destruct (Z.ltb_spec (i + 2) n), (Z.ltb_spec (i + k + 2) (n + k)); (lia || reflexivity)).
  destruct (i + 2 <? n); [| reflexivity].
  destruct (Ascii.eqb c "#"); [reflexivity |].
  replace (i + k + 1) with (i + 1 + k) by lia. apply IH.
Qed.

Lemma skipn_after (pre buffer : bytes) (pos : Z) :
  0 <= pos ->
  skipn (Z.to_nat (Str.size pre + pos)) (pre ++ buffer) = skipn (Z.to_nat pos) buffer.
Proof.
  intros Hpos. unfold Str.size.
  replace (Z.to_nat (Z.of_nat (List.length pre) + pos))
    with (List.length pre + Z.to_nat pos)%nat by lia.
  rewrite skipn_skipn_add, skipn_length_app. reflexivity.
Qed.

Lemma at_after (pre buffer : bytes) (pos : Z) :
  0 <= pos -> Str.at_ (pre ++ buffer) (Str.size pre + pos) = Str.at_ buffer pos.
Proof.
  intros Hpos. unfold Str.at_, Str.size.
  replace (Z.to_nat (Z.of_nat (List.length pre) + pos))
    with (List.length pre + Z.to_nat pos)%nat by lia.
  apply app_nth2_plus.
Qed.

Lemma find_hash_after (pre buffer : bytes) (pos : Z) :
  0 <= pos ->
  find_hash (pre ++ buffer) (Str.size pre + pos)
  = option_map (fun h => h + Str.size pre) (find_hash buffer pos).
Proof.
  intros Hpos. unfold find_hash.
  replace (Str.size pre + pos + 1) with (Str.size pre + (pos + 1)) by lia.
  rewrite skipn_after by lia.
  replace (Str.size pre + (pos + 1)) with (pos + 1 + Str.size pre) by lia.
  replace (Str.size (pre ++ buffer)) with (Str.size buffer + Str.size pre)
    by (unfold Str.size; rewrite length_app; lia).
  apply find_hash_from_shift.
Qed.

Lemma server_loop_shift (pre buffer : bytes) (gas : nat) :
  forall state pos,
  0 <= pos ->
  server_loop C gas fuel state (pre ++ buffer) (Str.size pre + pos)
  = loop_shift (Str.size pre) (server_loop C gas fuel state buffer pos).
Proof.
  induction gas as [| gas IH]; intros state pos Hpos; [reflexivity |].
  cbn [server_loop].
  replace (Str.size pre + pos <? Str.size (pre ++ buffer)) with (pos <? Str.size buffer).
  2:{ unfold Str.size. rewrite length_app.
      destruct (Z.ltb_spec pos (Z.of_nat (List.length buffer))),
               (Z.ltb_spec (Z.of_nat (List.length pre) + pos)
                  (Z.of_nat (List.length pre + List.length buffer))); (lia || reflexivity). }
  destruct (pos <? Str.size buffer);
    [| unfold loop_shift; cbn [fst snd outcome_map]; do 3 f_equal; lia].
  rewrite at_after by exact Hpos.
  assert (forall st p, 0 <= p -> pos <= p ->
            server_loop C gas fuel st (pre ++ buffer) (Str.size pre + pos + (p - pos))
            = loop_shift (Str.size pre) (server_loop C gas fuel st buffer p)) as Hnext.
  { intros st p Hp _. replace (Str.size pre + pos + (p - pos)) with (Str.size pre + p) by lia.
    apply IH, Hp. }
  destruct (Ascii.eqb (Str.at_ buffer pos) "+").
  { replace (Str.size pre + pos + 1) with (Str.size pre + pos + (pos + 1 - pos)) by lia.
    apply Hnext; lia. }
  destruct (Ascii.eqb (Str.at_ buffer pos) "-").
  { replace (Str.size pre + pos + 1) with (Str.size pre + pos + (pos + 1 - pos)) by lia.
    rewrite Hnext by lia. reflexivity. }
  destruct (Ascii.eqb (Str.at_ buffer pos) "$").
  2:{ replace (Str.size pre + pos + 1) with (Str.size pre + pos + (pos + 1 - pos)) by lia.
      apply Hnext; lia. }
  rewrite find_hash_after by exact Hpos.
  destruct (find_hash buffer pos) as [h |] eqn:Hh; cbn [option_map];
    [| unfold loop_shift; cbn [fst snd outcome_map]; do 3 f_equal; lia].
  pose proof (find_hash_from_bounds _ _ _ _ Hh) as Hlow.
  replace (Str.size (pre ++ buffer) <=? h + Str.size pre + 2) with (Str.size buffer <=? h + 2).
  2:{ unfold Str.size. rewrite length_app.
      destruct (Z.leb_spec (Z.of_nat (List.length buffer)) (h + 2)),
               (Z.leb_spec (Z.of_nat (List.length pre + List.length buffer))
                  (h + Z.of_nat (List.length pre) + 2)); (lia || reflexivity). }
  destruct (Str.size buffer <=? h + 2);
    [unfold loop_shift; cbn [fst snd outcome_map]; do 3 f_equal; lia |].
  replace (h + Str.size pre + 3 - (Str.size pre + pos)) with (h + 3 - pos) by lia.
  rewrite skipn_after by exact Hpos.
  destruct (Packet.is_valid _).
  - destruct (dispatch _ _ _ _) as [sent [state' | e |]]; try reflexivity.
    replace (Str.size pre + pos + (h + 3 - pos))
      with (Str.size pre + pos + (pos + (h + 3 - pos) - pos)) by lia.
    rewrite Hnext by lia. reflexivity.
  - replace (Str.size pre + pos + (h + 3 - pos))
      with (Str.size pre + pos + (pos + (h + 3 - pos) - pos)) by lia.
    rewrite Hnext by lia. reflexivity.
Qed.

Lemma find_hash_from_extend (s ext : bytes) (k : Z) :
  forall i n h,
  0 <= k -> find_hash_from s i n = Some h -> find_hash_from (s ++ ext) i (n + k) = Some h.
Proof.
  induction s as [| c s IH]; intros i n h Hk H; [discriminate |].
  cbn [app find_hash_from] in *.
  destruct (i + 2 <? n) eqn:E; [| discriminate]. apply Z.ltb_lt in E.
  replace (i + 2 <? n + k) with true by (symmetry; apply Z.ltb_lt; lia).
  destruct (Ascii.eqb c "#"); [exact H | apply IH; assumption].
Qed.

Lemma find_hash_extend (buffer ext : bytes) (pos h : Z) :
  0 <= pos -> find_hash buffer pos = Some h -> find_hash (buffer ++ ext) pos = Some h.
Proof.
  intros Hpos Hh.
  pose proof (find_hash_from_bounds _ _ _ _ Hh) as Hlow.
  pose proof (find_hash_from_in_size _ _ _ _ Hh) as Hhigh.
  unfold find_hash in *. unfold Str.size in *.
  rewrite skipn_within by lia. rewrite length_app, Nat2Z.inj_add.
  apply find_hash_from_extend; [lia | exact Hh].
Qed.

Lemma emits_nil {A : Type} (r : transcript * outcome A) : emits [] r = r.
Proof. destruct r. reflexivity. Qed.

Lemma emits_emit {A : Type} (p : bytes) (sent : transcript) (r : transcript * outcome A) :
  emit p (emits sent r) = emits (p :: sent) r.
Proof. reflexivity. Qed.

Lemma emits_emits {A : Type} (s1 s2 : transcript) (r : transcript * outcome A) :
  emits s1 (emits s2 r) = emits (s1 ++ s2) r.
Proof. unfold emits. cbn [fst snd]. rewrite app_assoc. reflexivity. Qed.

(** What the loop did on the characters received so far, it does again when
    more characters follow them, and goes on from where it had stopped. *)
Lemma server_loop_extend (buffer ext : bytes) (gas : nat) :
  forall state pos sent state1 pos1 gas2,
  0 <= pos ->
  server_loop C gas fuel state buffer pos = (sent, Ok (state1, pos1)) ->
  Str.size (buffer ++ ext) - pos < Z.of_nat gas2 -> (1 <= gas2)%nat ->
  server_loop C gas2 fuel state (buffer ++ ext) pos
  = emits sent (server_loop C gas2 fuel state1 (buffer ++ ext) pos1).
Proof.
  induction gas as [| gas IH]; intros state pos sent state1 pos1 gas2 Hpos Hrun Hgas2 Hone;
    [discriminate |].
  cbn [server_loop] in Hrun.
  destruct (pos <? Str.size buffer) eqn:Hlt.
  2:{ injection Hrun as <- <- <-. symmetry. apply emits_nil. }
  apply Z.ltb_lt in Hlt.
  assert (Str.size (buffer ++ ext) = Str.size buffer + Str.size ext) as Hsize
    by (unfold Str.size; rewrite length_app; lia).
  assert (0 <= Str.size ext) as Hext by (unfold Str.size; lia).
  assert (Str.at_ (buffer ++ ext) pos = Str.at_ buffer pos) as Hat.
  { unfold Str.at_, Str.size in *. apply app_nth1. lia. }
  destruct gas2 as [| gas2]; [lia |].
  assert (forall st p sent',
            server_loop C gas fuel st buffer p = (sent', Ok (state1, pos1)) ->
            pos < p ->
            server_loop C gas2 fuel st (buffer ++ ext) p
            = emits sent' (server_loop C (S gas2) fuel state1 (buffer ++ ext) pos1)) as Hnext.
  { intros st p sent' H Hp.
    destruct (Z_lt_le_dec p (Str.size (buffer ++ ext))) as [Hin | Hout].
    - rewrite (server_loop_enough _ gas2 (S gas2)) by lia. apply (IH st p); try assumption; lia.
    - assert (Str.size buffer <= p) as Hend by lia.
      destruct gas as [| gas']; [discriminate |].
      cbn [server_loop] in H.
      replace (p <? Str.size buffer) with false in H by (symmetry; apply Z.ltb_ge; lia).
      injection H as <- <- <-.
      rewrite emits_nil.
      destruct gas2 as [| gas2']; [lia |].
      cbn [server_loop].
      replace (p <? Str.size (buffer ++ ext)) with false by (symmetry; apply Z.ltb_ge; lia).
      reflexivity. }
  assert ((pos <? Str.size (buffer ++ ext)) = true) as HltB by (apply Z.ltb_lt; lia).
  destruct (Ascii.eqb (Str.at_ buffer pos) "+") eqn:Eplus.
  { assert (server_loop C (S gas2) fuel state (buffer ++ ext) pos
            = server_loop C gas2 fuel state (buffer ++ ext) (pos + 1)) as ->.
    { cbn [server_loop]. rewrite HltB, Hat, Eplus. reflexivity. }
    apply (Hnext _ _ _ Hrun); lia. }
  destruct (Ascii.eqb (Str.at_ buffer pos) "-") eqn:Eminus.
  { assert (server_loop C (S gas2) fuel state (buffer ++ ext) pos
            = emit (Packet.server_reply_text (last_reply (gdb state)))
                (server_loop C gas2 fuel state (buffer ++ ext) (pos + 1))) as ->.
    { cbn [server_loop]. rewrite HltB, Hat, Eplus, Eminus. reflexivity. }
    destruct (server_loop C gas fuel state buffer (pos + 1)) as [sent1 r1] eqn:H1.
    unfold emit in Hrun. cbn [fst snd] in Hrun. injection Hrun as <- ->.
    rewrite (Hnext _ _ _ H1) by lia. reflexivity. }
  destruct (Ascii.eqb (Str.at_ buffer pos) "$") eqn:Edollar.
  2:{ assert (server_loop C (S gas2) fuel state (buffer ++ ext) pos
              = server_loop C gas2 fuel state (buffer ++ ext) (pos + 1)) as ->.
      { cbn [server_loop]. rewrite HltB, Hat, Eplus, Eminus, Edollar. reflexivity. }
      apply (Hnext _ _ _ Hrun); lia. }
  destruct (find_hash buffer pos) as [h |] eqn:Hh.
  2:{ injection Hrun as <- <- <-. symmetry. apply emits_nil. }
  pose proof (find_hash_from_bounds _ _ _ _ Hh) as Hlow.
  pose proof (find_hash_from_in_size _ _ _ _ Hh) as Hhigh.
  replace (Str.size buffer <=? h + 2) with false in Hrun
    by (symmetry; apply Z.leb_gt; lia).
  set (len := h + 3 - pos) in *.
  set (command := Packet.parse_command (skipn (Z.to_nat pos) buffer) len) in *.
  assert (len <= Str.size (skipn (Z.to_nat pos) buffer)) as Hlen
    by (unfold len, Str.size in *; rewrite length_skipn; lia).
  assert (server_loop C (S gas2) fuel state (buffer ++ ext) pos
          = emit (Packet.server_ack "+")
              (if Packet.is_valid command then
                 match dispatch (functions C) fuel state command with
                 | (sent0, Ok state') =>
                     emits sent0 (server_loop C gas2 fuel state' (buffer ++ ext) (pos + len))
                 | (sent0, Fault e) => (sent0, Fault e)
                 | (sent0, Hang) => (sent0, Hang)
                 end
               else
                 emit (Packet.server_ack "-")
                   (server_loop C gas2 fuel state (buffer ++ ext) (pos + len)))) as ->.
  { cbn [server_loop]. rewrite HltB, Hat, Eplus, Eminus, Edollar.
    rewrite (find_hash_extend _ _ _ _ Hpos Hh).
    replace (Str.size (buffer ++ ext) <=? h + 2) with false
      by (symmetry; apply Z.leb_gt; lia).
    fold len. unfold Str.size in Hlt. rewrite skipn_within by lia.
    rewrite parse_command_extend by exact Hlen. fold command.
    change (Packet.is_valid (extend command ext)) with (Packet.is_valid command).
    destruct (Packet.is_valid command) eqn:Hvalid; [| reflexivity].
    rewrite (dispatch_extend C) by (try apply incl_refl; apply parse_command_within; assumption).
    reflexivity. }
  unfold emit in Hrun. cbn [fst snd] in Hrun.
  destruct (Packet.is_valid command).
  - destruct (dispatch (functions C) fuel state command) as [sent0 [state' | e |]];
      cbn [snd] in Hrun; try (injection Hrun as _ Hrun; discriminate).
    destruct (server_loop C gas fuel state' buffer (pos + len)) as [sent2 r2] eqn:H2.
    unfold emits in Hrun. cbn [fst snd] in Hrun. injection Hrun as <- ->.
    rewrite (Hnext _ _ _ H2) by (unfold len; lia).
    rewrite emits_emits. reflexivity.
  - destruct (server_loop C gas fuel state buffer (pos + len)) as [sent2 r2] eqn:H2.
    cbn [fst snd] in Hrun. injection Hrun as <- ->.
    rewrite (Hnext _ _ _ H2) by (unfold len; lia). reflexivity.
Qed.

Lemma server_loop_ends_inside (buffer : bytes) (gas : nat) :
  forall state pos sent state' pos',
  0 <= pos <= Str.size buffer ->
  server_loop C gas fuel state buffer pos = (sent, Ok (state', pos')) ->
  pos' <= Str.size buffer.
Proof.
  induction gas as [| gas IH]; intros state pos sent state' pos' Hpos Hrun; [discriminate |].
  cbn [server_loop] in Hrun.
  destruct (pos <? Str.size buffer) eqn:Hlt.
  2:{ injection Hrun as _ _ <-. lia. }
  apply Z.ltb_lt in Hlt.
  assert (forall st p sent1,
            server_loop C gas fuel st buffer p = (sent1, Ok (state', pos')) ->
            0 <= p <= Str.size buffer -> pos' <= Str.size buffer) as Hnext.
  { intros st p sent1 H Hp. apply (IH st p sent1 state' pos' Hp H). }
  destruct (Ascii.eqb (Str.at_ buffer pos) "+"); [apply (Hnext _ _ _ Hrun); lia |].
  destruct (Ascii.eqb (Str.at_ buffer pos) "-").
  { destruct (server_loop C gas fuel state buffer (pos + 1)) as [sent1 r1] eqn:H1.
    unfold emit in Hrun. cbn [fst snd] in Hrun. injection Hrun as _ ->.
    apply (Hnext _ _ _ H1); lia. }
  destruct (Ascii.eqb (Str.at_ buffer pos) "$");
    [| apply (Hnext _ _ _ Hrun); lia].
  destruct (find_hash buffer pos) as [h |] eqn:Hh.
  2:{ injection Hrun as _ _ <-. lia. }
  pose proof (find_hash_from_bounds _ _ _ _ Hh) as Hlow.
  pose proof (find_hash_from_in_size _ _ _ _ Hh) as Hhigh.
  replace (Str.size buffer <=? h + 2) with false in Hrun
    by (symmetry; apply Z.leb_gt; lia).
  unfold emit in Hrun. cbn [fst snd] in Hrun.
  destruct (Packet.is_valid _).
  - destruct (dispatch _ _ _ _) as [sent1 [state1 | e |]]; cbn [snd] in Hrun;
      try (injection Hrun as _ Hrun; discriminate).
    destruct (server_loop C gas fuel state1 buffer (pos + (h + 3 - pos)))
      as [sent2 r2] eqn:H2.
    unfold emits in Hrun. cbn [fst snd] in Hrun. injection Hrun as _ ->.
    apply (Hnext _ _ _ H2); lia.
  - destruct (server_loop C gas fuel state buffer (pos + (h + 3 - pos)))
      as [sent2 r2] eqn:H2.
    cbn [fst snd] in Hrun. injection Hrun as _ ->.
    apply (Hnext _ _ _ H2); lia.
Qed.

(** X20. It makes no difference whether characters arrive in one piece or
    in two: when a call of [server_next] has returned and left [server_die]
    unset, a second call on the characters that follow sends and leaves
    behind exactly what one call on all the characters would have sent
    after the output of the first call, and left behind. *)
Theorem server_next_in_two_pieces (state : EmuEnvState) (t1 t2 : bytes)
  (sent1 sent2 : transcript) (status1 : Z) (state1 : EmuEnvState)
  (result2 : outcome (Z * EmuEnvState)) :
  t1 <> [] -> t2 <> [] ->
  server_next C fuel state (Str.size t1) t1 = (sent1, Ok (status1, state1)) ->
  server_die (gdb state1) = false ->
  server_next C fuel state1 (Str.size t2) t2 = (sent2, result2) ->
  server_next C fuel state (Str.size (t1 ++ t2)) (t1 ++ t2)
  = (sent1 ++ sent2, with_status (Str.size (t1 ++ t2)) result2).
Proof.
  intros Hne1 Hne2 Hfirst Hdie Hsecond.
  assert (forall t : bytes, t <> [] -> (Str.size t <=? 0) = false) as Hpositive.
  { intros t Ht. apply Z.leb_gt. unfold Str.size. destruct t; [congruence | simpl; lia]. }
  assert (forall t : bytes, firstn (Z.to_nat (Str.size t)) t = t) as Hall.
  { intros t. unfold Str.size. rewrite Nat2Z.id. apply firstn_all. }
  unfold server_next in Hfirst.
  destruct (server_die (gdb state)) eqn:Hdie0.
  { injection Hfirst as _ _ <-. congruence. }
  rewrite (Hpositive t1 Hne1), Hall in Hfirst.
  set (b1 := recv_buffer (gdb state) ++ t1) in *.
  destruct (server_loop C (S (List.length b1)) fuel state b1 0)
    as [sent [[s1 p1] | e |]] eqn:Hloop1; try discriminate.
  injection Hfirst as <- _ <-.
  destruct (server_loop_stops _ _ _ _ _ _ _ _ _ (Z.le_refl 0) Hloop1) as [Hp1 _].
  assert (p1 <= Str.size b1) as Hp1'.
  { apply (server_loop_ends_inside b1 (S (List.length b1)) state 0 sent s1 p1); [unfold Str.size; lia | exact Hloop1]. }
  set (kept := skipn (Z.to_nat p1) b1) in *.
  change (with_gdb s1 (set_recv_buffer (gdb s1) kept)) with (with_buffer s1 kept) in *.
  change (server_die (gdb (with_buffer s1 kept))) with (server_die (gdb s1)) in Hdie.
  unfold server_next in Hsecond.
  change (server_die (gdb (with_buffer s1 kept))) with (server_die (gdb s1)) in Hsecond.
  rewrite Hdie, (Hpositive t2 Hne2), Hall in Hsecond.
  change (recv_buffer (gdb (with_buffer s1 kept))) with kept in Hsecond.
  set (b2 := kept ++ t2) in *.
  rewrite server_loop_buffer in Hsecond.
  unfold server_next. rewrite Hdie0, Hall.
  rewrite (Hpositive (t1 ++ t2)) by (destruct t1; [congruence | discriminate]).
  rewrite app_assoc. fold b1.
  rewrite (server_loop_extend b1 t2 (S (List.length b1)) state 0 sent s1 p1 (S (List.length (b1 ++ t2))) (Z.le_refl 0) Hloop1)
    by (unfold Str.size; lia).
  assert (b1 ++ t2 = firstn (Z.to_nat p1) b1 ++ b2) as Hsplit.
  { unfold b2, kept. rewrite app_assoc, firstn_skipn. reflexivity. }
  assert (Str.size (firstn (Z.to_nat p1) b1) = p1) as Hpre.
  { unfold Str.size in *. rewrite firstn_length_le by lia. lia. }
  rewrite Hsplit at 2.
  replace p1 with (Str.size (firstn (Z.to_nat p1) b1) + 0) at 2 by lia.
  rewrite server_loop_shift by lia. rewrite Hpre.
  rewrite (server_loop_enough b2 (S (List.length (b1 ++ t2))) (S (List.length b2)))
    by (rewrite ?Hsplit; unfold Str.size; rewrite ?length_app; lia).
  destruct (server_loop C (S (List.length b2)) fuel s1 b2 0)
    as [sent' [[s2 p2] | e |]] eqn:Hloop2;
    unfold loop_with_buffer in Hsecond; cbn [fst snd outcome_map] in Hsecond;
    injection Hsecond as <- <-;
    unfold loop_shift, emits, with_status; cbn [fst snd outcome_map]; try reflexivity.
  destruct (server_loop_stops _ _ _ _ _ _ _ _ _ (Z.le_refl 0) Hloop2) as [Hp2 _].
  assert (skipn (Z.to_nat (p2 + p1)) (b1 ++ t2) = skipn (Z.to_nat p2) b2) as ->.
  { rewrite Hsplit. replace (p2 + p1) with (Str.size (firstn (Z.to_nat p1) b1) + p2) by lia.
    apply skipn_after. lia. }
  reflexivity.
Qed.

End Chunks.

Lemma server_next_in_two_pieces_witness :
  server_next Fixture.idle O Fixture.state0 13 (lit "$Hg0#df$qC#b4")
  = ([lit "+"; lit "$OK#9a"] ++ [lit "+"; lit "$QC0000002a#47"],
     with_status 13
       (Ok (4, with_gdb Fixture.state0
                 (set_recv_buffer
                    (set_last_reply (set_current_thread Fixture.gdb0 42) (lit "QC0000002a"))
                    [])))).
Proof.
  apply (server_next_in_two_pieces Fixture.idle O Fixture.state0 (lit "$Hg0#df$q") (lit "C#b4")
           [lit "+"; lit "$OK#9a"] [lit "+"; lit "$QC0000002a#47"] 9
           (with_gdb Fixture.state0
              (set_recv_buffer (set_last_reply (set_current_thread Fixture.gdb0 42) (lit "OK"))
                 (lit "$q")))).
  - discriminate.
  - discriminate.
  - vm_compute. reflexivity.
  - reflexivity.
  - vm_compute. reflexivity.
Defined.

(** ** The register file as a whole *)

Lemma fetch_modify_other (cpu : CPUState) (reg reg' value : Z) :
  0 <= reg -> 0 <= reg' -> reg <> reg' ->
  fst (fetch_reg (modify_reg cpu reg value) reg') = fst (fetch_reg cpu reg').
Proof.
  intros Hreg Hreg' Hne. unfold fetch_reg, modify_reg.
  split_compare; cbn [fst cpu_read cpu_write reg_file cpu_reg_eqb];
    try reflexivity; try lia;
    match goal with
    | |- (if ?a =? ?b then _ else _) = _ => destruct (Z.eqb_spec a b); [lia | reflexivity]
    end.
Qed.

Lemma concat_map_length (f : Z -> bytes) (w : nat) (xs : list Z) :
  Forall (fun x => List.length (f x) = w) xs ->
  List.length (concat (map f xs)) = (w * List.length xs)%nat.
Proof.
  induction 1 as [| x xs Hx _ IH]; [simpl; lia |].
  cbn [map concat]. rewrite length_app, Hx, IH. simpl List.length. lia.
Qed.

Lemma concat_map_substr (f : Z -> bytes) (w : nat) (xs : list Z) (i : nat) :
  Forall (fun x => List.length (f x) = w) xs -> (i < List.length xs)%nat ->
  Str.substr (concat (map f xs)) (Z.of_nat w * Z.of_nat i) (Z.of_nat w)
  = Ok (f (nth i xs 0)).
Proof.
  intros Hw Hi.
  destruct (nth_split xs 0 Hi) as (l1 & l2 & Hsplit & Hl1).
  assert (Forall (fun x => List.length (f x) = w) l1 /\ List.length (f (nth i xs 0)) = w)
    as [Hw1 Hwi].
  { rewrite Hsplit in Hw. apply Forall_app in Hw as [H1 H2].
    inversion H2 as [| ? ? Hx Hrest]. split; assumption. }
  rewrite Hsplit at 1. rewrite map_app, concat_app. cbn [map concat].
  replace (Z.of_nat w * Z.of_nat i) with (Str.size (concat (map f l1)))
    by (unfold Str.size; rewrite (concat_map_length f w) by exact Hw1; lia).
  apply substr_middle; unfold Str.size; rewrite Hwi; [lia | right; reflexivity].
Qed.

Lemma to_hex_widths (words : list Z) :
  Forall (fun w => 0 <= w < 2 ^ 32) words ->
  Forall (fun x => List.length (Codec.to_hex x) = 8%nat) words.
Proof. apply Forall_impl. intros x Hx. apply to_hex_length, Hx. Qed.

(** The CPU after the loop of [cmd_write_registers] on the hex text of the
    words [words]: the registers of the indices below 26 hold the words. *)
Lemma write_registers_loop_words (words : list Z) (k : nat) :
  forall (i : nat) (cpu : CPUState),
  Forall (fun w => 0 <= w < 2 ^ 32) words ->
  (i + k = List.length words)%nat ->
  8 * Z.of_nat (List.length words) < 2 ^ 32 ->
  exists cpu',
    write_registers_loop k (Z.of_nat i) (concat (map Codec.to_hex words)) cpu = Ok cpu'
    /\ (forall j, (i <= j < i + k)%nat -> (j <= 25)%nat ->
                  fst (fetch_reg cpu' (Z.of_nat j)) = nth j words 0)
    /\ (forall j, (j < i)%nat ->
                  fst (fetch_reg cpu' (Z.of_nat j)) = fst (fetch_reg cpu (Z.of_nat j))).
Proof.
  change (2 ^ 32) with 4294967296.
  induction k as [| k IH]; intros i cpu Hwords Hik Hsize.
  - exists cpu. split; [reflexivity |]. split; [intros j Hj; lia | reflexivity].
  - cbn [write_registers_loop].
    rewrite (uint32_t_small (Z.of_nat i * 8)) by (change (2 ^ 32) with 4294967296; lia).
    replace (Z.of_nat i * 8) with (Z.of_nat 8 * Z.of_nat i) by lia.
    assert (0 <= nth i words 0 < 4294967296) as Hw.
    { rewrite Forall_forall in Hwords. apply Hwords, nth_In. lia. }
    assert (Str.substr (concat (map Codec.to_hex words)) (Z.of_nat 8 * Z.of_nat i) 8
            = Ok (Codec.to_hex (nth i words 0))) as ->.
    { apply (concat_map_substr Codec.to_hex 8 words i); [| lia].
      apply to_hex_widths. exact Hwords. }
    cbn [bind].
    assert (Codec.parse_hex (Codec.to_hex (nth i words 0)) = nth i words 0) as ->
      by (apply parse_hex_pad_fmt; change (2 ^ 32) with 4294967296; exact Hw).
    replace (Z.of_nat i + 1) with (Z.of_nat (S i)) by lia.
    destruct (IH (S i) (modify_reg cpu (Z.of_nat i) (nth i words 0)) Hwords ltac:(lia) Hsize)
      as (cpu' & Hrun & Hin & Hout).
    exists cpu'. split; [exact Hrun |]. split.
    + intros j Hj Hj25. destruct (Nat.eq_dec j i) as [-> | Hne].
      * rewrite Hout by lia. apply fetch_modify_same. lia.
      * apply Hin; lia.
    + intros j Hj. rewrite Hout by lia. apply fetch_modify_other; lia.
Qed.

(** X21. What [G] writes, [g] reads back: with a valid current thread, the
    packet [G] followed by the hex text of at least sixteen 32-bit words is
    answered [OK], and [g] is then answered by the first sixteen words, each
    as [be_hex] prints it (the digits of a word come back byte-swapped). *)
Theorem registers_packet_round_trip (fuel : nat) (state : EmuEnvState)
  (write read : Packet.PacketCommand) (words : list Z) (thread : ThreadState) :
  current_thread (gdb state) <> -1 ->
  ThreadMap.get (threads (kernel state)) (current_thread (gdb state)) = Some thread ->
  Packet.content_string write = Ok ("G"%char :: concat (map Codec.to_hex words)) ->
  Forall (fun w => 0 <= w < 2 ^ 32) words ->
  (16 <= List.length words)%nat ->
  8 * Z.of_nat (List.length words) < 2 ^ 32 ->
  exists state1 state2,
    cmd_write_registers fuel state write = Ok (lit "OK", state1)
    /\ cmd_read_registers fuel state1 read
       = Ok (concat (map Codec.be_hex (firstn 16 words)), state2).
Proof.
  intros Hcur Hget Hwrite Hwords Hlen Hsize.
  change (2 ^ 32) with 4294967296 in Hsize.
  set (payload := concat (map Codec.to_hex words)).
  assert (List.length payload = (8 * List.length words)%nat) as Hpayload.
  { unfold payload. apply concat_map_length, to_hex_widths, Hwords. }
  destruct (write_registers_loop_words words (List.length words) O (cpu thread) Hwords
              eq_refl)
    as (cpu1 & Hrun & Hin & _); [change (2 ^ 32) with 4294967296; exact Hsize |].
  fold payload in Hrun. change (Z.of_nat 0) with 0 in Hrun.
  set (state1 := store_thread state (current_thread (gdb state)) (set_cpu thread cpu1)).
  exists state1.
  exists (store_thread state1 (current_thread (gdb state1))
            (set_cpu (set_cpu thread cpu1) (cpu_after_reads core_registers cpu1))).
  split.
  - unfold cmd_write_registers.
    rewrite (no_current_thread_false state thread Hcur Hget).
    unfold ThreadMap.deref. rewrite Hget, Hwrite. cbn [bind]. fold payload.
    assert (Str.substr ("G"%char :: payload) 1 npos = Ok payload) as ->.
    { apply (substr_tail ["G"%char] payload). unfold Str.size, npos.
      change (2 ^ 64) with 18446744073709551616. lia. }
    cbn [bind].
    replace (Z.to_nat (Str.size payload / 8)) with (List.length words).
    + rewrite Hrun. reflexivity.
    + unfold Str.size. rewrite Hpayload.
      replace (Z.of_nat (8 * List.length words)) with (Z.of_nat (List.length words) * 8) by lia.
      rewrite Z.div_mul by lia. lia.
  - assert (current_thread (gdb state1) = current_thread (gdb state)) as Hcur1 by reflexivity.
    assert (ThreadMap.get (threads (kernel state1)) (current_thread (gdb state1))
            = Some (set_cpu thread cpu1)) as Hget1.
    { rewrite Hcur1. unfold state1, store_thread. cbn [kernel with_kernel threads set_threads].
      apply (get_put_same _ _ thread), Hget. }
    unfold cmd_read_registers.
    rewrite (no_current_thread_false state1 _ ltac:(rewrite Hcur1; exact Hcur) Hget1).
    unfold ThreadMap.deref. rewrite Hget1. cbn [bind cpu set_cpu].
    pose proof (read_registers_loop_reads core_registers O cpu1 []
                  (fun i c' Hi => fetch_reg_core c' i Hi)) as Hloop.
    change (List.length core_registers) with 16%nat in Hloop.
    change (Z.of_nat 0) with 0 in Hloop. rewrite Hloop. cbn [app].
    f_equal. f_equal. f_equal.
    rewrite <- (map_map (reg_file cpu1) Codec.be_hex). f_equal.
    apply (nth_ext _ _ 0 0).
    + rewrite length_map, length_firstn. change (List.length core_registers) with 16%nat. lia.
    + intros i Hi. rewrite length_map in Hi. change (List.length core_registers) with 16%nat in Hi.
      rewrite (nth_indep _ 0 (reg_file cpu1 PC))
        by (rewrite length_map; exact Hi).
      rewrite map_nth.
      rewrite nth_firstn. replace (i <? 16)%nat with true by (symmetry; apply Nat.ltb_lt; lia).
      rewrite <- (Hin i) by lia. rewrite fetch_reg_core by exact Hi. reflexivity.
Qed.

Lemma registers_packet_round_trip_witness :
  exists state1 state2,
    cmd_write_registers O Fixture.state1
      (command_of "G000000000000000100000002000000030000000400000005000000060000000700000008000000090000000a0000000b0000000c0000000d0000000e12345678")
    = Ok (lit "OK", state1)
    /\ cmd_read_registers O state1 (command_of "g")
       = Ok (lit "000000000100000002000000030000000400000005000000060000000700000008000000090000000a0000000b0000000c0000000d0000000e00000078563412",
             state2).
Proof.
  apply (registers_packet_round_trip O Fixture.state1
           (command_of "G000000000000000100000002000000030000000400000005000000060000000700000008000000090000000a0000000b0000000c0000000d0000000e12345678")
           (command_of "g")
           [0; 1; 2; 3; 4; 5; 6; 7; 8; 9; 10; 11; 12; 13; 14; 305419896]
           (Fixture.thread0 suspend)).
  - discriminate.
  - reflexivity.
  - vm_compute. reflexivity.
  - repeat constructor; lia.
  - simpl. lia.
  - vm_compute. reflexivity.
Defined.
